(** * Agentic Investment Advisor: risk scoring and portfolio construction

    A shallow embedding of [agents/risk_assessment_agent.py] and
    [agents/portfolio_generator_agent.py], of the orchestrator that runs
    them ([agents/crew_orchestrator.py]) and of the conversion of the price
    table for the frontend ([agents/market_data_agent.py]); the download
    of prices and the language model are parameters of the orchestrator.

    Numbers.  Python and numpy floats are idealised as exact rationals
    ([Q]); a missing value (NaN) in a table or a mapping is [None].  The
    places where the source leaves the finite numbers are kept visible:
    a Python-level division by zero raises, a numpy division by zero is the
    outcome [NonFinite], and the two pandas pipelines of the risk agent that
    divide by a price carry an explicit infinite value.

    Scope.  A rational stands for a finite float and its arithmetic is
    exact: nothing overflows and nothing is rounded but by [round].  The
    floats of the source differ in two ways that can be observed.  A sum
    of weights that add up to 1 is 1 only up to the last bits (the float
    sum of 0.8 and four times 0.05 is 1.0000000000000002), so the
    renormalisation of lines 108-113 moves the weights in their last bits,
    and a share count taken at an exact multiple of the price can come out
    one lower than here.  And a value can leave the finite floats: a
    squared return overflows to an infinite volatility, which the 'high'
    policy turns into a NaN weight, and [int(amount // price)] raises a
    ValueError on a NaN or infinite amount, as it does for an infinite or
    NaN budget.  The statements on the low-risk weights, on the sum of the
    weights and on the orchestrator are therefore made to the six decimals
    a holding reports and allow for the portfolio substituted after an
    exception; the statement that nothing is raised is one about finite
    values. *)

From Stdlib Require Import String Ascii QArith Qround Qabs ZArith Bool Arith List.
From Stdlib Require Import Permutation Sorted Lia Lqa Morphisms Setoid.
Import ListNotations.

Local Open Scope Q_scope.

(** ** Outcomes of Python code *)

Inductive exn : Type :=
| ZeroDivisionError
| KeyError
| ValueError.

Inductive outcome (A : Type) : Type :=
| Ok (a : A)
| Raise (e : exn)
| NonFinite.

Arguments Ok {A} a.
Arguments Raise {A} e.
Arguments NonFinite {A}.

Definition bind {A B : Type} (m : outcome A) (k : A -> outcome B) : outcome B :=
  match m with
  | Ok a => k a
  | Raise e => Raise e
  | NonFinite => NonFinite
  end.

Notation "x <- m ;; k" := (bind m (fun x => k))
  (at level 61, m at next level, right associativity).

(** [try: ... except Exception: ...] catches what is raised, nothing else. *)
Definition try_except {A : Type} (body : outcome A) (handler : outcome A) : outcome A :=
  match body with
  | Raise _ => handler
  | other => other
  end.

(** ** Python and numpy arithmetic on the idealised floats *)

(** Python [x / y] on floats. *)
Definition py_div (x y : Q) : outcome Q :=
  if Qeq_bool y 0 then Raise ZeroDivisionError else Ok (x / y).

(** Python [int(x // y)] on floats: the floor of the quotient. *)
Definition py_floordiv (x y : Q) : outcome Z :=
  if Qeq_bool y 0 then Raise ZeroDivisionError else Ok (Qfloor (x / y)).

(** numpy [arr / d] for a scalar [d]: no exception, but a zero divisor
    turns every element into inf or nan. *)
Definition np_div (arr : list Q) (d : Q) : outcome (list Q) :=
  if Qeq_bool d 0
  then match arr with [] => Ok [] | _ :: _ => NonFinite end
  else Ok (map (fun x => x / d) arr).

Definition np_sum (arr : list Q) : Q := fold_right Qplus 0 arr.

Definition np_ones (n : nat) : list Q := repeat 1 n.

Definition of_nat (n : nat) : Q := inject_Z (Z.of_nat n).

(** Rounding to the nearest integer, ties to the even one. *)
Definition round_half_even (x : Q) : Z :=
  let f := Qfloor x in
  match Qcompare (x - inject_Z f) (1 # 2) with
  | Lt => f
  | Gt => (f + 1)%Z
  | Eq => if Z.even f then f else (f + 1)%Z
  end.

Definition pow10 (ndigits : nat) : Z := Z.pow 10 (Z.of_nat ndigits).

(** Python [round(x, ndigits)]. *)
Definition py_round (x : Q) (ndigits : nat) : Q :=
  inject_Z (round_half_even (x * inject_Z (pow10 ndigits))) / inject_Z (pow10 ndigits).

(** The constant [1e-6] of the source. *)
Definition epsilon : Q := 1 # 1000000.

(** ** Data model *)

(** A float of a table or of a mapping: a finite value, or NaN. *)
Definition cell : Type := option Q.

(** A float computed by the risk agent, where a division by a zero price
    may leave the finite numbers. *)
Inductive fl : Type :=
| Fin (q : Q)
| PInf
| NInf
| NaN.

(** A pandas Series, or a Python dict, from labels to floats: the entries in
    insertion order. *)
Definition Series : Type := list (string * cell).

(** A price table: one column per ticker, each column one cell per date,
    dates ascending. *)
Definition DataFrame : Type := list (string * list cell).

Definition columns {A : Type} (df : list (string * A)) : list string := map fst df.

(** [df.empty]: no column, or no row. *)
Definition df_empty (df : DataFrame) : bool :=
  match df with
  | [] => true
  | (_, col) :: _ => Nat.eqb (length col) 0
  end.

(** The PriceTable invariants: unique tickers, every column as long as the
    date axis. *)
Definition aligned (df : DataFrame) : Prop :=
  forall c1 c2, In c1 df -> In c2 df -> length (snd c1) = length (snd c2).

Definition PriceTable (df : DataFrame) : Prop :=
  NoDup (columns df) /\ aligned df.

Record Summary : Type := {
  avg_volatility : cell;
  max_volatility : cell;
  min_volatility : cell
}.

(** The report of the risk agent; the key ['volatility'] may be absent from
    the dict handed to the portfolio agent. *)
Record RiskReport : Type := {
  volatility : option Series;
  drawdown : list (string * fl);
  risk_score : list (string * Q);
  summary : Summary
}.

Record Holding : Type := {
  h_ticker : string;
  h_weight : Q;
  h_price : cell;
  h_shares : Z;
  h_allocated : Q
}.

Record Portfolio : Type := {
  p_budget : Q;
  p_allocated : Q;
  p_remaining : Q;
  p_holdings : list Holding;
  p_error : option string
}.

(** ** Dicts, Series and slices *)

Definition mem (t : string) (l : list string) : bool :=
  existsb (String.eqb t) l.

Fixpoint nodupb (l : list string) : bool :=
  match l with
  | [] => true
  | t :: rest => negb (mem t rest) && nodupb rest
  end.

(** [d.get(k)]: a later entry for the same key overrides an earlier one. *)
Fixpoint dict_get {V : Type} (d : list (string * V)) (k : string) : option V :=
  match d with
  | [] => None
  | (k', v) :: rest =>
      match dict_get rest k with
      | Some v' => Some v'
      | None => if String.eqb k k' then Some v else None
      end
  end.

(** [s.reindex(labels)]: the values at [labels], NaN where [s] has no such
    label.  Asked for its own index, pandas returns the series as it is;
    otherwise it refuses to reindex an axis with duplicate labels. *)
Definition reindex (s : Series) (labels : list string) : outcome Series :=
  if list_eq_dec string_dec (columns s) labels then Ok s
  else if nodupb (columns s)
  then Ok (map (fun t => (t, match dict_get s t with Some c => c | None => None end)) labels)
  else Raise ValueError.

(** [s.fillna(0.0)]. *)
Definition fillna0 (s : Series) : list (string * Q) :=
  map (fun e => (fst e, match snd e with Some q => q | None => 0 end)) s.

(** [s.loc[labels].values]: every entry carrying each label, in the order of
    [labels]; a label without entry is a KeyError. *)
Fixpoint loc (s : list (string * Q)) (labels : list string) : outcome (list Q) :=
  match labels with
  | [] => Ok []
  | t :: rest =>
      match filter (fun e => String.eqb (fst e) t) s with
      | [] => Raise KeyError
      | hits => vs <- loc s rest ;; Ok (map snd hits ++ vs)
      end
  end.

(** [l[:n]] and [l[-n:]] for [n >= 0]; note that [l[-0:]] is all of [l]. *)
Definition slice_first {A : Type} (n : nat) (l : list A) : list A := firstn n l.

Definition slice_last {A : Type} (n : nat) (l : list A) : list A :=
  if Nat.eqb n 0 then l else skipn (length l - n) l.

(** [df.iloc[-1].to_dict()]. *)
Definition iloc_last (df : DataFrame) : Series :=
  map (fun c => (fst c, last (snd c) None)) df.

(** ** Returns, standard deviation, drawdown, rank *)

Definition fdiv (x y : Q) : fl :=
  if Qeq_bool y 0
  then (if Qeq_bool x 0 then NaN else if Qle_bool 0 x then PInf else NInf)
  else Fin (x / y).

Definition fsub (x : fl) (y : Q) : fl :=
  match x with
  | Fin q => Fin (q - y)
  | other => other
  end.

Definition is_nan (x : fl) : bool :=
  match x with NaN => true | _ => false end.

(** [col.ffill()]. *)
Fixpoint ffill_from (prev : cell) (col : list cell) : list cell :=
  match col with
  | [] => []
  | Some q :: rest => Some q :: ffill_from (Some q) rest
  | None :: rest => prev :: ffill_from prev rest
  end.

Definition ffill (col : list cell) : list cell := ffill_from None col.

(** [col / col.shift(1) - 1]. *)
Fixpoint pct_from (prev : cell) (col : list cell) : list fl :=
  match col with
  | [] => []
  | c :: rest =>
      match prev, c with
      | Some a, Some b => fsub (fdiv b a) 1
      | _, _ => NaN
      end :: pct_from c rest
  end.

(** [frame.dropna()]: the rows with a NaN in any column go. *)
Definition and_mask (m1 m2 : list bool) : list bool :=
  map (fun ab => fst ab && snd ab) (combine m1 m2).

Definition row_mask (nrows : nat) (cols : list (list fl)) : list bool :=
  fold_right (fun col m => and_mask (map (fun x => negb (is_nan x)) col) m)
             (repeat true nrows) cols.

Fixpoint take_mask {A : Type} (m : list bool) (l : list A) : list A :=
  match m, l with
  | true :: m', x :: l' => x :: take_mask m' l'
  | false :: m', _ :: l' => take_mask m' l'
  | _, _ => []
  end.

Definition nrows {A : Type} (df : list (string * list A)) : nat :=
  match df with
  | [] => 0
  | (_, col) :: _ => length col
  end.

Definition dropna (frame : list (string * list fl)) : list (string * list fl) :=
  let m := row_mask (nrows frame) (map snd frame) in
  map (fun c => (fst c, take_mask m (snd c))) frame.

Fixpoint finite_values (l : list fl) : option (list Q) :=
  match l with
  | [] => Some []
  | Fin q :: rest => option_map (cons q) (finite_values rest)
  | _ :: rest => None
  end.

Definition variance (xs : list Q) : Q :=
  let n := of_nat (length xs) in
  let mean := np_sum xs / n in
  np_sum (map (fun x => (x - mean) * (x - mean)) xs) / (n - 1).

Definition cummax_step (m x : Q) : Q := if Qle_bool m x then x else m.

(** [series.cummax()]. *)
Fixpoint cummax_from (m : Q) (xs : list Q) : list Q :=
  match xs with
  | [] => []
  | x :: rest => let m' := cummax_step m x in m' :: cummax_from m' rest
  end.

Definition cummax (xs : list Q) : list Q :=
  match xs with
  | [] => []
  | x :: rest => x :: cummax_from x rest
  end.

(** The smaller of two floats, NaN skipped. *)
Definition fmin (a b : fl) : fl :=
  match a, b with
  | NaN, _ => b
  | _, NaN => a
  | NInf, _ | _, NInf => NInf
  | PInf, _ => b
  | _, PInf => a
  | Fin x, Fin y => if Qle_bool x y then Fin x else Fin y
  end.

(** [series.min()], NaN when nothing is left to compare. *)
Definition series_min (l : list fl) : fl := fold_right fmin NaN l.

(** [((series - roll_max) / roll_max).min()]. *)
Definition max_drawdown (series : list Q) : fl :=
  let roll_max := cummax series in
  series_min (map (fun sm => fdiv (fst sm - snd sm) (snd sm)) (combine series roll_max)).

Fixpoint values_present (col : list cell) : list Q :=
  match col with
  | [] => []
  | Some q :: rest => q :: values_present rest
  | None :: rest => values_present rest
  end.

Definition count_if (p : Q -> bool) (l : list Q) : nat := length (filter p l).

(** [s.rank(ascending=True)] with the default tie method, the average of the
    positions a group of equal values occupies: with [L] values below and
    [E] values equal (itself included), positions [L+1 .. L+E]. *)
Definition rank_average (vals : list Q) (x : Q) : Q :=
  let L := count_if (fun y => negb (Qle_bool x y)) vals in
  let E := count_if (fun y => Qeq_bool y x) vals in
  of_nat L + (of_nat E + 1) / 2.

Definition q_max (a b : Q) : Q := if Qle_bool a b then b else a.
Definition q_min (a b : Q) : Q := if Qle_bool a b then a else b.

Definition reduce (f : Q -> Q -> Q) (l : list Q) : cell :=
  match l with
  | [] => None
  | x :: rest => Some (fold_left f rest x)
  end.

(** ** The two agents *)

Section Agents.

(** pandas' [sort_values] (its default sort kind need not keep the order of
    equal values), numpy's [sqrt], and whether [pct_change] forward-fills
    missing prices first (the default of pandas 2, dropped in pandas 3). *)
Variable sort_values : list (string * Q) -> list (string * Q).
Variable sqrtQ : Q -> Q.
Variable fill_pad : bool.

(** [prices_df.pct_change()]. *)
Definition pct_change (df : DataFrame) : list (string * list fl) :=
  map (fun c => (fst c, pct_from None (if fill_pad then ffill (snd c) else snd c))) df.

(** [col.std()]: sample standard deviation of the values that are not NaN,
    NaN below two of them; an infinite value poisons the mean.  The
    variance is exact here, where a float variance overflows to infinity
    for returns beyond about 1e154. *)
Definition std (col : list fl) : cell :=
  let xs := filter (fun x => negb (is_nan x)) col in
  if Nat.ltb (length xs) 2 then None
  else option_map (fun v => sqrtQ (variance v)) (finite_values xs).

(** [prices_df.pct_change().dropna().std() * np.sqrt(252)]. *)
Definition annualized_vol (df : DataFrame) : Series :=
  map (fun c => (fst c, option_map (fun s => s * sqrtQ (252 # 1)) (std (snd c))))
      (dropna (pct_change df)).

(** *** risk_assessment_agent.py *)

Definition assess_universe (prices_df : DataFrame) : RiskReport :=
  let vol := annualized_vol prices_df in
  let drawdowns :=
    map (fun c =>
           let series := values_present (snd c) in
           (fst c, if Nat.eqb (length series) 0 then Fin 0 else max_drawdown series))
        prices_df in
  let vol := fillna0 vol in
  let n := of_nat (length vol) in
  let risk_score := map (fun e => (fst e, rank_average (map snd vol) (snd e) / n)) vol in
  {| volatility := Some (map (fun e => (fst e, Some (snd e))) vol);
     drawdown := drawdowns;
     risk_score := risk_score;
     summary :=
       {| avg_volatility := match vol with [] => None | _ => Some (np_sum (map snd vol) / n) end;
          max_volatility := reduce q_max (map snd vol);
          min_volatility := reduce q_min (map snd vol) |} |}.

(** *** portfolio_generator_agent.py *)

Definition _sanitize_tickers (prices_df : DataFrame) (vol_series : Series) : list string :=
  let prices_cols := columns prices_df in
  let vol_index := columns vol_series in
  filter (fun t => mem t prices_cols) vol_index.

(** The two early returns. *)
Definition error_portfolio (budget : Q) (msg : string) : Portfolio :=
  {| p_budget := budget;
     p_allocated := 0;
     p_remaining := py_round budget 2;
     p_holdings := [];
     p_error := Some msg |}.

(** Lines 45-53: the volatility series. *)
Definition volatility_source (prices_df : DataFrame) (risk_report : RiskReport) : outcome Series :=
  let vol := match volatility risk_report with Some d => d | None => [] end in
  match vol with
  | [] => try_except (Ok (annualized_vol prices_df))
                     (Ok (map (fun c => (c, Some 0)) (columns prices_df)))
  | _ :: _ => Ok vol
  end.

(** Lines 56-59: the tickers kept. *)
Definition resolve_universe (prices_df : DataFrame) (vol : Series) : list string :=
  match _sanitize_tickers prices_df vol with
  | [] => columns prices_df
  | available => available
  end.

(** Lines 45-65. *)
Definition ranked_volatility (prices_df : DataFrame) (risk_report : RiskReport)
  : outcome (list (string * Q)) :=
  vol <- volatility_source prices_df risk_report ;;
  let available := resolve_universe prices_df vol in
  vol <- reindex vol available ;;
  Ok (sort_values (fillna0 vol)).

(** Lines 78-106: the tickers chosen and their weights. *)
Definition choose_weights (risk_level : string) (n : nat) (ranked : list (string * Q))
  : outcome (list string * list Q) :=
  if String.eqb risk_level "low" then
    let chosen := slice_first n (columns ranked) in
    if Nat.eqb n 1 then Ok (chosen, [1])
    else
      w <- py_div (2 # 10) (of_nat (n - 1)) ;;
      Ok (chosen, (8 # 10) :: repeat w (n - 1))
  else if String.eqb risk_level "high" then
    let chosen := slice_last n (columns ranked) in
    vols <- loc ranked chosen ;;
    let vols := map (fun v => if Qle_bool v 0 then epsilon else v) vols in
    weights <- np_div vols (np_sum vols) ;;
    weights <- (if Qeq_bool (np_sum weights) 0
                then np_div (np_ones (length chosen)) (of_nat (length chosen))
                else Ok weights) ;;
    Ok (chosen, weights)
  else
    let low_count := Nat.div n 2 in
    let high_count := (n - low_count)%nat in
    let low := slice_first low_count (columns ranked) in
    let high := if Nat.ltb 0 high_count then slice_last high_count (columns ranked) else [] in
    let chosen := low ++ high in
    let chosen := match chosen with [] => slice_first n (columns ranked) | _ => chosen end in
    weights <- np_div (np_ones (length chosen)) (of_nat (length chosen)) ;;
    Ok (chosen, weights).

(** Lines 109-113.  The sum is exact here, so weights that add up to 1 are
    left as they are; a float sum moves them in their last bits. *)
Definition normalize (weights : list Q) : outcome (list Q) :=
  if Qeq_bool (np_sum weights) 0
  then np_div (map (fun _ => 1) weights) (of_nat (length weights))
  else np_div weights (np_sum weights).

(** Lines 121-135: one holding, for a finite budget and a finite weight;
    on an infinite or NaN amount [int(amount // price)] raises. *)
Definition allocate_one (budget : Q) (last_prices : Series) (tw : string * Q)
  : outcome Holding :=
  let ticker := fst tw in
  let w := snd tw in
  let price := match dict_get last_prices ticker with Some c => c | None => None end in
  sa <- match price with
        | None => Ok (0%Z, 0)
        | Some pr =>
            if Qle_bool pr 0 then Ok (0%Z, 0)
            else
              let amount := budget * w in
              shares <- py_floordiv amount pr ;;
              Ok (shares, py_round (inject_Z shares * pr) 2)
        end ;;
  Ok {| h_ticker := ticker;
        h_weight := py_round w 6;
        h_price := price;
        h_shares := fst sa;
        h_allocated := snd sa |}.

(** Lines 118-136: the loop over [zip(chosen, weights)]. *)
Fixpoint allocation_loop (budget : Q) (last_prices : Series) (pairs : list (string * Q))
         (allocation : list Holding) (remaining : Q) : outcome (list Holding * Q) :=
  match pairs with
  | [] => Ok (allocation, remaining)
  | tw :: rest =>
      h <- allocate_one budget last_prices tw ;;
      allocation_loop budget last_prices rest (allocation ++ [h]) (remaining - h_allocated h)
  end.

(** Lines 67-113: the pairs the loop runs over, when there is something to
    choose from. *)
Definition plan (risk_level : string) (n : nat) (ranked : list (string * Q))
  : outcome (list (string * Q)) :=
  cw <- choose_weights risk_level n ranked ;;
  weights <- normalize (snd cw) ;;
  Ok (combine (fst cw) weights).

Definition generate_portfolio (top_n : nat) (budget : Q) (risk_level : string)
           (prices_df : option DataFrame) (risk_report : RiskReport) : outcome Portfolio :=
  match prices_df with
  | None => Ok (error_portfolio budget "No price data available")
  | Some df =>
      if df_empty df then Ok (error_portfolio budget "No price data available")
      else
        ranked <- ranked_volatility df risk_report ;;
        let n := Nat.min top_n (length ranked) in
        if Nat.eqb n 0 then Ok (error_portfolio budget "No tickers available after filtering")
        else
          pairs <- plan risk_level n ranked ;;
          let last_prices := iloc_last df in
          res <- allocation_loop budget last_prices pairs [] budget ;;
          Ok {| p_budget := py_round budget 2;
                p_allocated := py_round (budget - snd res) 2;
                p_remaining := py_round (snd res) 2;
                p_holdings := fst res;
                p_error := None |}
  end.

End Agents.

(** ** A sort and a square root to run the agents with *)

Fixpoint insert_sorted (e : string * Q) (l : list (string * Q)) : list (string * Q) :=
  match l with
  | [] => [e]
  | x :: rest => if Qle_bool (snd x) (snd e) then x :: insert_sorted e rest else e :: l
  end.

(** Insertion sort on the values; equal values keep their order. *)
Definition stable_sort (l : list (string * Q)) : list (string * Q) :=
  fold_left (fun acc e => insert_sorted e acc) l [].

(** A square root to nine decimals. *)
Definition sqrt_approx (x : Q) : Q :=
  Qred (Z.sqrt (Qfloor (x * inject_Z (10 ^ 18))) # 1000000000).

(** ** Stages of [generate_portfolio] *)

(** The series the tickers are ranked from: the report's volatilities, or
    the ones recomputed from the prices. *)
Definition vol_series (sqrtQ : Q -> Q) (fill_pad : bool) (df : DataFrame)
           (risk_report : RiskReport) : Series :=
  match volatility risk_report with
  | Some (e :: d) => e :: d
  | _ => annualized_vol sqrtQ fill_pad df
  end.

(** The universe with its volatilities, before ranking. *)
Definition universe_vol (sqrtQ : Q -> Q) (fill_pad : bool) (df : DataFrame)
           (risk_report : RiskReport) : list (string * Q) :=
  let vol := vol_series sqrtQ fill_pad df risk_report in
  fillna0 (map (fun t => (t, match dict_get vol t with Some c => c | None => None end))
               (resolve_universe df vol)).

(** Line 65: the universe, ranked. *)
Definition ranking (sort_values : list (string * Q) -> list (string * Q)) (sqrtQ : Q -> Q)
           (fill_pad : bool) (df : DataFrame) (risk_report : RiskReport) : list (string * Q) :=
  sort_values (universe_vol sqrtQ fill_pad df risk_report).

(** Line 67. *)
Definition holdings_count (sqrtQ : Q -> Q) (fill_pad : bool) (top_n : nat) (df : DataFrame)
           (risk_report : RiskReport) : nat :=
  Nat.min top_n (length (resolve_universe df (vol_series sqrtQ fill_pad df risk_report))).

(** Lines 35-113 of [generate_portfolio] alone: the (ticker, weight) pairs
    the loop will run over, none on the early returns. *)
Definition planned_pairs (sort_values : list (string * Q) -> list (string * Q))
           (sqrtQ : Q -> Q) (fill_pad : bool) (top_n : nat) (risk_level : string)
           (prices_df : option DataFrame) (risk_report : RiskReport)
  : outcome (list (string * Q)) :=
  match prices_df with
  | None => Ok []
  | Some df =>
      if df_empty df then Ok []
      else
        ranked <- ranked_volatility sort_values sqrtQ fill_pad df risk_report ;;
        let n := Nat.min top_n (length ranked) in
        if Nat.eqb n 0 then Ok [] else plan risk_level n ranked
  end.

(** [last_prices.get(ticker, nan)]. *)
Definition price_at (last_prices : Series) (ticker : string) : cell :=
  match dict_get last_prices ticker with Some c => c | None => None end.

(** The last row of the table, when there is a table. *)
Definition last_prices_of (prices_df : option DataFrame) : Series :=
  match prices_df with Some df => iloc_last df | None => [] end.

(** The weights of the three policies, as lines 82-84, 91-93 and 106 build them. *)
Definition low_weights (n : nat) : list Q :=
  if Nat.eqb n 1 then [1] else (8 # 10) :: repeat ((2 # 10) / of_nat (n - 1)) (n - 1).

Definition substitute_epsilon (vols : list Q) : list Q :=
  map (fun v => if Qle_bool v 0 then epsilon else v) vols.

Definition proportional (vols : list Q) : list Q :=
  map (fun v => v / np_sum vols) vols.

Definition equal_weights (n : nat) : list Q :=
  map (fun x => x / of_nat n) (np_ones n).

(** The tickers of the moderate policy, lines 99-103. *)
Definition moderate_chosen (n : nat) (labels : list string) : list string :=
  slice_first (Nat.div n 2) labels ++ slice_last (n - Nat.div n 2) labels.

(** ** Vocabulary of the statements *)

(** A whole number of cents. *)
Definition is_cents (x : Q) : Prop := exists k : Z, x == inject_Z k / (100 # 1).

(** [r] is [x] rounded to [d] decimals, to either side when [x] lies half
    way between two of them. *)
Definition rounded_to (d : nat) (x r : Q) : Prop :=
  (exists k : Z, r == inject_Z k / inject_Z (pow10 d))
  /\ Qabs (r - x) <= (1 # 2) / inject_Z (pow10 d).

(** The sum of the holdings' allocated amounts. *)
Definition sum_allocated (hs : list Holding) : Q := np_sum (map h_allocated hs).

(** What the holdings cost at their prices, before any rounding. *)
Definition cost (h : Holding) : Q :=
  match h_price h with
  | Some pr => inject_Z (h_shares h) * pr
  | None => 0
  end.

(** What all the shares cost. *)
Definition total_cost (hs : list Holding) : Q := np_sum (map cost hs).

(** A missing or non-positive price. *)
Definition unpriceable (price : cell) : Prop :=
  price = None \/ exists pr, price = Some pr /\ pr <= 0.

(** A Python dict has one entry per key. *)
Definition dict_wf (risk_report : RiskReport) : Prop :=
  forall d, volatility risk_report = Some d -> NoDup (columns d).

(** [prices_df is None or prices_df.empty]. *)
Definition table_absent_or_empty (prices_df : option DataFrame) : Prop :=
  prices_df = None \/ exists df, prices_df = Some df /\ df_empty df = true.

(** Ascending volatility. *)
Definition by_vol (a b : string * Q) : Prop := snd a <= snd b.

(** What [sort_values(ascending=True)] promises. *)
Definition sorts (sort_values : list (string * Q) -> list (string * Q)) : Prop :=
  forall l, Permutation (sort_values l) l /\ StronglySorted by_vol (sort_values l).

(** Distinct volatilities across the tickers of a universe. *)
Definition distinct_vols (universe : list (string * Q)) : Prop :=
  forall e1 e2, In e1 universe -> In e2 universe -> snd e1 == snd e2 -> e1 = e2.

(** How many values lie below [x], and how many equal it. *)
Definition below (x : Q) (vals : list Q) : nat :=
  count_if (fun y => negb (Qle_bool x y)) vals.

Definition tied (x : Q) (vals : list Q) : nat :=
  count_if (fun y => Qeq_bool y x) vals.

(** What the agent needs of [np.sqrt]. *)
Definition sqrt_like (sqrtQ : Q -> Q) : Prop :=
  (forall x, 0 <= x -> 0 <= sqrtQ x) /\ (forall x, x == 0 -> sqrtQ x == 0).

(** A return that is missing or zero. *)
Definition flat (r : fl) : Prop :=
  match r with
  | NaN => True
  | Fin q => q == 0
  | _ => False
  end.

(** One for a price, none for a missing one. *)
Definition present_count (c : cell) : nat :=
  match c with Some _ => 1 | None => 0 end.

(** The drawdowns of a series of positive prices. *)
Definition drawdowns_of (series : list Q) : list Q :=
  map (fun sm => (fst sm - snd sm) / snd sm) (combine series (cummax series)).

(** A portfolio comes out of one of the three early returns, or out of the
    loop over the planned pairs. *)
Inductive built (sort_values : list (string * Q) -> list (string * Q)) (sqrtQ : Q -> Q)
          (fill_pad : bool) (top_n : nat) (budget : Q) (risk_level : string)
          (prices_df : option DataFrame) (risk_report : RiskReport) (p : Portfolio) : Prop :=
| built_error (msg : string) :
    p = error_portfolio budget msg ->
    (prices_df = None
     \/ (exists df, prices_df = Some df /\ df_empty df = true)
     \/ (exists df ranked, prices_df = Some df
                           /\ ranked_volatility sort_values sqrtQ fill_pad df risk_report = Ok ranked
                           /\ Nat.min top_n (length ranked) = 0%nat)) ->
    built sort_values sqrtQ fill_pad top_n budget risk_level prices_df risk_report p
| built_holdings (df : DataFrame) (ranked pairs : list (string * Q)) (remaining : Q) :
    prices_df = Some df ->
    df_empty df = false ->
    ranked_volatility sort_values sqrtQ fill_pad df risk_report = Ok ranked ->
    Nat.min top_n (length ranked) <> 0%nat ->
    plan risk_level (Nat.min top_n (length ranked)) ranked = Ok pairs ->
    Forall2 (fun tw h => allocate_one budget (iloc_last df) tw = Ok h) pairs (p_holdings p) ->
    remaining == budget - sum_allocated (p_holdings p) ->
    p_budget p = py_round budget 2 ->
    p_allocated p = py_round (budget - remaining) 2 ->
    p_remaining p = py_round remaining 2 ->
    p_error p = None ->
    built sort_values sqrtQ fill_pad top_n budget risk_level prices_df risk_report p.

(** ** Sample inputs *)

(** Three tickers over four dates, and the report of the risk agent on them. *)
Definition demo_prices : DataFrame :=
  [("AAPL"%string, [Some (10 # 1); Some (11 # 1); Some (12 # 1); Some (11 # 1)]);
   ("JNJ"%string, [Some (5 # 1); Some (5 # 1); Some (5 # 1); Some (5 # 1)]);
   ("TSLA"%string, [Some (1 # 1); Some (2 # 1); Some (1 # 1); Some (3 # 1)])].

Definition demo_report : RiskReport := assess_universe sqrt_approx true demo_prices.

(** The report the orchestrator substitutes when the risk agent fails. *)
Definition blank_report : RiskReport :=
  {| volatility := Some [];
     drawdown := [];
     risk_score := [];
     summary := {| avg_volatility := None; max_volatility := None; min_volatility := None |} |}.

(** A two-ticker table whose report holds the volatilities 0 and 0.5. *)
Definition two_prices : DataFrame :=
  [("JNJ"%string, [Some (50 # 1); Some (50 # 1)]);
   ("TSLA"%string, [Some (20 # 1); Some (30 # 1)])].

Definition two_report : RiskReport :=
  {| volatility := Some [("JNJ"%string, Some 0); ("TSLA"%string, Some (1 # 2))];
     drawdown := [];
     risk_score := [];
     summary := {| avg_volatility := None; max_volatility := None; min_volatility := None |} |}.

(** Four tickers with the volatilities 0.1, 0.4, 0.2 and 0.3. *)
Definition four_prices : DataFrame :=
  [("AAPL"%string, [Some (10 # 1); Some (11 # 1)]);
   ("TSLA"%string, [Some (20 # 1); Some (30 # 1)]);
   ("JNJ"%string, [Some (50 # 1); Some (50 # 1)]);
   ("XOM"%string, [Some (40 # 1); Some (41 # 1)])].

Definition four_report : RiskReport :=
  {| volatility := Some [("AAPL"%string, Some (1 # 10)); ("TSLA"%string, Some (4 # 10));
                         ("JNJ"%string, Some (2 # 10)); ("XOM"%string, Some (3 # 10))];
     drawdown := [];
     risk_score := [];
     summary := {| avg_volatility := None; max_volatility := None; min_volatility := None |} |}.

(** A table within the PriceTable invariants, with a price that turns
    negative and a ticker priced at zero throughout. *)
Definition odd_prices : DataFrame :=
  [("NEG"%string, [Some (1 # 1); Some (- (1 # 1))]);
   ("ZERO"%string, [Some 0; Some 0])].

(** A report about tickers that the price tables above do not hold. *)
Definition foreign_report : RiskReport :=
  {| volatility := Some [("IBM"%string, Some (3 # 10)); ("ORCL"%string, Some (1 # 10))];
     drawdown := [];
     risk_score := [];
     summary := {| avg_volatility := None; max_volatility := None; min_volatility := None |} |}.

(** ** The market data agent and the orchestrator *)

(** *** Python strings

    The methods of [str] that the orchestrator calls, on ASCII text: the
    white space of [strip] is the ASCII white space of [str.isspace], and
    [upper] moves the letters [a]-[z] only. *)

Definition isspace (c : ascii) : bool :=
  let n := nat_of_ascii c in
  (Nat.leb 9 n && Nat.leb n 13) || (Nat.leb 28 n && Nat.leb n 32).

Definition upper_char (c : ascii) : ascii :=
  let n := nat_of_ascii c in
  if Nat.leb 97 n && Nat.leb n 122 then ascii_of_nat (n - 32) else c.

(** [s.upper()]. *)
Fixpoint upper (s : string) : string :=
  match s with
  | EmptyString => EmptyString
  | String c rest => String (upper_char c) (upper rest)
  end.

Fixpoint lstrip (s : string) : string :=
  match s with
  | EmptyString => EmptyString
  | String c rest => if isspace c then lstrip rest else s
  end.

Fixpoint rstrip (s : string) : string :=
  match s with
  | EmptyString => EmptyString
  | String c rest =>
      match rstrip rest with
      | EmptyString => if isspace c then EmptyString else String c EmptyString
      | kept => String c kept
      end
  end.

(** [s.strip()]. *)
Definition strip (s : string) : string := rstrip (lstrip s).

(** A string that does not start with white space. *)
Definition starts_clean (s : string) : Prop :=
  match s with
  | EmptyString => True
  | String c _ => isspace c = false
  end.

(** [s.split(sep)] for a separator of one character: one piece more than
    there are separators, empty pieces included. *)
Fixpoint split (sep : ascii) (s : string) : list string :=
  match s with
  | EmptyString => [EmptyString]
  | String c rest =>
      if Ascii.eqb c sep then EmptyString :: split sep rest
      else match split sep rest with
           | piece :: pieces => String c piece :: pieces
           | [] => [String c EmptyString]
           end
  end.

(** The truth value of a string: it is not empty. *)
Definition truthy (s : string) : bool := negb (String.eqb s "").

Definition ascii_text (s : string) : Prop :=
  Forall (fun c => (nat_of_ascii c < 128)%nat) (list_ascii_of_string s).

(** *** market_data_agent.py *)

Definition default_universe : list string :=
  ["AAPL"; "MSFT"; "GOOGL"; "AMZN"; "TSLA"; "JNJ"; "V"; "PG"; "XOM"; "JPM"]%string.

(** [col.bfill()]: a missing value takes the next value present. *)
Fixpoint bfill (col : list cell) : list cell :=
  match col with
  | [] => []
  | c :: rest =>
      let filled := bfill rest in
      match c with
      | Some q => Some q :: filled
      | None => hd None filled :: filled
      end
  end.

(** [df.tail(n)] on one axis: the last [n] rows, or all but the first [-n]
    for a negative [n]. *)
Definition df_tail {A : Type} (n : Z) (l : list A) : list A :=
  if Z.leb 0 n then skipn (length l - Z.to_nat n) l else skipn (Z.to_nat (- n)) l.

(** Lines 115-116: the rows kept, on a table of [nrows] rows. *)
Definition recent {A : Type} (tail : option Z) (nrows : nat) (l : list A) : list A :=
  match tail with
  | Some n => if Z.ltb n (Z.of_nat nrows) then df_tail n l else l
  | None => l
  end.

(** How many rows [recent] keeps for a [tail] that is not negative. *)
Definition rows_kept (tail : option Z) (nrows : nat) : nat :=
  match tail with
  | Some n => Nat.min (Z.to_nat n) nrows
  | None => nrows
  end.

(** A value of the dict returned: prices, where [nan] stays possible, or
    dates. *)
Inductive json_list : Type :=
| Prices (l : list cell)
| Dates (l : list string).

Definition json_length (j : json_list) : nat :=
  match j with
  | Prices l => length l
  | Dates l => length l
  end.

(** [prices_to_json(df, tail)], where [index] is the date axis of the table
    as [strftime] prints it.  The result is a dict in insertion order, read
    with [dict_get]; [None] stands for the exception that [df2[col].round]
    raises when a label occurs twice among the columns. *)
Definition prices_to_json (index : list string) (df : DataFrame) (tail : option Z)
  : option (list (string * json_list)) :=
  let df2 := map (fun c => (fst c, bfill (ffill (snd c)))) df in
  let nrows := length index in
  let df2 := map (fun c => (fst c, recent tail nrows (snd c))) df2 in
  let index2 := recent tail nrows index in
  if nodupb (columns df2)
  then
    let out :=
      map (fun c => (fst c, Prices (map (option_map (fun q => py_round q 2)) (snd c)))) df2 in
    Some (out ++ [("dates"%string, Dates index2)])
  else None.

(** *** crew_orchestrator.py *)

(** The [universe] argument of the request: absent, a comma-separated
    string, or a list of tickers. *)
Inductive universe_arg : Type :=
| NoUniverse
| TickerString (s : string)
| TickerList (l : list string).

(** The requests on which the string methods above are the source's. *)
Definition ascii_universe (universe : universe_arg) : Prop :=
  match universe with
  | NoUniverse => True
  | TickerString s => ascii_text s
  | TickerList l => Forall ascii_text l
  end.

Definition _normalize_requested_universe (universe : universe_arg) : list string :=
  match universe with
  | NoUniverse => []
  | TickerString s =>
      if truthy s
      then
        let universe := map strip (filter (fun u => truthy (strip u)) (split "," s)) in
        map upper (filter truthy universe)
      else []
  | TickerList [] => []
  | TickerList l => map upper (filter truthy l)
  end.

(** [df[labels]]: for each label in turn, every column that carries it. *)
Definition select_columns (df : DataFrame) (labels : list string) : DataFrame :=
  flat_map (fun l => filter (fun c => String.eqb (fst c) l) df) labels.

(** Lines 71-79: the table restricted to the requested tickers, unless none
    of them is a column. *)
Definition restrict_to_requested (requested : list string) (df : DataFrame) : DataFrame :=
  match requested with
  | [] => df
  | _ :: _ =>
      match filter (fun c => mem (upper c) requested) (columns df) with
      | [] => df
      | available_cols => select_columns df available_cols
      end
  end.

(** What [run] returns; [None] is the empty dict [{}], and [r_error] the
    key present after a failed fetch only. *)
Record RunResult : Type := {
  r_portfolio : option Portfolio;
  r_risk_report : option RiskReport;
  r_explanation : string;
  r_prices : option (list (string * json_list));
  r_error : option string
}.

Section Orchestrator.

Variable sort_values : list (string * Q) -> list (string * Q).
Variable sqrtQ : Q -> Q.
Variable fill_pad : bool.

(** [MarketDataAgent.fetch_universe_prices] downloads from the network:
    at the [k]-th call of a run it gives the date axis and the table, or
    raises an exception with the message given. *)
Variable fetch_universe_prices :
  nat -> option (list string) -> (list string * DataFrame) + string.

(** [AIExplainerAgent.explain_portfolio], which may ask a language model;
    [None] when it raises. *)
Variable explain_portfolio : Portfolio -> string -> RiskReport -> option string.

(** Lines 54-68. *)
Definition fetch_prices (requested : list string) : (list string * DataFrame) + string :=
  match fetch_universe_prices 0 (match requested with [] => None | _ => Some requested end) with
  | inl fetched => inl fetched
  | inr _ => fetch_universe_prices 1 None
  end.

(** Line 93. *)
Definition unavailable_portfolio (budget : Q) : Portfolio :=
  {| p_budget := budget;
     p_allocated := 0;
     p_remaining := budget;
     p_holdings := [];
     p_error := None |}.

Definition run (budget : Q) (risk_level : string) (universe : universe_arg)
  : outcome RunResult :=
  let requested := _normalize_requested_universe universe in
  match fetch_prices requested with
  | inr e2 =>
      Ok {| r_portfolio := None;
            r_risk_report := None;
            r_explanation := "Failed to fetch market data: " ++ e2;
            r_prices := None;
            r_error := Some "market_fetch_failed"%string |}
  | inl (index, df) =>
      let df := restrict_to_requested requested df in
      risk_report <- try_except (Ok (assess_universe sqrtQ fill_pad df)) (Ok blank_report) ;;
      portfolio <- try_except
                     (generate_portfolio sort_values sqrtQ fill_pad 5 budget risk_level
                                         (Some df) risk_report)
                     (Ok (unavailable_portfolio budget)) ;;
      let explanation :=
        match explain_portfolio portfolio risk_level risk_report with
        | Some text => text
        | None => "AI explanation unavailable."%string
        end in
      Ok {| r_portfolio := Some portfolio;
            r_risk_report := Some risk_report;
            r_explanation := explanation;
            r_prices := prices_to_json index df (Some 90%Z);
            r_error := None |}
  end.

End Orchestrator.

(** The dates of [demo_prices]; a fetch that fails for a requested universe
    and delivers [demo_prices] for the default one; an explainer that
    raises. *)
Definition demo_dates : list string :=
  ["2024-01-01"; "2024-01-02"; "2024-01-03"; "2024-01-04"]%string.

Definition flaky_fetch (k : nat) (universe : option (list string))
  : (list string * DataFrame) + string :=
  match universe with
  | Some _ => inr "No data returned from yfinance. Check tickers and network."%string
  | None => inl (demo_dates, demo_prices)
  end.

Definition silent_explainer (portfolio : Portfolio) (risk_level : string)
           (risk_report : RiskReport) : option string := None.

(** A week of prices with gaps, and its dates. *)
Definition gappy_prices : DataFrame :=
  [("AAPL"%string, [None; Some (1001 # 10); None; Some (20525 # 1000); None]);
   ("MSFT"%string, [Some (50 # 1); Some (51 # 1); Some (52 # 1); Some (53 # 1); Some (54 # 1)])].

Definition gappy_dates : list string :=
  ["2024-01-01"; "2024-01-02"; "2024-01-03"; "2024-01-04"; "2024-01-05"]%string.

(** ** Rounding *)

Lemma round_half_even_comp (x y : Q) : x == y -> round_half_even x = round_half_even y.
Proof.
  intros E. unfold round_half_even.
  rewrite (Qfloor_comp _ _ E).
  assert (C : Qcompare (x - inject_Z (Qfloor y)) (1 # 2)
              = Qcompare (y - inject_Z (Qfloor y)) (1 # 2)).
  { apply Qcompare_comp; [rewrite E; reflexivity | reflexivity]. }
  rewrite C. reflexivity.
Qed.

Lemma round_half_even_Z (k : Z) : round_half_even (inject_Z k) = k.
Proof.
  unfold round_half_even. rewrite Qfloor_Z.
  assert (C : Qcompare (inject_Z k - inject_Z k) (1 # 2) = Lt).
  { apply Qlt_alt. setoid_replace (inject_Z k - inject_Z k) with 0 by ring. reflexivity. }
  rewrite C. reflexivity.
Qed.

Lemma round_half_even_err (x : Q) :
  - (1 # 2) <= inject_Z (round_half_even x) - x <= 1 # 2.
Proof.
  unfold round_half_even.
  pose proof (Qfloor_le x) as Hlo.
  pose proof (Qlt_floor x) as Hhi.
  rewrite inject_Z_plus in Hhi. change (inject_Z 1) with 1 in Hhi.
  destruct (Qcompare (x - inject_Z (Qfloor x)) (1 # 2)) eqn:C.
  - apply Qeq_alt in C.
    destruct (Z.even (Qfloor x));
      [| rewrite inject_Z_plus; change (inject_Z 1) with 1]; split; lra.
  - apply Qlt_alt in C. split; lra.
  - apply Qgt_alt in C. rewrite inject_Z_plus. change (inject_Z 1) with 1. split; lra.
Qed.

Lemma py_round_comp (x y : Q) (d : nat) : x == y -> py_round x d == py_round y d.
Proof.
  intros E. unfold py_round.
  rewrite (round_half_even_comp (x * inject_Z (pow10 d)) (y * inject_Z (pow10 d))).
  - reflexivity.
  - rewrite E. reflexivity.
Qed.

Lemma pow10_pos (d : nat) : 0 < inject_Z (pow10 d).
Proof.
  unfold pow10. change 0 with (inject_Z 0). rewrite <- Zlt_Qlt.
  apply Z.pow_pos_nonneg; lia.
Qed.

(** Rounding to [d] decimals moves a value by at most half a unit of the
    last place kept. *)
Lemma py_round_err (x : Q) (d : nat) :
  - (1 # 2) / inject_Z (pow10 d) <= py_round x d - x <= (1 # 2) / inject_Z (pow10 d).
Proof.
  unfold py_round.
  pose proof (pow10_pos d) as Hp.
  pose proof (round_half_even_err (x * inject_Z (pow10 d))) as [Hlo Hhi].
  set (r := inject_Z (round_half_even (x * inject_Z (pow10 d)))) in *.
  set (p := inject_Z (pow10 d)) in *.
  assert (Hne : ~ p == 0) by lra.
  assert (E1 : r / p - x == (r - x * p) / p) by (field; exact Hne).
  rewrite E1. split.
  - apply Qle_shift_div_l; [exact Hp |].
    assert (E2 : - (1 # 2) / p * p == - (1 # 2)) by (field; exact Hne).
    rewrite E2. exact Hlo.
  - apply Qle_shift_div_r; [exact Hp |].
    assert (E2 : (1 # 2) / p * p == 1 # 2) by (field; exact Hne).
    rewrite E2. exact Hhi.
Qed.

Lemma py_round_cents_err (x : Q) : - (1 # 200) <= py_round x 2 - x <= 1 # 200.
Proof.
  pose proof (py_round_err x 2) as H.
  change (inject_Z (pow10 2)) with (100 # 1) in H.
  assert (E : (1 # 2) / (100 # 1) == 1 # 200) by reflexivity.
  assert (E' : - (1 # 2) / (100 # 1) == - (1 # 200)) by reflexivity.
  rewrite E, E' in H. exact H.
Qed.

Lemma is_cents_comp (x y : Q) : x == y -> is_cents x -> is_cents y.
Proof. intros E [k Hk]. exists k. rewrite <- E. exact Hk. Qed.

Lemma is_cents_0 : is_cents 0.
Proof. exists 0%Z. reflexivity. Qed.

Lemma is_cents_plus (x y : Q) : is_cents x -> is_cents y -> is_cents (x + y).
Proof.
  intros [k Hk] [j Hj]. exists (k + j)%Z.
  rewrite inject_Z_plus, Hk, Hj. field.
Qed.

Lemma py_round_is_cents (x : Q) : is_cents (py_round x 2).
Proof. exists (round_half_even (x * inject_Z (pow10 2))). reflexivity. Qed.

Lemma py_round_of_cents (x : Q) : is_cents x -> py_round x 2 == x.
Proof.
  intros [k Hk]. unfold py_round.
  change (inject_Z (pow10 2)) with (100 # 1).
  rewrite (round_half_even_comp (x * (100 # 1)) (inject_Z k)).
  - rewrite round_half_even_Z. symmetry. exact Hk.
  - rewrite Hk. field.
Qed.

(** ** The allocation loop *)

Lemma np_sum_app (l1 l2 : list Q) : np_sum (l1 ++ l2) == np_sum l1 + np_sum l2.
Proof.
  induction l1 as [| x l1 IH]; simpl.
  - ring.
  - rewrite IH. ring.
Qed.

Lemma bind_Ok_inv {A B : Type} (m : outcome A) (k : A -> outcome B) (b : B) :
  bind m k = Ok b -> exists a, m = Ok a /\ k a = Ok b.
Proof.
  destruct m as [a | e |]; simpl; intros H; try discriminate.
  exists a. split; [reflexivity | exact H].
Qed.

Lemma allocate_one_cents (budget : Q) (last_prices : Series) (tw : string * Q) (h : Holding) :
  allocate_one budget last_prices tw = Ok h -> is_cents (h_allocated h).
Proof.
  unfold allocate_one. intros H.
  apply bind_Ok_inv in H. destruct H as [sa [Hsa Hh]].
  injection Hh as <-. simpl.
  destruct (match dict_get last_prices (fst tw) with Some c => c | None => None end) as [pr |].
  - destruct (Qle_bool pr 0).
    + injection Hsa as <-. apply is_cents_0.
    + apply bind_Ok_inv in Hsa. destruct Hsa as [shares [_ Hsa]].
      injection Hsa as <-. apply py_round_is_cents.
  - injection Hsa as <-. apply is_cents_0.
Qed.

Lemma allocation_loop_spec (budget : Q) (last_prices : Series) (pairs : list (string * Q)) :
  forall allocation remaining res,
    allocation_loop budget last_prices pairs allocation remaining = Ok res ->
    exists hs,
      fst res = allocation ++ hs
      /\ Forall2 (fun tw h => allocate_one budget last_prices tw = Ok h) pairs hs
      /\ snd res == remaining - sum_allocated hs.
Proof.
  induction pairs as [| tw rest IH]; simpl; intros allocation remaining res H.
  - injection H as <-. exists []. simpl. rewrite app_nil_r.
    split; [reflexivity | split; [constructor |]].
    unfold sum_allocated. simpl. ring.
  - apply bind_Ok_inv in H. destruct H as [h [Hh H]].
    apply IH in H. destruct H as [hs [Hfst [Hall Hrem]]].
    exists (h :: hs). split; [| split].
    + rewrite Hfst, <- app_assoc. reflexivity.
    + constructor; assumption.
    + rewrite Hrem. unfold sum_allocated. simpl. ring.
Qed.

Lemma sum_allocated_cents (budget : Q) (last_prices : Series) (pairs : list (string * Q))
      (hs : list Holding) :
  Forall2 (fun tw h => allocate_one budget last_prices tw = Ok h) pairs hs ->
  is_cents (sum_allocated hs).
Proof.
  induction 1 as [| tw h pairs hs Hh _ IH]; unfold sum_allocated; simpl.
  - apply is_cents_0.
  - apply is_cents_plus; [exact (allocate_one_cents _ _ _ _ Hh) | exact IH].
Qed.

(** ** The shape of a returned portfolio *)

Section Shape.

Variable sort_values : list (string * Q) -> list (string * Q).
Variable sqrtQ : Q -> Q.
Variable fill_pad : bool.

Lemma generate_portfolio_built (top_n : nat) (budget : Q) (risk_level : string)
      (prices_df : option DataFrame) (risk_report : RiskReport) (p : Portfolio) :
  generate_portfolio sort_values sqrtQ fill_pad top_n budget risk_level prices_df risk_report = Ok p ->
  built sort_values sqrtQ fill_pad top_n budget risk_level prices_df risk_report p.
Proof.
  unfold generate_portfolio. intros H.
  destruct prices_df as [df |].
  - destruct (df_empty df) eqn:Hempty.
    + injection H as <-. eapply built_error; [reflexivity |].
      right. left. exists df. split; [reflexivity | exact Hempty].
    + apply bind_Ok_inv in H. destruct H as [ranked [Hranked H]].
      destruct (Nat.eqb (Nat.min top_n (length ranked)) 0) eqn:Hn.
      * injection H as <-. eapply built_error; [reflexivity |].
        right. right. exists df, ranked.
        apply Nat.eqb_eq in Hn. auto.
      * apply Nat.eqb_neq in Hn.
        apply bind_Ok_inv in H. destruct H as [pairs [Hplan H]].
        apply bind_Ok_inv in H. destruct H as [res [Hloop H]].
        injection H as <-.
        apply allocation_loop_spec in Hloop.
        destruct Hloop as [hs [Hfst [Hall Hrem]]]. simpl in Hfst.
        eapply (built_holdings _ _ _ _ _ _ _ _ _ df ranked pairs (snd res)); simpl;
          try reflexivity; try assumption.
        -- rewrite Hfst. exact Hall.
        -- rewrite Hfst. exact Hrem.
  - injection H as <-. eapply built_error; [reflexivity |]. left. reflexivity.
Qed.

End Shape.

(** ** Budget accounting *)

(** C1.  For every portfolio [generate_portfolio] returns, whatever the
    budget, the risk level, the price table and the risk report: the
    [allocated] field is the sum of the holdings' allocated amounts, and
    [allocated + remaining] is the budget up to the rounding to cents, that
    is within half a cent of the budget passed in, within a cent of the
    (rounded) [budget] field, and equal to both when the budget is a whole
    number of cents. *)
Theorem allocated_plus_remaining_is_budget
        (sort_values : list (string * Q) -> list (string * Q)) (sqrtQ : Q -> Q)
        (fill_pad : bool) (top_n : nat) (budget : Q) (risk_level : string)
        (prices_df : option DataFrame) (risk_report : RiskReport) (p : Portfolio) :
  generate_portfolio sort_values sqrtQ fill_pad top_n budget risk_level prices_df risk_report
  = Ok p ->
  p_allocated p == sum_allocated (p_holdings p)
  /\ (- (1 # 200) <= p_allocated p + p_remaining p - budget <= 1 # 200)
  /\ (- (1 # 100) <= p_allocated p + p_remaining p - p_budget p <= 1 # 100)
  /\ (is_cents budget ->
      p_allocated p + p_remaining p == budget /\ p_budget p == budget).
Proof.
  intros H. apply generate_portfolio_built in H.
  pose proof (py_round_cents_err budget) as [Hb1 Hb2].
  destruct H as [msg -> _ | df ranked pairs remaining _ _ _ _ _ Hall Hrem Hb Ha Hr _].
  - simpl. unfold sum_allocated. simpl.
    split; [reflexivity |]. split; [split; lra |]. split; [split; lra |].
    intros Hc. rewrite (py_round_of_cents _ Hc). split; [ring | reflexivity].
  - pose proof (sum_allocated_cents _ _ _ _ Hall) as Hcents.
    assert (Halloc : p_allocated p == sum_allocated (p_holdings p)).
    { rewrite Ha.
      rewrite (py_round_comp (budget - remaining) (sum_allocated (p_holdings p)))
        by (rewrite Hrem; ring).
      apply py_round_of_cents. exact Hcents. }
    pose proof (py_round_cents_err remaining) as [Hr1 Hr2].
    rewrite <- Hr in Hr1, Hr2. rewrite <- Hb in Hb1, Hb2.
    split; [exact Halloc |].
    split; [split; lra |]. split; [split; lra |].
    intros Hc.
    assert (Hrc : is_cents remaining).
    { destruct Hc as [k Hk]. destruct Hcents as [j Hj].
      exists (k - j)%Z. rewrite Hrem, Hk, Hj.
      unfold Zminus. rewrite inject_Z_plus, inject_Z_opp. field. }
    split.
    + rewrite Hr, (py_round_of_cents _ Hrc). lra.
    + rewrite Hb. apply py_round_of_cents. exact Hc.
Qed.

Lemma allocated_plus_remaining_is_budget_witness :
  exists p,
    generate_portfolio stable_sort sqrt_approx true 5 (100 # 1) "low"
                       (Some demo_prices) demo_report = Ok p
    /\ p_allocated p == sum_allocated (p_holdings p)
    /\ (- (1 # 200) <= p_allocated p + p_remaining p - (100 # 1) <= 1 # 200)
    /\ (- (1 # 100) <= p_allocated p + p_remaining p - p_budget p <= 1 # 100)
    /\ (is_cents (100 # 1) ->
        p_allocated p + p_remaining p == 100 # 1 /\ p_budget p == 100 # 1).
Proof.
  eexists. split.
  - vm_compute. reflexivity.
  - apply (allocated_plus_remaining_is_budget stable_sort sqrt_approx true 5 (100 # 1) "low"
             (Some demo_prices) demo_report).
    vm_compute. reflexivity.
Defined.

(** ** Sums, divisions and slices *)

Lemma Qeq_bool_false (x y : Q) : ~ x == y -> Qeq_bool x y = false.
Proof.
  intros H. destruct (Qeq_bool x y) eqn:E; [| reflexivity].
  apply Qeq_bool_eq in E. contradiction.
Qed.

Lemma Qle_bool_false (x y : Q) : Qle_bool x y = false -> y < x.
Proof.
  intros H. apply Qnot_le_lt. intros Hle.
  apply Qle_bool_iff in Hle. congruence.
Qed.

Lemma of_nat_pos (n : nat) : (0 < n)%nat -> 0 < of_nat n.
Proof.
  intros H. unfold of_nat. change 0 with (inject_Z 0).
  rewrite <- Zlt_Qlt. lia.
Qed.

Lemma of_nat_S (n : nat) : of_nat (S n) == of_nat n + 1.
Proof.
  unfold of_nat. rewrite Nat2Z.inj_succ. unfold Z.succ.
  rewrite inject_Z_plus. reflexivity.
Qed.

Lemma np_sum_nonneg (l : list Q) : Forall (fun w => 0 < w) l -> 0 <= np_sum l.
Proof.
  induction 1 as [| x l Hx _ IH]; simpl; lra.
Qed.

Lemma np_sum_pos (l : list Q) : Forall (fun w => 0 < w) l -> l <> [] -> 0 < np_sum l.
Proof.
  intros H Hne. destruct H as [| x l Hx Hl]; [congruence |].
  simpl. pose proof (np_sum_nonneg l Hl). lra.
Qed.

Lemma np_sum_map_div (l : list Q) (d : Q) :
  np_sum (map (fun x => x / d) l) == np_sum l / d.
Proof.
  induction l as [| x l IH]; simpl.
  - unfold Qdiv. ring.
  - rewrite IH. unfold Qdiv. ring.
Qed.

Lemma np_sum_repeat (x : Q) (n : nat) : np_sum (repeat x n) == of_nat n * x.
Proof.
  induction n as [| n IH].
  - simpl. unfold of_nat. simpl. ring.
  - rewrite of_nat_S. simpl. rewrite IH. ring.
Qed.

Lemma np_div_Ok (l : list Q) (d : Q) :
  ~ d == 0 -> np_div l d = Ok (map (fun x => x / d) l).
Proof. intros H. unfold np_div. rewrite (Qeq_bool_false _ _ H). reflexivity. Qed.

Lemma Forall_map_div_pos (l : list Q) (d : Q) :
  0 < d -> Forall (fun w => 0 < w) l -> Forall (fun w => 0 < w) (map (fun x => x / d) l).
Proof.
  intros Hd H. induction H as [| x l Hx _ IH]; simpl; constructor; [| exact IH].
  apply Qlt_shift_div_l; [exact Hd | lra].
Qed.

Lemma nodupb_NoDup (l : list string) : nodupb l = true <-> NoDup l.
Proof.
  induction l as [| t l IH]; simpl.
  - split; [constructor | reflexivity].
  - rewrite andb_true_iff, negb_true_iff, IH. split.
    + intros [Hm Hn]. constructor; [| exact Hn].
      intros Hin. unfold mem in Hm.
      assert (E : existsb (String.eqb t) l = true).
      { apply existsb_exists. exists t. split; [exact Hin | apply String.eqb_refl]. }
      congruence.
    + intros Hn. inversion Hn as [| ? ? Hnotin Hn']; subst. split; [| exact Hn'].
      unfold mem. destruct (existsb (String.eqb t) l) eqn:E; [| reflexivity].
      apply existsb_exists in E. destruct E as [u [Hin Hu]].
      apply String.eqb_eq in Hu. subst u. contradiction.
Qed.

Lemma mem_In (t : string) (l : list string) : mem t l = true <-> In t l.
Proof.
  unfold mem. rewrite existsb_exists. split.
  - intros [u [Hin Hu]]. apply String.eqb_eq in Hu. subst. exact Hin.
  - intros Hin. exists t. split; [exact Hin | apply String.eqb_refl].
Qed.

Lemma slice_last_length {A : Type} (n : nat) (l : list A) :
  (1 <= n <= length l)%nat -> length (slice_last n l) = n.
Proof.
  intros [H1 H2]. unfold slice_last.
  destruct (Nat.eqb n 0) eqn:E; [apply Nat.eqb_eq in E; lia |].
  rewrite length_skipn. lia.
Qed.

Lemma slice_last_skipn {A : Type} (n : nat) (l : list A) :
  (1 <= n)%nat -> slice_last n l = skipn (length l - n) l.
Proof.
  intros H. unfold slice_last.
  destruct (Nat.eqb n 0) eqn:E; [apply Nat.eqb_eq in E; lia | reflexivity].
Qed.

Lemma slice_last_incl {A : Type} (n : nat) (l : list A) (x : A) :
  In x (slice_last n l) -> In x l.
Proof.
  unfold slice_last. destruct (Nat.eqb n 0); [auto |].
  intros H. rewrite <- (firstn_skipn (length l - n) l). apply in_or_app. right. exact H.
Qed.

Lemma slice_first_incl {A : Type} (n : nat) (l : list A) (x : A) :
  In x (slice_first n l) -> In x l.
Proof.
  unfold slice_first. intros H.
  rewrite <- (firstn_skipn n l). apply in_or_app. left. exact H.
Qed.

(** [loc] finds every label that is a label of the series. *)
Lemma loc_total (s : list (string * Q)) (labels : list string) :
  (forall t, In t labels -> In t (columns s)) ->
  exists vs, loc s labels = Ok vs
             /\ (labels <> [] -> vs <> [])
             /\ (forall v, In v vs -> In v (map snd s)).
Proof.
  induction labels as [| t rest IH]; intros Hin.
  - exists []. simpl. split; [reflexivity | split; [congruence | intros v []]].
  - destruct IH as [vs [Hvs [_ Hsub]]]; [intros u Hu; apply Hin; right; exact Hu |].
    simpl.
    assert (Ht : In t (columns s)) by (apply Hin; left; reflexivity).
    unfold columns in Ht. apply in_map_iff in Ht. destruct Ht as [e [He Hes]].
    assert (Hf : In e (filter (fun e0 => String.eqb (fst e0) t) s)).
    { apply filter_In. split; [exact Hes | rewrite He; apply String.eqb_refl]. }
    destruct (filter (fun e0 => String.eqb (fst e0) t) s) as [| hit hits] eqn:F; [destruct Hf |].
    rewrite Hvs. simpl. eexists. split; [reflexivity |]. split; [discriminate |].
    intros v [Hv | Hv].
    + subst v. apply in_map.
      assert (Hh : In hit (hit :: hits)) by (left; reflexivity).
      rewrite <- F in Hh. apply filter_In in Hh. tauto.
    + apply in_app_or in Hv. destruct Hv as [Hv | Hv]; [| auto].
      apply in_map_iff in Hv. destruct Hv as [e' [<- He']].
      apply in_map.
      assert (Hh : In e' (hit :: hits)) by (right; exact He').
      rewrite <- F in Hh. apply filter_In in Hh. tauto.
Qed.

(** ** The three weighting policies *)

Lemma choose_weights_low (n : nat) (ranked : list (string * Q)) :
  (1 <= n)%nat ->
  choose_weights "low" n ranked = Ok (slice_first n (columns ranked), low_weights n).
Proof.
  intros Hn. unfold choose_weights, low_weights. simpl.
  destruct (Nat.eqb n 1) eqn:E; [reflexivity |].
  apply Nat.eqb_neq in E.
  unfold py_div.
  assert (Hpos : 0 < of_nat (n - 1)) by (apply of_nat_pos; lia).
  rewrite Qeq_bool_false by lra. reflexivity.
Qed.

Lemma substitute_epsilon_pos (vols : list Q) : Forall (fun w => 0 < w) (substitute_epsilon vols).
Proof.
  unfold substitute_epsilon. induction vols as [| v vols IH]; simpl; constructor; [| exact IH].
  destruct (Qle_bool v 0) eqn:E.
  - reflexivity.
  - apply Qle_bool_false. exact E.
Qed.

Lemma proportional_sum (vols : list Q) : 0 < np_sum vols -> np_sum (proportional vols) == 1.
Proof.
  intros H. unfold proportional. rewrite np_sum_map_div. field. lra.
Qed.

Lemma choose_weights_high (n : nat) (ranked : list (string * Q)) :
  (1 <= n <= length ranked)%nat ->
  exists vols,
    loc ranked (slice_last n (columns ranked)) = Ok vols
    /\ vols <> []
    /\ choose_weights "high" n ranked
       = Ok (slice_last n (columns ranked), proportional (substitute_epsilon vols)).
Proof.
  intros Hn.
  destruct (loc_total ranked (slice_last n (columns ranked))) as [vols [Hloc [Hne _]]].
  { intros t. apply slice_last_incl. }
  assert (Hlen : length (slice_last n (columns ranked)) = n).
  { apply slice_last_length. unfold columns. rewrite length_map. exact Hn. }
  assert (Hvols : vols <> []).
  { apply Hne. intros E. rewrite E in Hlen. simpl in Hlen. lia. }
  exists vols. split; [exact Hloc |]. split; [exact Hvols |].
  unfold choose_weights. simpl. rewrite Hloc. simpl.
  fold (substitute_epsilon vols).
  assert (Hpos : 0 < np_sum (substitute_epsilon vols)).
  { apply np_sum_pos; [apply substitute_epsilon_pos |].
    unfold substitute_epsilon. destruct vols; [congruence | discriminate]. }
  rewrite np_div_Ok by lra. simpl.
  fold (proportional (substitute_epsilon vols)).
  rewrite Qeq_bool_false; [reflexivity |].
  rewrite (proportional_sum _ Hpos). discriminate.
Qed.

Lemma moderate_chosen_length (n : nat) (labels : list string) :
  (1 <= n <= length labels)%nat -> length (moderate_chosen n labels) = n.
Proof.
  intros Hn. unfold moderate_chosen, slice_first.
  assert (Hhalf : (Nat.div n 2 < n)%nat) by (apply Nat.div_lt; lia).
  rewrite length_app, length_firstn, slice_last_length by lia. lia.
Qed.

Lemma choose_weights_moderate (risk_level : string) (n : nat) (ranked : list (string * Q)) :
  risk_level <> "low"%string -> risk_level <> "high"%string ->
  (1 <= n <= length ranked)%nat ->
  choose_weights risk_level n ranked
  = Ok (moderate_chosen n (columns ranked), equal_weights n).
Proof.
  intros Hlow Hhigh Hn. unfold choose_weights.
  apply String.eqb_neq in Hlow. apply String.eqb_neq in Hhigh.
  rewrite Hlow, Hhigh.
  assert (Hhc : Nat.ltb 0 (n - Nat.div n 2) = true).
  { apply Nat.ltb_lt.
    assert (Nat.div n 2 < n)%nat by (apply Nat.div_lt; lia). lia. }
  rewrite Hhc. fold (moderate_chosen n (columns ranked)).
  assert (Hlen : length (moderate_chosen n (columns ranked)) = n).
  { apply moderate_chosen_length. unfold columns. rewrite length_map. exact Hn. }
  destruct (moderate_chosen n (columns ranked)) as [| c cs] eqn:E.
  - simpl in Hlen. lia.
  - rewrite Hlen.
    assert (Hpos : 0 < of_nat n) by (apply of_nat_pos; lia).
    rewrite np_div_Ok by lra. reflexivity.
Qed.

Lemma Forall_repeat_pos (x : Q) (n : nat) : 0 < x -> Forall (fun w => 0 < w) (repeat x n).
Proof. intros Hx. induction n; simpl; constructor; assumption. Qed.

Lemma low_weights_pos (n : nat) : (1 <= n)%nat -> Forall (fun w => 0 < w) (low_weights n).
Proof.
  intros Hn. unfold low_weights. destruct (Nat.eqb n 1) eqn:E.
  - constructor; [reflexivity | constructor].
  - apply Nat.eqb_neq in E. constructor; [reflexivity |].
    apply Forall_repeat_pos. apply Qlt_shift_div_l; [apply of_nat_pos; lia | reflexivity].
Qed.

Lemma low_weights_sum (n : nat) : (1 <= n)%nat -> np_sum (low_weights n) == 1.
Proof.
  intros Hn. unfold low_weights. destruct (Nat.eqb n 1) eqn:E.
  - reflexivity.
  - apply Nat.eqb_neq in E. simpl. rewrite np_sum_repeat.
    assert (Hpos : 0 < of_nat (n - 1)) by (apply of_nat_pos; lia).
    field. lra.
Qed.

Lemma low_weights_length (n : nat) : (1 <= n)%nat -> length (low_weights n) = n.
Proof.
  intros Hn. unfold low_weights. destruct (Nat.eqb n 1) eqn:E.
  - apply Nat.eqb_eq in E. subst. reflexivity.
  - simpl. rewrite repeat_length. lia.
Qed.

Lemma equal_weights_pos (n : nat) : (1 <= n)%nat -> Forall (fun w => 0 < w) (equal_weights n).
Proof.
  intros Hn. unfold equal_weights, np_ones.
  apply Forall_map_div_pos; [apply of_nat_pos; lia |].
  apply Forall_repeat_pos. reflexivity.
Qed.

Lemma equal_weights_sum (n : nat) : (1 <= n)%nat -> np_sum (equal_weights n) == 1.
Proof.
  intros Hn. unfold equal_weights, np_ones.
  rewrite np_sum_map_div, np_sum_repeat.
  assert (Hpos : 0 < of_nat n) by (apply of_nat_pos; lia).
  field. lra.
Qed.

Lemma equal_weights_length (n : nat) : length (equal_weights n) = n.
Proof. unfold equal_weights, np_ones. rewrite length_map, repeat_length. reflexivity. Qed.

Lemma proportional_pos (vols : list Q) :
  Forall (fun w => 0 < w) vols -> vols <> [] -> Forall (fun w => 0 < w) (proportional vols).
Proof.
  intros H Hne. unfold proportional.
  apply Forall_map_div_pos; [apply np_sum_pos; assumption | exact H].
Qed.

(** Whatever the risk level, the weights handed to the normalisation are
    positive and sum to one. *)
Lemma choose_weights_sound (risk_level : string) (n : nat) (ranked : list (string * Q)) :
  (1 <= n <= length ranked)%nat ->
  exists chosen weights,
    choose_weights risk_level n ranked = Ok (chosen, weights)
    /\ Forall (fun w => 0 < w) weights
    /\ weights <> []
    /\ np_sum weights == 1
    /\ length chosen = n.
Proof.
  intros Hn.
  assert (Hcols : length (columns ranked) = length ranked)
    by (unfold columns; apply length_map).
  destruct (string_dec risk_level "low") as [-> | Hlow];
    [| destruct (string_dec risk_level "high") as [-> | Hhigh]].
  - exists (slice_first n (columns ranked)), (low_weights n).
    split; [apply choose_weights_low; lia |].
    split; [apply low_weights_pos; lia |].
    split.
    { intros E. pose proof (low_weights_length n) as L. rewrite E in L. simpl in L. lia. }
    split; [apply low_weights_sum; lia |].
    unfold slice_first. rewrite length_firstn. lia.
  - destruct (choose_weights_high n ranked Hn) as [vols [_ [Hne Hc]]].
    exists (slice_last n (columns ranked)), (proportional (substitute_epsilon vols)).
    assert (Hne' : substitute_epsilon vols <> []).
    { unfold substitute_epsilon. destruct vols; [congruence | discriminate]. }
    split; [exact Hc |].
    split; [apply proportional_pos; [apply substitute_epsilon_pos | exact Hne'] |].
    split.
    { unfold proportional. destruct (substitute_epsilon vols); [congruence | discriminate]. }
    split.
    { apply proportional_sum. apply np_sum_pos; [apply substitute_epsilon_pos | exact Hne']. }
    apply slice_last_length. lia.
  - exists (moderate_chosen n (columns ranked)), (equal_weights n).
    split; [apply choose_weights_moderate; assumption |].
    split; [apply equal_weights_pos; lia |].
    split.
    { intros E. pose proof (equal_weights_length n) as L. rewrite E in L. simpl in L. lia. }
    split; [apply equal_weights_sum; lia |].
    apply moderate_chosen_length. lia.
Qed.

Lemma normalize_Ok (weights : list Q) :
  0 < np_sum weights ->
  normalize weights = Ok (map (fun w => w / np_sum weights) weights).
Proof.
  intros H. unfold normalize.
  rewrite Qeq_bool_false by lra. apply np_div_Ok. lra.
Qed.

Lemma plan_sound (risk_level : string) (n : nat) (ranked : list (string * Q)) :
  (1 <= n <= length ranked)%nat ->
  exists chosen weights,
    choose_weights risk_level n ranked = Ok (chosen, weights)
    /\ Forall (fun w => 0 < w) weights
    /\ np_sum weights == 1
    /\ length chosen = n
    /\ plan risk_level n ranked
       = Ok (combine chosen (map (fun w => w / np_sum weights) weights)).
Proof.
  intros Hn.
  destruct (choose_weights_sound risk_level n ranked Hn)
    as [chosen [weights [Hc [Hpos [Hne [Hsum Hlen]]]]]].
  exists chosen, weights. repeat (split; [assumption |]).
  unfold plan. rewrite Hc. simpl.
  rewrite normalize_Ok by lra. reflexivity.
Qed.

Lemma allocate_one_total (budget : Q) (last_prices : Series) (tw : string * Q) :
  exists h, allocate_one budget last_prices tw = Ok h.
Proof.
  unfold allocate_one.
  destruct (match dict_get last_prices (fst tw) with Some c => c | None => None end) as [pr |].
  - destruct (Qle_bool pr 0) eqn:E.
    + simpl. eexists. reflexivity.
    + apply Qle_bool_false in E. unfold py_floordiv.
      rewrite Qeq_bool_false by lra. simpl. eexists. reflexivity.
  - simpl. eexists. reflexivity.
Qed.

Lemma allocation_loop_total (budget : Q) (last_prices : Series) (pairs : list (string * Q)) :
  forall allocation remaining,
  exists res, allocation_loop budget last_prices pairs allocation remaining = Ok res.
Proof.
  induction pairs as [| tw rest IH]; intros allocation remaining; simpl.
  - eexists. reflexivity.
  - destruct (allocate_one_total budget last_prices tw) as [h Hh].
    rewrite Hh. simpl. apply IH.
Qed.

(** ** No exception crosses the boundary *)

Lemma dict_get_absent {V : Type} (d : list (string * V)) (k : string) :
  ~ In k (columns d) -> dict_get d k = None.
Proof.
  induction d as [| [k' v] d IH]; intros H; [reflexivity |].
  simpl in *. rewrite IH by tauto.
  destruct (String.eqb k k') eqn:E; [| reflexivity].
  apply String.eqb_eq in E. subst. tauto.
Qed.

Lemma dict_get_present {V : Type} (d : list (string * V)) (k : string) :
  In k (columns d) -> exists v, dict_get d k = Some v.
Proof.
  induction d as [| [k' v'] d IH]; simpl; intros H; [destruct H |].
  destruct (dict_get d k) as [v |] eqn:E; [exists v; reflexivity |].
  destruct H as [-> | H]; [rewrite String.eqb_refl; exists v'; reflexivity |].
  destruct (IH H) as [v Hv]. discriminate.
Qed.

Lemma reindex_own (s : Series) :
  NoDup (columns s) ->
  map (fun t => (t, match dict_get s t with Some c => c | None => None end)) (columns s) = s.
Proof.
  induction s as [| [k v] s IH]; intros Hn; [reflexivity |].
  simpl in Hn. inversion Hn as [| ? ? Hk Hn']; subst.
  cbn [columns map fst]. f_equal.
  - cbn [dict_get]. rewrite (dict_get_absent s k Hk), String.eqb_refl. reflexivity.
  - rewrite <- (IH Hn') at 2. apply map_ext_in. intros t Ht.
    cbn [dict_get]. destruct (dict_get_present s t Ht) as [c ->]. reflexivity.
Qed.

Lemma reindex_unique (s : Series) (labels : list string) :
  NoDup (columns s) ->
  reindex s labels
  = Ok (map (fun t => (t, match dict_get s t with Some c => c | None => None end)) labels).
Proof.
  intros Hn. unfold reindex.
  destruct (list_eq_dec string_dec (columns s) labels) as [<- | _].
  - rewrite (reindex_own s Hn). reflexivity.
  - apply nodupb_NoDup in Hn. rewrite Hn. reflexivity.
Qed.

Section Totality.

Variable sort_values : list (string * Q) -> list (string * Q).
Variable sqrtQ : Q -> Q.
Variable fill_pad : bool.

Lemma columns_annualized_vol (df : DataFrame) :
  columns (annualized_vol sqrtQ fill_pad df) = columns df.
Proof.
  unfold annualized_vol, dropna, pct_change, columns.
  rewrite !map_map. apply map_ext. intros c. reflexivity.
Qed.

Lemma volatility_source_Ok (df : DataFrame) (risk_report : RiskReport) :
  volatility_source sqrtQ fill_pad df risk_report = Ok (vol_series sqrtQ fill_pad df risk_report).
Proof.
  unfold volatility_source, vol_series.
  destruct (volatility risk_report) as [[| e d] |]; reflexivity.
Qed.

Lemma vol_series_NoDup (df : DataFrame) (risk_report : RiskReport) :
  dict_wf risk_report -> NoDup (columns df) ->
  NoDup (columns (vol_series sqrtQ fill_pad df risk_report)).
Proof.
  intros Hd Hdf. unfold vol_series.
  destruct (volatility risk_report) as [[| e d] |] eqn:E;
    try (rewrite columns_annualized_vol; exact Hdf).
  apply Hd. exact E.
Qed.

Lemma ranked_volatility_Ok (df : DataFrame) (risk_report : RiskReport) :
  dict_wf risk_report -> NoDup (columns df) ->
  ranked_volatility sort_values sqrtQ fill_pad df risk_report
  = Ok (sort_values (universe_vol sqrtQ fill_pad df risk_report)).
Proof.
  intros Hd Hdf. unfold ranked_volatility.
  rewrite volatility_source_Ok. cbn [bind].
  rewrite (reindex_unique _ _ (vol_series_NoDup df risk_report Hd Hdf)).
  reflexivity.
Qed.

Lemma generate_portfolio_total (top_n : nat) (budget : Q) (risk_level : string)
      (prices_df : option DataFrame) (risk_report : RiskReport) :
  dict_wf risk_report ->
  (forall df, prices_df = Some df -> PriceTable df) ->
  exists p,
    generate_portfolio sort_values sqrtQ fill_pad top_n budget risk_level prices_df risk_report
    = Ok p.
Proof.
  intros Hd Hpt. unfold generate_portfolio.
  destruct prices_df as [df |]; [| eexists; reflexivity].
  destruct (df_empty df); [eexists; reflexivity |].
  destruct (Hpt df eq_refl) as [Hnodup _].
  rewrite (ranked_volatility_Ok df risk_report Hd Hnodup). simpl.
  set (ranked := sort_values (universe_vol sqrtQ fill_pad df risk_report)).
  destruct (Nat.eqb (Nat.min top_n (length ranked)) 0) eqn:Hn; [eexists; reflexivity |].
  apply Nat.eqb_neq in Hn.
  destruct (plan_sound risk_level (Nat.min top_n (length ranked)) ranked)
    as [chosen [weights [_ [_ [_ [_ Hplan]]]]]]; [lia |].
  rewrite Hplan. simpl.
  destruct (allocation_loop_total budget (iloc_last df)
              (combine chosen (map (fun w => w / np_sum weights) weights)) [] budget)
    as [res Hres].
  rewrite Hres. simpl. eexists. reflexivity.
Qed.

End Totality.


Lemma demo_prices_PriceTable : PriceTable demo_prices.
Proof.
  split.
  - apply nodupb_NoDup. reflexivity.
  - intros c1 c2 H1 H2. simpl in H1, H2.
    destruct H1 as [<- | [<- | [<- | []]]]; destruct H2 as [<- | [<- | [<- | []]]]; reflexivity.
Qed.

Lemma demo_report_wf : dict_wf demo_report.
Proof.
  intros d E. vm_compute in E. injection E as <-.
  apply nodupb_NoDup. reflexivity.
Qed.



(** ** Weights never sum to zero *)



(** ** Shares under the budget *)

Lemma allocate_one_spec (budget : Q) (last_prices : Series) (tw : string * Q) (h : Holding) :
  allocate_one budget last_prices tw = Ok h ->
  h_ticker h = fst tw
  /\ h_weight h = py_round (snd tw) 6
  /\ h_price h = price_at last_prices (fst tw)
  /\ (forall pr, h_price h = Some pr -> 0 < pr ->
      h_shares h = Qfloor (budget * snd tw / pr)
      /\ h_allocated h = py_round (inject_Z (h_shares h) * pr) 2)
  /\ (unpriceable (h_price h) -> h_shares h = 0%Z /\ h_allocated h = 0).
Proof.
  unfold allocate_one. fold (price_at last_prices (fst tw)). intros H.
  apply bind_Ok_inv in H. destruct H as [sa [Hsa Hh]].
  injection Hh as <-. simpl.
  split; [reflexivity |]. split; [reflexivity |]. split; [reflexivity |].
  destruct (price_at last_prices (fst tw)) as [pr |].
  - destruct (Qle_bool pr 0) eqn:E.
    + injection Hsa as <-. simpl. apply Qle_bool_iff in E. split.
      * intros pr' Hpr' Hpos. injection Hpr' as <-. lra.
      * intros _. split; reflexivity.
    + apply Qle_bool_false in E.
      apply bind_Ok_inv in Hsa. destruct Hsa as [shares [Hshares Hsa]].
      injection Hsa as <-. simpl.
      unfold py_floordiv in Hshares. rewrite Qeq_bool_false in Hshares by lra.
      injection Hshares as <-. split.
      * intros pr' Hpr' _. injection Hpr' as <-. split; reflexivity.
      * intros [Hnone | [pr' [Hpr' Hle]]]; [discriminate |].
        injection Hpr' as <-. lra.
  - injection Hsa as <-. simpl. split.
    + intros pr' Hpr'. discriminate.
    + intros _. split; reflexivity.
Qed.

Lemma Qfloor_nonneg (x : Q) : 0 <= x -> (0 <= Qfloor x)%Z.
Proof.
  intros H. change 0%Z with (Qfloor 0). apply Qfloor_resp_le. exact H.
Qed.

Lemma Qfloor_times_le (a pr : Q) : 0 < pr -> inject_Z (Qfloor (a / pr)) * pr <= a.
Proof.
  intros Hpr. pose proof (Qfloor_le (a / pr)) as H.
  apply (Qmult_le_compat_r _ _ pr) in H; [| lra].
  assert (E : a / pr * pr == a) by (field; lra).
  rewrite E in H. exact H.
Qed.

Lemma cost_under_weight (budget : Q) (last_prices : Series) (tw : string * Q) (h : Holding) :
  0 <= budget -> 0 < snd tw ->
  allocate_one budget last_prices tw = Ok h ->
  cost h <= budget * snd tw.
Proof.
  intros Hb Hw H. apply allocate_one_spec in H.
  destruct H as [_ [_ [_ [Hpos Hun]]]].
  assert (Hbw : 0 <= budget * snd tw) by (apply Qmult_le_0_compat; lra).
  unfold cost. destruct (h_price h) as [pr |] eqn:Hp; [| exact Hbw].
  destruct (Qlt_le_dec 0 pr) as [Hlt | Hle].
  - destruct (Hpos pr eq_refl Hlt) as [-> _]. apply Qfloor_times_le. exact Hlt.
  - destruct Hun as [-> _]; [right; exists pr; split; [reflexivity | exact Hle] |].
    change (inject_Z 0) with 0. lra.
Qed.

Lemma total_cost_under_weights (budget : Q) (last_prices : Series)
      (pairs : list (string * Q)) (hs : list Holding) :
  0 <= budget ->
  Forall (fun tw => 0 < snd tw) pairs ->
  Forall2 (fun tw h => allocate_one budget last_prices tw = Ok h) pairs hs ->
  total_cost hs <= budget * np_sum (map snd pairs).
Proof.
  intros Hb Hpos H. induction H as [| tw h pairs hs Hh _ IH]; unfold total_cost; simpl.
  - lra.
  - inversion Hpos as [| ? ? Hw Hpos']; subst.
    pose proof (cost_under_weight budget last_prices tw h Hb Hw Hh) as Hc.
    specialize (IH Hpos'). unfold total_cost in IH.
    setoid_replace (budget * (snd tw + np_sum (map snd pairs)))
      with (budget * snd tw + budget * np_sum (map snd pairs)) by ring.
    lra.
Qed.

Lemma np_sum_combine_le (chosen : list string) (ws : list Q) :
  Forall (fun w => 0 < w) ws ->
  np_sum (map snd (combine chosen ws)) <= np_sum ws.
Proof.
  intros H. revert chosen. induction H as [| w ws Hw Hws IH]; intros chosen.
  - destruct chosen; simpl; lra.
  - destruct chosen as [| c chosen]; simpl.
    + pose proof (np_sum_nonneg ws Hws). lra.
    + specialize (IH chosen). lra.
Qed.

Lemma Forall_combine_snd {A : Type} (P : Q -> Prop) (chosen : list A) (ws : list Q) :
  Forall P ws -> Forall (fun tw => P (snd tw)) (combine chosen ws).
Proof.
  intros H. revert chosen. induction H as [| w ws Hw _ IH]; intros chosen.
  - destruct chosen; constructor.
  - destruct chosen as [| c chosen]; simpl; constructor; [exact Hw | apply IH].
Qed.

(** The pairs of a plan: positive weights that sum to at most one. *)
Lemma plan_weights (risk_level : string) (n : nat) (ranked pairs : list (string * Q)) :
  (1 <= n <= length ranked)%nat ->
  plan risk_level n ranked = Ok pairs ->
  Forall (fun tw => 0 < snd tw) pairs /\ np_sum (map snd pairs) <= 1.
Proof.
  intros Hn Hplan.
  destruct (plan_sound risk_level n ranked Hn)
    as [chosen [weights [_ [Hpos [Hsum [_ Hplan']]]]]].
  rewrite Hplan in Hplan'. injection Hplan' as ->.
  assert (Hs : 0 < np_sum weights) by (rewrite Hsum; reflexivity).
  pose proof (Forall_map_div_pos weights (np_sum weights) Hs Hpos) as Hpos'.
  split.
  - apply Forall_combine_snd. exact Hpos'.
  - eapply Qle_trans; [apply np_sum_combine_le; exact Hpos' |].
    rewrite np_sum_map_div. apply Qle_shift_div_r; lra.
Qed.

Lemma generate_portfolio_planned
      (sort_values : list (string * Q) -> list (string * Q)) (sqrtQ : Q -> Q)
      (fill_pad : bool) (top_n : nat) (budget : Q) (risk_level : string)
      (prices_df : option DataFrame) (risk_report : RiskReport) (p : Portfolio) :
  generate_portfolio sort_values sqrtQ fill_pad top_n budget risk_level prices_df risk_report
  = Ok p ->
  exists pairs,
    planned_pairs sort_values sqrtQ fill_pad top_n risk_level prices_df risk_report = Ok pairs
    /\ Forall (fun tw => 0 < snd tw) pairs
    /\ np_sum (map snd pairs) <= 1
    /\ Forall2 (fun tw h => allocate_one budget (last_prices_of prices_df) tw = Ok h)
               pairs (p_holdings p).
Proof.
  intros H. apply generate_portfolio_built in H.
  destruct H as [msg -> Hwhy | df ranked pairs remaining -> Hne Hranked Hn Hplan Hall _ _ _ _ _].
  - exists []. unfold planned_pairs. simpl.
    split; [| split; [constructor | split; [lra | constructor]]].
    destruct Hwhy as [-> | [[df [-> Hdf]] | [df [ranked [-> [Hr Hn]]]]]].
    + reflexivity.
    + rewrite Hdf. reflexivity.
    + destruct (df_empty df); [reflexivity |].
      rewrite Hr. simpl. rewrite Hn. reflexivity.
  - exists pairs.
    assert (Hn' : (1 <= Nat.min top_n (length ranked) <= length ranked)%nat) by lia.
    destruct (plan_weights _ _ _ _ Hn' Hplan) as [Hpos Hsum].
    split; [| split; [exact Hpos | split; [exact Hsum | exact Hall]]].
    unfold planned_pairs. rewrite Hne, Hranked. simpl.
    apply Nat.eqb_neq in Hn. rewrite Hn. exact Hplan.
Qed.

(** C2, as the code has it.  For every portfolio returned for a budget
    [>= 0], every holding comes from one planned pair (ticker, weight [w])
    with [w > 0], carries the ticker's last price, and reports as its weight
    [w] rounded to six decimals.  If that price is positive,
    [shares = floor(budget * w / price)], a non-negative integer with
    [shares * price <= budget * w]; if the price is missing or not
    positive, [shares = 0] and [allocated = 0].  The shares of the whole
    portfolio cost no more than the budget. *)
Theorem shares_never_overspend
        (sort_values : list (string * Q) -> list (string * Q)) (sqrtQ : Q -> Q)
        (fill_pad : bool) (top_n : nat) (budget : Q) (risk_level : string)
        (prices_df : option DataFrame) (risk_report : RiskReport) (p : Portfolio) :
  generate_portfolio sort_values sqrtQ fill_pad top_n budget risk_level prices_df risk_report
  = Ok p ->
  0 <= budget ->
  (exists pairs,
      planned_pairs sort_values sqrtQ fill_pad top_n risk_level prices_df risk_report = Ok pairs
      /\ Forall2 (fun tw h =>
                    let w := snd tw in
                    h_ticker h = fst tw
                    /\ 0 < w
                    /\ h_weight h = py_round w 6
                    /\ h_price h = price_at (last_prices_of prices_df) (fst tw)
                    /\ (forall price, h_price h = Some price -> 0 < price ->
                        h_shares h = Qfloor (budget * w / price)
                        /\ inject_Z (h_shares h) * price <= budget * w
                        /\ (0 <= h_shares h)%Z)
                    /\ (unpriceable (h_price h) -> h_shares h = 0%Z /\ h_allocated h == 0))
                 pairs (p_holdings p))
  /\ total_cost (p_holdings p) <= budget.
Proof.
  intros H Hb.
  destruct (generate_portfolio_planned _ _ _ _ _ _ _ _ _ H) as [pairs [Hplan [Hpos [Hsum Hall]]]].
  split.
  - exists pairs. split; [exact Hplan |].
    clear Hplan Hsum H.
    induction Hall as [| tw h pairs hs Hh _ IH]; [constructor |].
    inversion Hpos as [| ? ? Hw Hpos']; subst.
    constructor; [| exact (IH Hpos')].
    apply allocate_one_spec in Hh.
    destruct Hh as [Ht [Hwt [Hp [Hpriced Hun]]]]. cbv zeta.
    split; [exact Ht |]. split; [exact Hw |]. split; [exact Hwt |]. split; [exact Hp |].
    split.
    + intros price Hprice Hlt.
      destruct (Hpriced price Hprice Hlt) as [Hs _].
      split; [exact Hs |]. rewrite Hs. split.
      * apply Qfloor_times_le. exact Hlt.
      * apply Qfloor_nonneg. apply Qle_shift_div_l; [exact Hlt |].
        setoid_replace (0 * price) with 0 by ring.
        apply Qmult_le_0_compat; lra.
    + intros Hu. destruct (Hun Hu) as [-> ->]. split; reflexivity.
  - eapply Qle_trans; [exact (total_cost_under_weights _ _ _ _ Hb Hpos Hall) |].
    assert (Hm : budget * np_sum (map snd pairs) <= budget * 1).
    { rewrite (Qmult_comm budget (np_sum (map snd pairs))), (Qmult_comm budget 1).
      apply Qmult_le_compat_r; assumption. }
    lra.
Qed.

Lemma shares_never_overspend_witness :
  exists p,
    generate_portfolio stable_sort sqrt_approx true 5 (100 # 1) "low"
                       (Some demo_prices) demo_report = Ok p
    /\ 0 <= 100 # 1
    /\ (exists pairs,
           planned_pairs stable_sort sqrt_approx true 5 "low" (Some demo_prices) demo_report
           = Ok pairs
           /\ Forall2 (fun tw h =>
                         let w := snd tw in
                         h_ticker h = fst tw
                         /\ 0 < w
                         /\ h_weight h = py_round w 6
                         /\ h_price h = price_at (last_prices_of (Some demo_prices)) (fst tw)
                         /\ (forall price, h_price h = Some price -> 0 < price ->
                             h_shares h = Qfloor ((100 # 1) * w / price)
                             /\ inject_Z (h_shares h) * price <= (100 # 1) * w
                             /\ (0 <= h_shares h)%Z)
                         /\ (unpriceable (h_price h) -> h_shares h = 0%Z /\ h_allocated h == 0))
                      pairs (p_holdings p))
    /\ total_cost (p_holdings p) <= 100 # 1.
Proof.
  eexists. split; [vm_compute; reflexivity |].
  split; [apply Qle_bool_iff; reflexivity |].
  apply (shares_never_overspend stable_sort sqrt_approx true 5 (100 # 1) "low"
           (Some demo_prices) demo_report).
  - vm_compute. reflexivity.
  - apply Qle_bool_iff. reflexivity.
Defined.

(** C2, as the claim words it, fails when the weight is read off the
    holding: three tickers at one dollar and a budget of three million give
    a million shares each, one more than the reported weight 0.333333 buys. *)
Lemma reported_weight_breaks_floor :
  exists p h price,
    generate_portfolio stable_sort sqrt_approx true 5 (3000000 # 1) "moderate"
      (Some [("A"%string, [Some 1]); ("B"%string, [Some 1]); ("C"%string, [Some 1])])
      blank_report = Ok p
    /\ In h (p_holdings p)
    /\ h_price h = Some price /\ 0 < price
    /\ h_shares h <> Qfloor ((3000000 # 1) * h_weight h / price)
    /\ ~ inject_Z (h_shares h) * price <= (3000000 # 1) * h_weight h.
Proof.
  eexists. eexists. exists 1. split; [vm_compute; reflexivity |].
  split; [left; reflexivity |]. split; [reflexivity |]. split; [reflexivity |].
  split; [vm_compute; discriminate |].
  intros H. vm_compute in H. apply H. reflexivity.
Qed.

(** The allocated amounts are costs rounded to cents, so their sum can pass
    the budget where the costs do not: 100.01 dollars and three tickers at
    33.336 give one share each, 100.008 dollars of shares, reported as
    100.02 allocated and -0.01 remaining. *)
Remark allocated_can_exceed_budget :
  exists p,
    generate_portfolio stable_sort sqrt_approx true 5 (10001 # 100) "moderate"
      (Some [("A"%string, [Some (33336 # 1000)]); ("B"%string, [Some (33336 # 1000)]);
             ("C"%string, [Some (33336 # 1000)])])
      blank_report = Ok p
    /\ total_cost (p_holdings p) == 100008 # 1000
    /\ p_allocated p == 10002 # 100
    /\ p_remaining p == - (1 # 100).
Proof.
  eexists. split; [vm_compute; reflexivity |].
  split; [vm_compute; reflexivity |]. split; vm_compute; reflexivity.
Qed.

(** ** Ranking *)

Lemma insert_sorted_perm (e : string * Q) (l : list (string * Q)) :
  Permutation (insert_sorted e l) (e :: l).
Proof.
  induction l as [| x l IH]; simpl.
  - apply Permutation_refl.
  - destruct (Qle_bool (snd x) (snd e)).
    + eapply Permutation_trans; [apply perm_skip; exact IH | apply perm_swap].
    + apply Permutation_refl.
Qed.

Lemma insert_sorted_sorted (e : string * Q) (l : list (string * Q)) :
  StronglySorted by_vol l -> StronglySorted by_vol (insert_sorted e l).
Proof.
  induction 1 as [| x l Hl IH Hx]; simpl.
  - constructor; constructor.
  - destruct (Qle_bool (snd x) (snd e)) eqn:E.
    + constructor; [exact IH |].
      apply Qle_bool_iff in E.
      eapply Permutation_Forall; [apply Permutation_sym, insert_sorted_perm |].
      constructor; [exact E | exact Hx].
    + apply Qle_bool_false in E.
      constructor; [constructor; assumption |].
      constructor; [unfold by_vol; lra |].
      eapply Forall_impl; [| exact Hx].
      intros a Ha. unfold by_vol in *. lra.
Qed.

Lemma stable_sort_sorts : sorts stable_sort.
Proof.
  intros l. unfold stable_sort.
  assert (G : forall acc,
             StronglySorted by_vol acc ->
             Permutation (fold_left (fun a e => insert_sorted e a) l acc) (acc ++ l)
             /\ StronglySorted by_vol (fold_left (fun a e => insert_sorted e a) l acc)).
  { induction l as [| e l IH]; intros acc Hacc; simpl.
    - rewrite app_nil_r. split; [apply Permutation_refl | exact Hacc].
    - destruct (IH (insert_sorted e acc) (insert_sorted_sorted e acc Hacc)) as [Hp Hs].
      split; [| exact Hs].
      eapply Permutation_trans; [exact Hp |].
      eapply Permutation_trans; [apply Permutation_app_tail, insert_sorted_perm |].
      simpl. apply Permutation_middle. }
  destruct (G [] (SSorted_nil _)) as [Hp Hs]. split; [exact Hp | exact Hs].
Qed.

Lemma filter_absent (s : list (string * Q)) (t : string) :
  ~ In t (columns s) -> filter (fun x => String.eqb (fst x) t) s = [].
Proof.
  induction s as [| z s IH]; intros Hnotin; [reflexivity |].
  simpl. destruct (String.eqb (fst z) t) eqn:E.
  - apply String.eqb_eq in E. exfalso. apply Hnotin. left. exact E.
  - apply IH. intros H. apply Hnotin. right. exact H.
Qed.

Lemma filter_unique (s : list (string * Q)) (e : string * Q) :
  NoDup (columns s) -> In e s ->
  filter (fun x => String.eqb (fst x) (fst e)) s = [e].
Proof.
  induction s as [| x s IH]; intros Hnd Hin; [destruct Hin |].
  simpl in Hnd. inversion Hnd as [| ? ? Hnotin Hnd']; subst.
  simpl. destruct Hin as [-> | Hin].
  - rewrite String.eqb_refl. rewrite (filter_absent s (fst e) Hnotin). reflexivity.
  - destruct (String.eqb (fst x) (fst e)) eqn:E.
    + apply String.eqb_eq in E. exfalso. apply Hnotin. rewrite E.
      unfold columns. apply in_map. exact Hin.
    + apply IH; assumption.
Qed.

(** With unique labels [loc] reads one value per label. *)
Lemma loc_exact (s part : list (string * Q)) :
  NoDup (columns s) -> incl part s -> loc s (columns part) = Ok (map snd part).
Proof.
  intros Hnd. induction part as [| e part IH]; intros Hincl; [reflexivity |].
  simpl. rewrite (filter_unique s e Hnd) by (apply Hincl; left; reflexivity).
  rewrite IH by (intros x Hx; apply Hincl; right; exact Hx).
  reflexivity.
Qed.

(** ** The universe and its ranking *)

Lemma resolve_universe_incl (df : DataFrame) (vol : Series) (t : string) :
  In t (resolve_universe df vol) -> In t (columns df).
Proof.
  unfold resolve_universe, _sanitize_tickers.
  destruct (filter (fun t0 => mem t0 (columns df)) (columns vol)) as [| a l] eqn:F; [auto |].
  intros H. rewrite <- F in H. apply filter_In in H. apply mem_In. tauto.
Qed.

Lemma resolve_universe_NoDup (df : DataFrame) (vol : Series) :
  NoDup (columns vol) -> NoDup (columns df) -> NoDup (resolve_universe df vol).
Proof.
  intros Hv Hd. unfold resolve_universe, _sanitize_tickers.
  pose proof (NoDup_filter (fun t0 => mem t0 (columns df)) Hv) as Hf.
  destruct (filter (fun t0 => mem t0 (columns df)) (columns vol)); assumption.
Qed.

Lemma resolve_universe_nonempty (df : DataFrame) (vol : Series) :
  df_empty df = false -> resolve_universe df vol <> [].
Proof.
  intros He. unfold resolve_universe.
  destruct (_sanitize_tickers df vol); [| discriminate].
  destruct df as [| [t col] df]; [discriminate He | discriminate].
Qed.

Lemma columns_universe_vol (sqrtQ : Q -> Q) (fill_pad : bool) (df : DataFrame)
      (risk_report : RiskReport) :
  columns (universe_vol sqrtQ fill_pad df risk_report)
  = resolve_universe df (vol_series sqrtQ fill_pad df risk_report).
Proof.
  unfold universe_vol, fillna0, columns. rewrite !map_map. simpl. apply map_id.
Qed.

Lemma map_fst_combine {A B : Type} (l1 : list A) (l2 : list B) :
  length l1 = length l2 -> map fst (combine l1 l2) = l1.
Proof.
  revert l2. induction l1 as [| a l1 IH]; intros [| b l2] H; simpl in *;
    try reflexivity; try discriminate.
  rewrite IH by lia. reflexivity.
Qed.

Lemma map_snd_combine {A B : Type} (l1 : list A) (l2 : list B) :
  length l1 = length l2 -> map snd (combine l1 l2) = l2.
Proof.
  revert l2. induction l1 as [| a l1 IH]; intros [| b l2] H; simpl in *;
    try reflexivity; try discriminate.
  rewrite IH by lia. reflexivity.
Qed.

Lemma slice_last_columns (n : nat) (ranked : list (string * Q)) :
  slice_last n (columns ranked) = columns (slice_last n ranked).
Proof.
  unfold slice_last, columns. rewrite length_map.
  destruct (Nat.eqb n 0); [reflexivity | apply skipn_map].
Qed.

Lemma slice_first_columns (n : nat) (ranked : list (string * Q)) :
  slice_first n (columns ranked) = columns (slice_first n ranked).
Proof. unfold slice_first, columns. apply firstn_map. Qed.

(** ['high'] with unique tickers: the last [n] of the ranking, each weighted
    by its volatility after the epsilon substitution. *)
Lemma choose_weights_high_exact (n : nat) (ranked : list (string * Q)) :
  NoDup (columns ranked) ->
  (1 <= n <= length ranked)%nat ->
  choose_weights "high" n ranked
  = Ok (columns (slice_last n ranked),
        proportional (substitute_epsilon (map snd (slice_last n ranked)))).
Proof.
  intros Hnd Hn.
  destruct (choose_weights_high n ranked Hn) as [vols [Hloc [_ Hc]]].
  rewrite slice_last_columns in Hloc, Hc.
  rewrite (loc_exact ranked (slice_last n ranked) Hnd) in Hloc
    by (intros x; apply slice_last_incl).
  injection Hloc as <-. exact Hc.
Qed.

Lemma choose_weights_lengths (risk_level : string) (n : nat) (ranked : list (string * Q))
      (chosen : list string) (weights : list Q) :
  NoDup (columns ranked) ->
  (1 <= n <= length ranked)%nat ->
  choose_weights risk_level n ranked = Ok (chosen, weights) ->
  length chosen = n /\ length weights = n.
Proof.
  intros Hnd Hn Hc.
  assert (Hcols : length (columns ranked) = length ranked)
    by (unfold columns; apply length_map).
  destruct (string_dec risk_level "low") as [-> | Hlow];
    [| destruct (string_dec risk_level "high") as [-> | Hhigh]].
  - rewrite choose_weights_low in Hc by lia. injection Hc as <- <-.
    split; [unfold slice_first; rewrite length_firstn; lia | apply low_weights_length; lia].
  - rewrite (choose_weights_high_exact n ranked Hnd Hn) in Hc. injection Hc as <- <-.
    unfold proportional, substitute_epsilon, columns. rewrite !length_map.
    split; apply slice_last_length; exact Hn.
  - rewrite (choose_weights_moderate risk_level n ranked Hlow Hhigh Hn) in Hc.
    injection Hc as <- <-.
    split; [apply moderate_chosen_length; lia | apply equal_weights_length].
Qed.

Lemma map_div_one (weights : list Q) (d : Q) :
  d == 1 -> Forall2 Qeq (map (fun w => w / d) weights) weights.
Proof.
  intros Hd. induction weights as [| w weights IH]; simpl; constructor; [| exact IH].
  rewrite Hd. field.
Qed.

Lemma NoDup_firstn {A : Type} (n : nat) (l : list A) : NoDup l -> NoDup (firstn n l).
Proof.
  intros H. rewrite <- (firstn_skipn n l) in H. exact (NoDup_app_remove_r _ _ H).
Qed.

Lemma NoDup_skipn {A : Type} (n : nat) (l : list A) : NoDup l -> NoDup (skipn n l).
Proof.
  intros H. rewrite <- (firstn_skipn n l) in H. exact (NoDup_app_remove_l _ _ H).
Qed.

Lemma NoDup_app_skipn {A : Type} (k : nat) (x y : list A) :
  NoDup (x ++ y) -> NoDup (x ++ skipn k y).
Proof.
  revert y. induction k as [| k IH]; intros y H; [exact H |].
  destruct y as [| a y]; [exact H |].
  simpl. apply IH. exact (NoDup_remove_1 _ _ _ H).
Qed.

Lemma NoDup_firstn_skipn {A : Type} (a b : nat) (l : list A) :
  (a <= b)%nat -> NoDup l -> NoDup (firstn a l ++ skipn b l).
Proof.
  intros Hab H.
  replace b with ((b - a) + a)%nat by lia.
  rewrite <- skipn_skipn. apply NoDup_app_skipn.
  rewrite firstn_skipn. exact H.
Qed.

(** The chosen tickers are distinct tickers of the ranking. *)
Lemma chosen_NoDup (risk_level : string) (n : nat) (ranked : list (string * Q))
      (chosen : list string) (weights : list Q) :
  NoDup (columns ranked) ->
  (1 <= n <= length ranked)%nat ->
  choose_weights risk_level n ranked = Ok (chosen, weights) ->
  NoDup chosen /\ incl chosen (columns ranked).
Proof.
  intros Hnd Hn Hc.
  assert (Hcols : length (columns ranked) = length ranked)
    by (unfold columns; apply length_map).
  destruct (string_dec risk_level "low") as [-> | Hlow];
    [| destruct (string_dec risk_level "high") as [-> | Hhigh]].
  - rewrite choose_weights_low in Hc by lia. injection Hc as <- <-.
    split; [apply NoDup_firstn; exact Hnd | intros t; apply slice_first_incl].
  - rewrite (choose_weights_high_exact n ranked Hnd Hn) in Hc. injection Hc as <- <-.
    rewrite <- slice_last_columns.
    split; [| intros t; apply slice_last_incl].
    rewrite slice_last_skipn by lia. apply NoDup_skipn. exact Hnd.
  - rewrite (choose_weights_moderate risk_level n ranked Hlow Hhigh Hn) in Hc.
    injection Hc as <- <-.
    assert (Hhalf : (Nat.div n 2 < n)%nat) by (apply Nat.div_lt; lia).
    unfold moderate_chosen, slice_first. rewrite slice_last_skipn by lia.
    split.
    + apply NoDup_firstn_skipn; [lia | exact Hnd].
    + intros t Ht. apply in_app_or in Ht. destruct Ht as [Ht | Ht].
      * apply (slice_first_incl (Nat.div n 2)). exact Ht.
      * rewrite <- (firstn_skipn (length (columns ranked) - (n - Nat.div n 2)) (columns ranked)).
        apply in_or_app. right. exact Ht.
Qed.

Section Ranking.

Variable sort_values : list (string * Q) -> list (string * Q).
Hypothesis Hsort : sorts sort_values.
Variable sqrtQ : Q -> Q.
Variable fill_pad : bool.

Lemma ranking_facts (df : DataFrame) (risk_report : RiskReport) :
  dict_wf risk_report -> NoDup (columns df) -> df_empty df = false ->
  Permutation (ranking sort_values sqrtQ fill_pad df risk_report) (universe_vol sqrtQ fill_pad df risk_report)
  /\ StronglySorted by_vol (ranking sort_values sqrtQ fill_pad df risk_report)
  /\ NoDup (columns (ranking sort_values sqrtQ fill_pad df risk_report))
  /\ (forall t, In t (columns (ranking sort_values sqrtQ fill_pad df risk_report)) -> In t (columns df))
  /\ length (ranking sort_values sqrtQ fill_pad df risk_report)
     = length (resolve_universe df (vol_series sqrtQ fill_pad df risk_report))
  /\ (1 <= length (ranking sort_values sqrtQ fill_pad df risk_report))%nat.
Proof.
  intros Hd Hdf Hne. unfold ranking.
  destruct (Hsort (universe_vol sqrtQ fill_pad df risk_report)) as [Hp Hs].
  assert (Hpc : Permutation (columns (sort_values (universe_vol sqrtQ fill_pad df risk_report)))
                            (resolve_universe df (vol_series sqrtQ fill_pad df risk_report))).
  { rewrite <- columns_universe_vol. unfold columns. apply Permutation_map. exact Hp. }
  pose proof (resolve_universe_NoDup df _ (vol_series_NoDup sqrtQ fill_pad df risk_report Hd Hdf) Hdf)
    as Hnd.
  assert (Hlen : length (sort_values (universe_vol sqrtQ fill_pad df risk_report))
                 = length (resolve_universe df (vol_series sqrtQ fill_pad df risk_report))).
  { rewrite <- (Permutation_length Hpc). unfold columns. rewrite length_map. reflexivity. }
  split; [exact Hp |]. split; [exact Hs |].
  split; [exact (Permutation_NoDup (Permutation_sym Hpc) Hnd) |].
  split.
  { intros t Ht. apply (resolve_universe_incl df (vol_series sqrtQ fill_pad df risk_report)).
    exact (Permutation_in _ Hpc Ht). }
  split; [exact Hlen |].
  rewrite Hlen.
  pose proof (resolve_universe_nonempty df (vol_series sqrtQ fill_pad df risk_report) Hne) as Hn.
  destruct (resolve_universe df (vol_series sqrtQ fill_pad df risk_report));
    [congruence | simpl; lia].
Qed.

(** A portfolio with holdings: the tickers chosen, the weights of the
    policy, the same weights after the normalisation, and one holding per
    pair. *)
Lemma portfolio_structure (top_n : nat) (budget : Q) (risk_level : string)
      (df : DataFrame) (risk_report : RiskReport) (p : Portfolio) :
  PriceTable df -> dict_wf risk_report -> df_empty df = false -> (1 <= top_n)%nat ->
  generate_portfolio sort_values sqrtQ fill_pad top_n budget risk_level (Some df) risk_report
  = Ok p ->
  exists chosen weights final,
    choose_weights risk_level (holdings_count sqrtQ fill_pad top_n df risk_report) (ranking sort_values sqrtQ fill_pad df risk_report)
    = Ok (chosen, weights)
    /\ (1 <= holdings_count sqrtQ fill_pad top_n df risk_report <= length (ranking sort_values sqrtQ fill_pad df risk_report))%nat
    /\ length chosen = holdings_count sqrtQ fill_pad top_n df risk_report
    /\ length weights = holdings_count sqrtQ fill_pad top_n df risk_report
    /\ Forall2 Qeq final weights
    /\ planned_pairs sort_values sqrtQ fill_pad top_n risk_level (Some df) risk_report
       = Ok (combine chosen final)
    /\ Forall2 (fun tw h => allocate_one budget (iloc_last df) tw = Ok h)
               (combine chosen final) (p_holdings p)
    /\ p_error p = None.
Proof.
  intros [Hdf _] Hd Hne Htop H.
  destruct (ranking_facts df risk_report Hd Hdf Hne) as [_ [_ [Hnd [_ [Hlen Hpos]]]]].
  pose proof (ranked_volatility_Ok sort_values sqrtQ fill_pad df risk_report Hd Hdf) as Hr.
  fold (ranking sort_values sqrtQ fill_pad df risk_report) in Hr.
  assert (Hcount : holdings_count sqrtQ fill_pad top_n df risk_report
                   = Nat.min top_n (length (ranking sort_values sqrtQ fill_pad df risk_report))).
  { unfold holdings_count. rewrite Hlen. reflexivity. }
  assert (Hn : (1 <= holdings_count sqrtQ fill_pad top_n df risk_report <= length (ranking sort_values sqrtQ fill_pad df risk_report))%nat).
  { rewrite Hcount. lia. }
  unfold planned_pairs.
  unfold generate_portfolio in H. rewrite Hne, Hr in *. simpl in *.
  rewrite <- Hcount in *.
  destruct (Nat.eqb (holdings_count sqrtQ fill_pad top_n df risk_report) 0) eqn:E;
    [apply Nat.eqb_eq in E; lia |].
  destruct (plan_sound risk_level _ _ Hn) as [chosen [weights [Hc [_ [Hsum [Hlc Hplan]]]]]].
  destruct (choose_weights_lengths _ _ _ _ _ Hnd Hn Hc) as [_ Hlw].
  exists chosen, weights, (map (fun w => w / np_sum weights) weights).
  rewrite Hplan in *. simpl in H.
  apply bind_Ok_inv in H. destruct H as [res [Hloop H]]. injection H as <-. simpl.
  apply allocation_loop_spec in Hloop. destruct Hloop as [hs [Hfst [Hall _]]].
  simpl in Hfst. rewrite Hfst.
  repeat (split; [first [assumption | reflexivity | apply map_div_one; assumption] |]).
  reflexivity.
Qed.

End Ranking.

Lemma holdings_of_pairs (budget : Q) (last_prices : Series) (pairs : list (string * Q))
      (hs : list Holding) :
  Forall2 (fun tw h => allocate_one budget last_prices tw = Ok h) pairs hs ->
  map h_ticker hs = map fst pairs
  /\ map h_weight hs = map (fun tw => py_round (snd tw) 6) pairs
  /\ length hs = length pairs.
Proof.
  induction 1 as [| tw h pairs hs Hh _ [IH1 [IH2 IH3]]]; simpl.
  - repeat split.
  - apply allocate_one_spec in Hh. destruct Hh as [Ht [Hw _]].
    rewrite Ht, Hw, IH1, IH2, IH3. repeat split.
Qed.

(** ** How many holdings, and of which tickers *)



(** ** The three policies, end to end *)

Lemma sorted_split (n : nat) (l : list (string * Q)) :
  StronglySorted by_vol l ->
  forall a b, In a (firstn n l) -> In b (skipn n l) -> snd a <= snd b.
Proof.
  revert l. induction n as [| n IH]; intros l Hs a b Ha Hb; [destruct Ha |].
  destruct l as [| x l]; [destruct Ha |].
  inversion Hs as [| ? ? Hs' Hx]; subst. simpl in Ha, Hb.
  destruct Ha as [<- | Ha].
  - rewrite Forall_forall in Hx. apply Hx.
    rewrite <- (firstn_skipn n l). apply in_or_app. right. exact Hb.
  - exact (IH l Hs' a b Ha Hb).
Qed.

Section Policies.

Variable sort_values : list (string * Q) -> list (string * Q).
Hypothesis Hsort : sorts sort_values.
Variable sqrtQ : Q -> Q.
Variable fill_pad : bool.

Lemma portfolio_of_policy (top_n : nat) (budget : Q) (risk_level : string)
      (df : DataFrame) (risk_report : RiskReport) (p : Portfolio) :
  PriceTable df -> dict_wf risk_report -> df_empty df = false -> (1 <= top_n)%nat ->
  generate_portfolio sort_values sqrtQ fill_pad top_n budget risk_level (Some df) risk_report
  = Ok p ->
  exists chosen weights final,
    choose_weights risk_level (holdings_count sqrtQ fill_pad top_n df risk_report)
                   (ranking sort_values sqrtQ fill_pad df risk_report)
    = Ok (chosen, weights)
    /\ (1 <= holdings_count sqrtQ fill_pad top_n df risk_report
        <= length (ranking sort_values sqrtQ fill_pad df risk_report))%nat
    /\ planned_pairs sort_values sqrtQ fill_pad top_n risk_level (Some df) risk_report
       = Ok (combine chosen final)
    /\ length final = length chosen
    /\ Forall2 Qeq final weights
    /\ map h_ticker (p_holdings p) = chosen
    /\ map h_weight (p_holdings p) = map (fun w => py_round w 6) final.
Proof.
  intros Hpt Hd Hne Htop H.
  destruct (portfolio_structure sort_values Hsort sqrtQ fill_pad top_n budget risk_level
              df risk_report p Hpt Hd Hne Htop H)
    as [chosen [weights [final [Hc [Hn [Hlc [Hlw [Hfw [Hplan [Hall _]]]]]]]]]].
  assert (Hlf : length chosen = length final).
  { rewrite (Forall2_length Hfw). congruence. }
  destruct (holdings_of_pairs _ _ _ _ Hall) as [Ht [Hw _]].
  rewrite (map_fst_combine _ _ Hlf) in Ht.
  exists chosen, weights, final.
  repeat (split; [first [assumption | symmetry; assumption] |]).
  rewrite Hw. rewrite <- (map_snd_combine chosen final Hlf) at 2.
  rewrite map_map. reflexivity.
Qed.

End Policies.

Lemma py_round_rounded_to (x : Q) (d : nat) : rounded_to d x (py_round x d).
Proof.
  split.
  - exists (round_half_even (x * inject_Z (pow10 d))). reflexivity.
  - pose proof (py_round_err x d) as [Hlo Hhi].
    pose proof (pow10_pos d) as Hp.
    apply Qabs_Qle_condition. split; [| exact Hhi].
    assert (E : - ((1 # 2) / inject_Z (pow10 d)) == - (1 # 2) / inject_Z (pow10 d))
      by (field; lra).
    rewrite E. exact Hlo.
Qed.

Lemma rounded_to_comp (d : nat) (x y r : Q) : x == y -> rounded_to d x r -> rounded_to d y r.
Proof.
  intros E [Hk Hr]. split; [exact Hk |]. rewrite <- E. exact Hr.
Qed.

Lemma reported_weights_rounded (hs : list Holding) (final policy : list Q) :
  map h_weight hs = map (fun w => py_round w 6) final ->
  Forall2 Qeq final policy ->
  Forall2 (fun h w0 => rounded_to 6 w0 (h_weight h)) hs policy.
Proof.
  intros Hmap Hfw. revert hs Hmap.
  induction Hfw as [| f w0 final policy Hf _ IH]; intros [| h hs] Hmap;
    simpl in Hmap; try discriminate; constructor.
  - injection Hmap as -> _. apply (rounded_to_comp 6 f w0 _ Hf), py_round_rounded_to.
  - apply IH. injection Hmap as _ E. exact E.
Qed.

Lemma close_of_Qeq (final policy : list Q) :
  Forall2 Qeq final policy ->
  Forall2 (fun w w0 => Qabs (w - w0) <= 1 # 2000000) final policy.
Proof.
  induction 1 as [| f w0 final policy Hf _ IH]; constructor; [| exact IH].
  apply Qabs_Qle_condition. split; lra.
Qed.

(** C4, as the code has it.  With [risk_level = 'low'], a non-empty table
    and [top_n >= 1], let [ranked] be the universe sorted by ascending
    volatility and [N = min(top_n, universe size)].  The holdings are the
    first [N] tickers of [ranked], in that order, and no ticker left out has
    a lower volatility than one kept.  The weight each holding reports is
    the weight of the policy rounded to six decimals, the policy being [1]
    when [N = 1], else [0.8] for the first holding and [0.2 / (N - 1)] for
    each other: the first holding reports exactly [1], respectively
    [0.8].  The weights the shares are computed from lie within half a
    millionth of the policy: the renormalisation of lines 108-113 stands
    between them and the policy, and in floats it need not be the
    identity. *)
Theorem low_risk_policy
        (sort_values : list (string * Q) -> list (string * Q)) (sqrtQ : Q -> Q)
        (fill_pad : bool) (top_n : nat) (budget : Q)
        (df : DataFrame) (risk_report : RiskReport) (p : Portfolio) :
  sorts sort_values ->
  PriceTable df -> dict_wf risk_report -> df_empty df = false -> (1 <= top_n)%nat ->
  generate_portfolio sort_values sqrtQ fill_pad top_n budget "low" (Some df) risk_report
  = Ok p ->
  let ranked := ranking sort_values sqrtQ fill_pad df risk_report in
  let n := Nat.min top_n (length (resolve_universe df (vol_series sqrtQ fill_pad df risk_report))) in
  Permutation ranked (universe_vol sqrtQ fill_pad df risk_report)
  /\ StronglySorted by_vol ranked
  /\ map h_ticker (p_holdings p) = firstn n (columns ranked)
  /\ (forall a b, In a (firstn n ranked) -> In b (skipn n ranked) -> snd a <= snd b)
  /\ Forall2 (fun h w0 => rounded_to 6 w0 (h_weight h)) (p_holdings p) (low_weights n)
  /\ (exists h rest,
         p_holdings p = h :: rest
         /\ h_weight h == (if Nat.eqb n 1 then 1 else 8 # 10))
  /\ exists weights,
      planned_pairs sort_values sqrtQ fill_pad top_n "low" (Some df) risk_report
      = Ok (combine (firstn n (columns ranked)) weights)
      /\ Forall2 (fun w w0 => Qabs (w - w0) <= 1 # 2000000) weights (low_weights n).
Proof.
  intros Hsort Hpt Hd Hne Htop H. cbv zeta.
  destruct (portfolio_of_policy sort_values Hsort sqrtQ fill_pad top_n budget "low"
              df risk_report p Hpt Hd Hne Htop H)
    as [chosen [weights [final [Hc [Hn [Hplan [_ [Hfw [Ht Hw]]]]]]]]].
  unfold holdings_count in *.
  rewrite choose_weights_low in Hc by lia. injection Hc as <- <-.
  destruct Hpt as [Hdf _].
  destruct (ranking_facts sort_values Hsort sqrtQ fill_pad df risk_report Hd Hdf Hne)
    as [Hperm [Hsorted _]].
  set (n := Nat.min top_n
              (length (resolve_universe df (vol_series sqrtQ fill_pad df risk_report)))) in *.
  change (Forall2 Qeq final (low_weights n)) in Hfw.
  split; [exact Hperm |]. split; [exact Hsorted |]. split; [exact Ht |].
  split; [apply sorted_split; exact Hsorted |].
  split; [exact (reported_weights_rounded _ _ _ Hw Hfw) |].
  split.
  - unfold low_weights in Hfw.
    destruct (p_holdings p) as [| h rest];
      [destruct final; [| discriminate]; inversion Hfw as [E |];
       destruct (Nat.eqb n 1); discriminate |].
    exists h, rest. split; [reflexivity |].
    destruct final as [| f final]; [discriminate |]. injection Hw as -> _.
    destruct (Nat.eqb n 1); inversion Hfw as [| ? ? ? ? Hf _]; subst;
      rewrite (py_round_comp _ _ 6 Hf); vm_compute; reflexivity.
  - exists final. split; [exact Hplan | exact (close_of_Qeq _ _ Hfw)].
Qed.

Lemma low_risk_policy_witness :
  exists p,
    generate_portfolio stable_sort sqrt_approx true 5 (100 # 1) "low"
                       (Some demo_prices) demo_report = Ok p
    /\ map h_ticker (p_holdings p)
       = firstn (Nat.min 5 (length (resolve_universe demo_prices
                                      (vol_series sqrt_approx true demo_prices demo_report))))
                (columns (ranking stable_sort sqrt_approx true demo_prices demo_report)).
Proof.
  eexists. split; [vm_compute; reflexivity |].
  eapply (low_risk_policy stable_sort sqrt_approx true 5 (100 # 1) demo_prices demo_report).
  - exact stable_sort_sorts.
  - exact demo_prices_PriceTable.
  - exact demo_report_wf.
  - reflexivity.
  - lia.
  - vm_compute. reflexivity.
Defined.








Lemma two_prices_PriceTable : PriceTable two_prices.
Proof.
  split.
  - apply nodupb_NoDup. reflexivity.
  - intros c1 c2 H1 H2. simpl in H1, H2.
    destruct H1 as [<- | [<- | []]]; destruct H2 as [<- | [<- | []]]; reflexivity.
Qed.

Lemma two_report_wf : dict_wf two_report.
Proof.
  intros d E. injection E as <-. apply nodupb_NoDup. reflexivity.
Qed.


Lemma equal_weights_each (n : nat) (final : list Q) :
  Forall2 Qeq final (equal_weights n) -> Forall (fun w => w == 1 / of_nat n) final.
Proof.
  unfold equal_weights, np_ones. generalize (of_nat n) as d. intros d.
  generalize n as k. intros k. revert final.
  induction k as [| k IH]; intros final H; simpl in H; inversion H; subst; constructor.
  - assumption.
  - apply IH. assumption.
Qed.

Lemma Forall_of_maps {A : Type} (g : A -> Q) (f : Q -> Q) (P R : Q -> Prop)
      (hs : list A) (final : list Q) :
  map g hs = map f final -> Forall P final -> (forall w, P w -> R (f w)) ->
  Forall (fun h => R (g h)) hs.
Proof.
  intros Hmap Hp Himp. revert final Hmap Hp.
  induction hs as [| h hs IH]; intros [| w final] Hmap Hp; simpl in Hmap;
    try discriminate; constructor.
  - injection Hmap as -> _. inversion Hp; subst. apply Himp. assumption.
  - injection Hmap as _ Hmap. inversion Hp; subst. exact (IH final Hmap H2).
Qed.

(** C6.  With a [risk_level] other than ['low'] and ['high'] (so for
    ['moderate']), a non-empty table and [top_n >= 1], let [ranked] be the
    universe sorted by ascending volatility and
    [N = min(top_n, universe size)].  The holdings are the first [N // 2]
    tickers of [ranked] followed by its last [N - N // 2]: no ticker
    outside the first group has a lower volatility than one inside, none
    outside the second a higher one, and the two groups share no ticker.
    Each of the [N] tickers is allocated with the weight [1 / N].  With a
    universe of four tickers of distinct volatilities and [top_n = 4], the
    holdings are the two lowest then the two highest, each with weight
    0.25, also as reported. *)
Theorem moderate_policy
        (sort_values : list (string * Q) -> list (string * Q)) (sqrtQ : Q -> Q)
        (fill_pad : bool) (top_n : nat) (budget : Q) (risk_level : string)
        (df : DataFrame) (risk_report : RiskReport) (p : Portfolio) :
  sorts sort_values ->
  PriceTable df -> dict_wf risk_report -> df_empty df = false -> (1 <= top_n)%nat ->
  risk_level <> "low"%string -> risk_level <> "high"%string ->
  generate_portfolio sort_values sqrtQ fill_pad top_n budget risk_level (Some df) risk_report
  = Ok p ->
  let ranked := ranking sort_values sqrtQ fill_pad df risk_report in
  let n := Nat.min top_n (length (resolve_universe df (vol_series sqrtQ fill_pad df risk_report))) in
  let low := firstn (Nat.div n 2) ranked in
  let high := slice_last (n - Nat.div n 2) ranked in
  (Permutation ranked (universe_vol sqrtQ fill_pad df risk_report)
   /\ StronglySorted by_vol ranked
   /\ high = skipn (length ranked - (n - Nat.div n 2)) ranked
   /\ map h_ticker (p_holdings p) = columns low ++ columns high
   /\ (forall a b, In a low -> In b (skipn (Nat.div n 2) ranked) -> snd a <= snd b)
   /\ (forall a b, In a (firstn (length ranked - (n - Nat.div n 2)) ranked) -> In b high ->
                   snd a <= snd b)
   /\ NoDup (columns low ++ columns high)
   /\ (forall t, In t (columns low) -> ~ In t (columns high))
   /\ length (p_holdings p) = n
   /\ exists weights,
       planned_pairs sort_values sqrtQ fill_pad top_n risk_level (Some df) risk_report
       = Ok (combine (columns low ++ columns high) weights)
       /\ length weights = n
       /\ Forall (fun w => w == 1 / of_nat n) weights
       /\ map h_weight (p_holdings p) = map (fun w => py_round w 6) weights)
  /\ (top_n = 4%nat ->
      length (universe_vol sqrtQ fill_pad df risk_report) = 4%nat ->
      distinct_vols (universe_vol sqrtQ fill_pad df risk_report) ->
      exists a b c d,
        ranked = [a; b; c; d]
        /\ snd a < snd b /\ snd b < snd c /\ snd c < snd d
        /\ low = [a; b] /\ high = [c; d]
        /\ map h_ticker (p_holdings p) = [fst a; fst b; fst c; fst d]
        /\ Forall (fun h => h_weight h == 1 # 4) (p_holdings p)).
Proof.
  intros Hsort Hpt Hd Hne Htop Hlow Hhigh H. cbv zeta.
  destruct (portfolio_of_policy sort_values Hsort sqrtQ fill_pad top_n budget risk_level
              df risk_report p Hpt Hd Hne Htop H)
    as [chosen [weights [final [Hc [Hn [Hplan [Hlf [Hfw [Ht Hw]]]]]]]]].
  unfold holdings_count in *.
  destruct Hpt as [Hdf _].
  destruct (ranking_facts sort_values Hsort sqrtQ fill_pad df risk_report Hd Hdf Hne)
    as [Hperm [Hsorted [Hnd [_ [Hlen _]]]]].
  destruct (chosen_NoDup _ _ _ _ _ Hnd Hn Hc) as [Hcn _].
  rewrite (choose_weights_moderate _ _ _ Hlow Hhigh Hn) in Hc. injection Hc as <- <-.
  set (ranked := ranking sort_values sqrtQ fill_pad df risk_report) in *.
  set (n := Nat.min top_n (length (resolve_universe df (vol_series sqrtQ fill_pad df risk_report)))) in *.
  assert (Hhalf : (Nat.div n 2 < n)%nat) by (apply Nat.div_lt; lia).
  assert (Hskip : slice_last (n - Nat.div n 2) ranked
                  = skipn (length ranked - (n - Nat.div n 2)) ranked)
    by (apply slice_last_skipn; lia).
  assert (Hchosen : moderate_chosen n (columns ranked)
                    = columns (firstn (Nat.div n 2) ranked)
                      ++ columns (slice_last (n - Nat.div n 2) ranked)).
  { unfold moderate_chosen. rewrite slice_first_columns, slice_last_columns. reflexivity. }
  rewrite Hchosen in *.
  assert (Hlenf : length final = n).
  { rewrite (Forall2_length Hfw). apply equal_weights_length. }
  assert (Hlenh : length (p_holdings p) = n).
  { rewrite <- (length_map h_weight), Hw, length_map. exact Hlenf. }
  assert (Heach : Forall (fun w => w == 1 / of_nat n) final)
    by (apply equal_weights_each; exact Hfw).
  split.
  - split; [exact Hperm |]. split; [exact Hsorted |]. split; [exact Hskip |].
    split; [exact Ht |].
    split; [apply sorted_split; exact Hsorted |].
    split; [rewrite Hskip; apply sorted_split; exact Hsorted |].
    split; [exact Hcn |].
    split.
    { intros t Hl Hh. revert Hcn Hl Hh.
      generalize (columns (firstn (Nat.div n 2) ranked)) as l1.
      generalize (columns (slice_last (n - Nat.div n 2) ranked)) as l2.
      intros l2 l1 Hcn Hl Hh.
      apply in_split in Hl. destruct Hl as [u [v ->]].
      rewrite <- app_assoc in Hcn. apply NoDup_app_remove_l in Hcn.
      simpl in Hcn. inversion Hcn as [| ? ? Hnotin _]; subst.
      apply Hnotin. apply in_or_app. right. exact Hh. }
    split; [exact Hlenh |].
    exists final. split; [exact Hplan |]. split; [exact Hlenf |].
    split; [exact Heach | exact Hw].
  - intros Htop4 Hu4 Hdist.
    assert (Hr4 : length ranked = 4%nat) by (rewrite (Permutation_length Hperm); exact Hu4).
    assert (Hn4 : n = 4%nat) by (unfold n; rewrite <- Hlen, Hr4, Htop4; reflexivity).
    destruct ranked as [| a [| b [| c [| d [| e rest]]]]] eqn:Er; try discriminate Hr4.
    exists a, b, c, d.
    assert (Hstrict : forall e1 e2, In e1 [a; b; c; d] -> In e2 [a; b; c; d] ->
                                    fst e1 <> fst e2 -> snd e1 <= snd e2 -> snd e1 < snd e2).
    { intros e1 e2 H1 H2 Hf Hle.
      destruct (Qeq_dec (snd e1) (snd e2)) as [E | E]; [| lra].
      exfalso. apply Hf. f_equal.
      apply Hdist; [exact (Permutation_in _ Hperm H1) | exact (Permutation_in _ Hperm H2) | exact E]. }
    simpl in Hnd.
    inversion Hnd as [| ? ? Na Hnd1]; subst.
    inversion Hnd1 as [| ? ? Nb Hnd2]; subst.
    inversion Hnd2 as [| ? ? Nc _]; subst.
    inversion Hsorted as [| ? ? Hs1 Ha]; subst.
    inversion Hs1 as [| ? ? Hs2 Hb]; subst.
    inversion Hs2 as [| ? ? _ Hcd]; subst.
    inversion Ha as [| ? ? Hab _]; subst.
    inversion Hb as [| ? ? Hbc _]; subst.
    inversion Hcd as [| ? ? Hcd' _]; subst.
    unfold by_vol in Hab, Hbc, Hcd'. simpl in Na, Nb, Nc.
    rewrite Hn4 in *.
    change (Nat.div 4 2) with 2%nat in *.
    change (slice_last (4 - 2) [a; b; c; d]) with [c; d] in *.
    change (firstn 2 [a; b; c; d]) with [a; b] in *.
    split; [reflexivity |].
    split; [apply Hstrict; simpl; intuition congruence |].
    split; [apply Hstrict; simpl; intuition congruence |].
    split; [apply Hstrict; simpl; intuition congruence |].
    split; [reflexivity |]. split; [reflexivity |].
    split; [exact Ht |].
    apply (Forall_of_maps h_weight (fun w => py_round w 6)
             (fun w => w == 1 / of_nat 4) (fun w => w == 1 # 4) _ final Hw Heach).
    intros w Hw4. rewrite (py_round_comp w (1 # 4)); [reflexivity |].
    rewrite Hw4. reflexivity.
Qed.

Lemma four_prices_PriceTable : PriceTable four_prices.
Proof.
  split.
  - apply nodupb_NoDup. reflexivity.
  - intros c1 c2 H1 H2. simpl in H1, H2.
    destruct H1 as [<- | [<- | [<- | [<- | []]]]];
      destruct H2 as [<- | [<- | [<- | [<- | []]]]]; reflexivity.
Qed.

Lemma four_report_wf : dict_wf four_report.
Proof.
  intros d E. injection E as <-. apply nodupb_NoDup. reflexivity.
Qed.

Lemma four_report_distinct :
  distinct_vols (universe_vol sqrt_approx true four_prices four_report).
Proof.
  intros e1 e2 H1 H2 E. vm_compute in H1, H2.
  destruct H1 as [<- | [<- | [<- | [<- | []]]]];
    destruct H2 as [<- | [<- | [<- | [<- | []]]]];
    try reflexivity; exfalso; vm_compute in E; discriminate E.
Qed.

(** C4, as the claim words it, fails when the weight is read off the
    holding: with four tickers the three that share 0.2 report 0.066667. *)
Lemma low_weight_is_reported_rounded :
  exists p h,
    generate_portfolio stable_sort sqrt_approx true 4 (1000 # 1) "low"
                       (Some four_prices) four_report = Ok p
    /\ length (p_holdings p) = 4%nat
    /\ nth_error (p_holdings p) 1 = Some h
    /\ h_weight h == 66667 # 1000000
    /\ ~ h_weight h == (2 # 10) / of_nat (4 - 1).
Proof.
  eexists. eexists. split; [vm_compute; reflexivity |].
  split; [reflexivity |]. split; [reflexivity |].
  split; [vm_compute; reflexivity | vm_compute; discriminate].
Qed.

Lemma moderate_policy_witness :
  exists p,
    generate_portfolio stable_sort sqrt_approx true 4 (1000 # 1) "moderate"
                       (Some four_prices) four_report = Ok p
    /\ map h_ticker (p_holdings p) = ["AAPL"; "JNJ"; "XOM"; "TSLA"]%string
    /\ Forall (fun h => h_weight h == 1 # 4) (p_holdings p).
Proof.
  eexists.
  assert (G : generate_portfolio stable_sort sqrt_approx true 4 (1000 # 1) "moderate"
                (Some four_prices) four_report = Ok _) by (vm_compute; reflexivity).
  split; [exact G |].
  destruct (moderate_policy stable_sort sqrt_approx true 4 (1000 # 1) "moderate"
              four_prices four_report _
              stable_sort_sorts four_prices_PriceTable four_report_wf eq_refl
              (le_S _ _ (le_S _ _ (le_S _ _ (le_n 1))))
              ltac:(discriminate) ltac:(discriminate) G) as [_ Hscen].
  destruct (Hscen eq_refl) as [a [b [c [d [_ [_ [_ [_ [_ [_ [_ Hw]]]]]]]]]]].
  - vm_compute. reflexivity.
  - exact four_report_distinct.
  - split; [vm_compute; reflexivity | exact Hw].
Defined.

(** ** Risk scores *)

Lemma of_nat_le (a b : nat) : (a <= b)%nat -> of_nat a <= of_nat b.
Proof. intros H. unfold of_nat. rewrite <- Zle_Qle. lia. Qed.

Lemma of_nat_plus (a b : nat) : of_nat (a + b) == of_nat a + of_nat b.
Proof. unfold of_nat. rewrite Nat2Z.inj_add, inject_Z_plus. reflexivity. Qed.

Lemma Qle_bool_comp_l (x x' y : Q) : x == x' -> Qle_bool x y = Qle_bool x' y.
Proof.
  intros E. destruct (Qle_bool x y) eqn:A, (Qle_bool x' y) eqn:B; try reflexivity.
  - apply Qle_bool_iff in A. rewrite E in A. apply Qle_bool_iff in A. congruence.
  - apply Qle_bool_iff in B. rewrite <- E in B. apply Qle_bool_iff in B. congruence.
Qed.

Lemma Qeq_bool_comp_r (x x' y : Q) : x == x' -> Qeq_bool y x = Qeq_bool y x'.
Proof.
  intros E. destruct (Qeq_bool y x) eqn:A, (Qeq_bool y x') eqn:B; try reflexivity.
  - apply Qeq_bool_iff in A. rewrite E in A. apply Qeq_bool_iff in A. congruence.
  - apply Qeq_bool_iff in B. rewrite <- E in B. apply Qeq_bool_iff in B. congruence.
Qed.

Lemma rank_average_counts (vals : list Q) (x : Q) :
  rank_average vals x = of_nat (below x vals) + (of_nat (tied x vals) + 1) / 2.
Proof. reflexivity. Qed.

Lemma below_comp (vals : list Q) (x x' : Q) : x == x' -> below x vals = below x' vals.
Proof.
  intros E. unfold below, count_if. f_equal. apply filter_ext.
  intros y. rewrite (Qle_bool_comp_l x x' y E). reflexivity.
Qed.

Lemma tied_comp (vals : list Q) (x x' : Q) : x == x' -> tied x vals = tied x' vals.
Proof.
  intros E. unfold tied, count_if. f_equal. apply filter_ext.
  intros y. apply Qeq_bool_comp_r. exact E.
Qed.

Lemma tied_pos (vals : list Q) (x : Q) : In x vals -> (1 <= tied x vals)%nat.
Proof.
  intros H. unfold tied, count_if.
  assert (Hin : In x (filter (fun y => Qeq_bool y x) vals)).
  { apply filter_In. split; [exact H | apply Qeq_bool_iff; reflexivity]. }
  destruct (filter (fun y => Qeq_bool y x) vals); [destruct Hin | simpl; lia].
Qed.

Ltac reflect_comparisons :=
  repeat match goal with
         | H : Qle_bool _ _ = true |- _ => apply Qle_bool_iff in H
         | H : Qle_bool _ _ = false |- _ => apply Qle_bool_false in H
         | H : Qeq_bool _ _ = true |- _ => apply Qeq_bool_iff in H
         | H : Qeq_bool _ _ = false |- _ => apply Qeq_bool_neq in H
         end.

Lemma below_tied_length (vals : list Q) (x : Q) :
  (below x vals + tied x vals <= length vals)%nat.
Proof.
  unfold below, tied, count_if. induction vals as [| y vals IH]; simpl; [lia |].
  destruct (Qle_bool x y) eqn:A, (Qeq_bool y x) eqn:B; simpl; try lia.
  exfalso. reflect_comparisons. lra.
Qed.

Lemma below_tied_step (vals : list Q) (x x' : Q) :
  x < x' -> (below x vals + tied x vals <= below x' vals)%nat.
Proof.
  intros Hlt. unfold below, tied, count_if.
  induction vals as [| y vals IH]; simpl; [lia |].
  destruct (Qle_bool x y) eqn:A, (Qeq_bool y x) eqn:B, (Qle_bool x' y) eqn:C; simpl; try lia;
    exfalso; reflect_comparisons; lra.
Qed.

(** The average rank lies among the positions of its group of ties. *)
Lemma rank_average_bounds (vals : list Q) (x : Q) :
  In x vals ->
  of_nat (below x vals) + 1 <= rank_average vals x
  /\ rank_average vals x <= of_nat (below x vals + tied x vals)
  /\ rank_average vals x <= of_nat (length vals).
Proof.
  intros H. rewrite rank_average_counts.
  pose proof (of_nat_le _ _ (tied_pos vals x H)) as Ht.
  pose proof (of_nat_le _ _ (below_tied_length vals x)) as Hl.
  rewrite of_nat_plus in *. change (of_nat 1) with 1 in Ht.
  set (b := of_nat (below x vals)) in *. set (t := of_nat (tied x vals)) in *.
  assert (E : (t + 1) / 2 == t * (1 # 2) + (1 # 2)) by field.
  rewrite E. repeat split; lra.
Qed.

Lemma rank_average_comp (vals : list Q) (x x' : Q) :
  x == x' -> rank_average vals x == rank_average vals x'.
Proof.
  intros E. rewrite !rank_average_counts.
  rewrite (below_comp vals x x' E), (tied_comp vals x x' E). reflexivity.
Qed.

Lemma rank_average_mono (vals : list Q) (x x' : Q) :
  In x vals -> In x' vals -> x <= x' -> rank_average vals x <= rank_average vals x'.
Proof.
  intros Hx Hx' Hle.
  destruct (Qeq_dec x x') as [E | Hne].
  - rewrite (rank_average_comp vals x x' E). lra.
  - assert (Hlt : x < x') by lra.
    destruct (rank_average_bounds vals x Hx) as [_ [Hup _]].
    destruct (rank_average_bounds vals x' Hx') as [Hlo _].
    pose proof (of_nat_le _ _ (below_tied_step vals x x' Hlt)) as Hstep.
    lra.
Qed.

Lemma Forall2_map_self {A B : Type} (P : A -> B -> Prop) (f : A -> B) (l : list A) :
  (forall a, In a l -> P a (f a)) -> Forall2 P l (map f l).
Proof.
  induction l as [| a l IH]; intros H; simpl; constructor.
  - apply H. left. reflexivity.
  - apply IH. intros b Hb. apply H. right. exact Hb.
Qed.

Lemma in_combine_map_self {A B : Type} (f : A -> B) (l : list A) (a : A) (b : B) :
  In (a, b) (combine l (map f l)) -> In a l /\ b = f a.
Proof.
  induction l as [| x l IH]; simpl; intros H; [contradiction |].
  destruct H as [H | H].
  - injection H as -> <-. split; [left; reflexivity | reflexivity].
  - destruct (IH H) as [Hin E]. split; [right; exact Hin | exact E].
Qed.

Lemma Qdiv_le_compat (a b d : Q) : 0 < d -> a <= b -> a / d <= b / d.
Proof.
  intros Hd H. unfold Qdiv. apply Qmult_le_compat_r; [exact H |].
  apply Qinv_le_0_compat. lra.
Qed.

(** C7.  For every price table, with [vol] the volatilities after the
    coercion of NaN to 0: the report's [risk_score] has one entry per
    column, in order; the entry of a ticker is its average rank among
    [vol] divided by the number of tickers, the rank lying among the
    positions its group of equal volatilities occupies in ascending order;
    it is in (0, 1]; it does not decrease when the volatility increases,
    and equal volatilities have equal scores. *)
Theorem risk_score_is_normalized_rank (sqrtQ : Q -> Q) (fill_pad : bool) (prices_df : DataFrame) :
  let report := assess_universe sqrtQ fill_pad prices_df in
  let vol := fillna0 (annualized_vol sqrtQ fill_pad prices_df) in
  let vals := map snd vol in
  volatility report = Some (map (fun e => (fst e, Some (snd e))) vol)
  /\ columns (risk_score report) = columns prices_df
  /\ Forall2 (fun e s =>
                fst s = fst e
                /\ snd s == rank_average vals (snd e) / of_nat (length vals)
                /\ of_nat (below (snd e) vals) + 1 <= rank_average vals (snd e)
                /\ rank_average vals (snd e) <= of_nat (below (snd e) vals + tied (snd e) vals)
                /\ 0 < snd s /\ snd s <= 1)
             vol (risk_score report)
  /\ (forall e1 s1 e2 s2,
         In (e1, s1) (combine vol (risk_score report)) ->
         In (e2, s2) (combine vol (risk_score report)) ->
         (snd e1 <= snd e2 -> snd s1 <= snd s2)
         /\ (snd e1 == snd e2 -> snd s1 == snd s2)).
Proof.
  cbv zeta.
  set (vol := fillna0 (annualized_vol sqrtQ fill_pad prices_df)).
  set (vals := map snd vol).
  assert (Hscore : risk_score (assess_universe sqrtQ fill_pad prices_df)
                   = map (fun e => (fst e, rank_average vals (snd e) / of_nat (length vol))) vol)
    by reflexivity.
  assert (Hlen : length vals = length vol) by (unfold vals; apply length_map).
  assert (Hpos : forall e, In e vol -> 0 < of_nat (length vol)).
  { intros e He. apply of_nat_pos. destruct vol; [destruct He | simpl; lia]. }
  rewrite Hscore, Hlen.
  split; [reflexivity |].
  split.
  { unfold columns. rewrite map_map. simpl. fold (columns vol).
    unfold vol, fillna0, columns. rewrite map_map. simpl.
    fold (columns (annualized_vol sqrtQ fill_pad prices_df)).
    apply columns_annualized_vol. }
  split.
  - apply Forall2_map_self. intros e He. simpl.
    assert (Hin : In (snd e) vals) by (unfold vals; apply in_map; exact He).
    destruct (rank_average_bounds vals (snd e) Hin) as [Hlo [Hup Hmax]].
    rewrite Hlen in Hmax. pose proof (Hpos e He) as Hn.
    split; [reflexivity |]. split; [reflexivity |].
    split; [exact Hlo |]. split; [exact Hup |].
    assert (Hb : 0 <= of_nat (below (snd e) vals)).
    { change 0 with (of_nat 0). apply of_nat_le. lia. }
    split.
    + apply Qlt_shift_div_l; [exact Hn | lra].
    + apply Qle_shift_div_r; [exact Hn | lra].
  - intros e1 s1 e2 s2 H1 H2.
    apply in_combine_map_self in H1. destruct H1 as [He1 ->].
    apply in_combine_map_self in H2. destruct H2 as [He2 ->].
    simpl. pose proof (Hpos e1 He1) as Hn.
    assert (Hin1 : In (snd e1) vals) by (unfold vals; apply in_map; exact He1).
    assert (Hin2 : In (snd e2) vals) by (unfold vals; apply in_map; exact He2).
    split.
    + intros Hle. apply Qdiv_le_compat; [exact Hn |].
      apply rank_average_mono; assumption.
    + intros E. rewrite (rank_average_comp vals _ _ E). reflexivity.
Qed.

(** ** Volatility and drawdown *)

Lemma sqrt_approx_sqrt_like : sqrt_like sqrt_approx.
Proof.
  split.
  - intros x _. unfold sqrt_approx. rewrite Qred_correct.
    pose proof (Z.sqrt_nonneg (Qfloor (x * inject_Z (10 ^ 18)))) as Hs.
    unfold Qle. cbn [Qnum Qden]. lia.
  - intros x E. unfold sqrt_approx. rewrite Qred_correct.
    rewrite (Qfloor_comp (x * inject_Z (10 ^ 18)) 0) by (rewrite E; ring).
    reflexivity.
Qed.

Lemma np_sum_squares_nonneg (mean : Q) (xs : list Q) :
  0 <= np_sum (map (fun x => (x - mean) * (x - mean)) xs).
Proof.
  induction xs as [| x xs IH]; simpl; [lra |].
  assert (0 <= (x - mean) * (x - mean)) by (generalize (x - mean) as a; intros a; nra).
  lra.
Qed.

Lemma variance_nonneg (xs : list Q) : (2 <= length xs)%nat -> 0 <= variance xs.
Proof.
  intros H. unfold variance.
  apply Qle_shift_div_l.
  - pose proof (of_nat_le 2 (length xs) H) as Hn. change (of_nat 2) with (2 # 1) in Hn. lra.
  - setoid_replace (0 * (of_nat (length xs) - 1)) with 0 by ring.
    apply np_sum_squares_nonneg.
Qed.

Lemma np_sum_zeros (xs : list Q) : Forall (fun x => x == 0) xs -> np_sum xs == 0.
Proof.
  induction 1 as [| x xs Hx _ IH]; simpl; [reflexivity |]. rewrite Hx, IH. ring.
Qed.

Lemma variance_zeros (xs : list Q) : Forall (fun x => x == 0) xs -> variance xs == 0.
Proof.
  intros H. unfold variance.
  assert (Hm : np_sum xs / of_nat (length xs) == 0).
  { rewrite (np_sum_zeros xs H). unfold Qdiv. ring. }
  assert (Hs : np_sum (map (fun x => (x - np_sum xs / of_nat (length xs))
                                     * (x - np_sum xs / of_nat (length xs))) xs) == 0).
  { apply np_sum_zeros. rewrite Forall_map.
    eapply Forall_impl; [| exact H]. intros x Hx. simpl. rewrite Hx, Hm. ring. }
  rewrite Hs. unfold Qdiv. ring.
Qed.

Lemma finite_values_length (l : list fl) (xs : list Q) :
  finite_values l = Some xs -> length xs = length l.
Proof.
  revert xs. induction l as [| a l IH]; intros xs H; simpl in H.
  - injection H as <-. reflexivity.
  - destruct a; try discriminate.
    destruct (finite_values l) as [ys |]; simpl in H; [| discriminate].
    injection H as <-. simpl. rewrite (IH ys eq_refl). reflexivity.
Qed.

Lemma finite_values_flat (l : list fl) (xs : list Q) :
  Forall flat l -> finite_values l = Some xs -> Forall (fun x => x == 0) xs.
Proof.
  revert xs. induction l as [| a l IH]; intros xs Hf H; simpl in H.
  - injection H as <-. constructor.
  - inversion Hf as [| ? ? Ha Hl]; subst.
    destruct a; try discriminate.
    destruct (finite_values l) as [ys |]; simpl in H; [| discriminate].
    injection H as <-. constructor; [exact Ha | exact (IH ys Hl eq_refl)].
Qed.

Section Std.

Variable sqrtQ : Q -> Q.
Hypothesis Hsqrt : sqrt_like sqrtQ.

Lemma std_nonneg (col : list fl) (s : Q) : std sqrtQ col = Some s -> 0 <= s.
Proof.
  unfold std. set (xs := filter (fun x => negb (is_nan x)) col).
  destruct (Nat.ltb (length xs) 2) eqn:E; [discriminate |].
  apply Nat.ltb_ge in E.
  destruct (finite_values xs) as [v |] eqn:F; simpl; [| discriminate].
  intros H. injection H as <-.
  apply (proj1 Hsqrt). apply variance_nonneg.
  rewrite (finite_values_length xs v F). exact E.
Qed.

Lemma std_flat (col : list fl) (s : Q) : Forall flat col -> std sqrtQ col = Some s -> s == 0.
Proof.
  intros Hf. unfold std. set (xs := filter (fun x => negb (is_nan x)) col).
  destruct (Nat.ltb (length xs) 2); [discriminate |].
  destruct (finite_values xs) as [v |] eqn:F; simpl; [| discriminate].
  intros H. injection H as <-.
  apply (proj2 Hsqrt). apply variance_zeros.
  apply (finite_values_flat xs v); [| exact F].
  unfold xs. apply Forall_forall. intros r Hr. apply filter_In in Hr.
  rewrite Forall_forall in Hf. apply Hf. tauto.
Qed.

End Std.

Lemma pct_from_sparse (col : list cell) :
  forall prev,
    (present_count prev + length (values_present col) < 2)%nat ->
    Forall flat (pct_from prev col).
Proof.
  induction col as [| c col IH]; intros prev H; simpl; [constructor |].
  constructor.
  - destruct prev as [a |], c as [b |]; simpl in *; try exact I. lia.
  - apply IH. destruct prev as [a |], c as [b |]; simpl in *; lia.
Qed.

Lemma pct_self_flat (q : Q) : flat (fsub (fdiv q q) 1).
Proof.
  unfold fdiv. destruct (Qeq_bool q 0) eqn:E; [exact I |].
  apply Qeq_bool_neq in E. simpl. field. exact E.
Qed.

Lemma pct_from_filled (q : Q) (col : list cell) :
  values_present col = [] ->
  Forall flat (pct_from (Some q) (ffill_from (Some q) col)).
Proof.
  induction col as [| c col IH]; intros H; simpl; [constructor |].
  destruct c as [b |]; [discriminate H |].
  simpl. constructor; [apply pct_self_flat | apply IH; exact H].
Qed.

Lemma pct_from_ffill_sparse (col : list cell) :
  (length (values_present col) < 2)%nat ->
  Forall flat (pct_from None (ffill_from None col)).
Proof.
  induction col as [| c col IH]; intros H; simpl; [constructor |].
  destruct c as [q |]; simpl in *.
  - constructor; [exact I |]. apply pct_from_filled.
    destruct (values_present col); [reflexivity | simpl in H; lia].
  - constructor; [exact I | apply IH; exact H].
Qed.

Lemma take_mask_Forall {A : Type} (P : A -> Prop) (m : list bool) (l : list A) :
  Forall P l -> Forall P (take_mask m l).
Proof.
  revert l. induction m as [| b m IH]; intros l H; [constructor |].
  destruct l as [| x l]; [destruct b; constructor |].
  inversion H; subst. destruct b; simpl; [constructor; [assumption |] |]; apply IH; assumption.
Qed.

(** Below two prices a ticker has no return other than zero. *)
Lemma returns_flat (fill_pad : bool) (m : list bool) (col : list cell) :
  (length (values_present col) < 2)%nat ->
  Forall flat (take_mask m (pct_from None (if fill_pad then ffill col else col))).
Proof.
  intros H. apply take_mask_Forall. destruct fill_pad.
  - apply pct_from_ffill_sparse. exact H.
  - apply pct_from_sparse. simpl. exact H.
Qed.

Lemma cummax_from_above (xs : list Q) :
  forall m, 0 < m ->
            Forall (fun sm => fst sm <= snd sm /\ 0 < snd sm) (combine xs (cummax_from m xs)).
Proof.
  induction xs as [| x xs IH]; intros m Hm; simpl; [constructor |].
  assert (Hstep : x <= cummax_step m x /\ 0 < cummax_step m x).
  { unfold cummax_step. destruct (Qle_bool m x) eqn:E; reflect_comparisons; split; lra. }
  constructor; [exact Hstep | apply IH; tauto].
Qed.

Lemma cummax_above (xs : list Q) :
  Forall (fun x => 0 < x) xs ->
  Forall (fun sm => fst sm <= snd sm /\ 0 < snd sm) (combine xs (cummax xs)).
Proof.
  intros H. destruct xs as [| x xs]; simpl; [constructor |].
  inversion H; subst.
  constructor; [simpl; split; lra | apply cummax_from_above; assumption].
Qed.

Lemma drawdowns_finite (series : list Q) :
  Forall (fun x => 0 < x) series ->
  map (fun sm => fdiv (fst sm - snd sm) (snd sm)) (combine series (cummax series))
  = map Fin (drawdowns_of series)
  /\ Forall (fun q => - (1) <= q /\ q <= 0) (drawdowns_of series).
Proof.
  intros H. pose proof (cummax_above series H) as Ha.
  assert (Hpos : Forall (fun sm => 0 < fst sm) (combine series (cummax series))).
  { apply Forall_forall. intros [s m] Hin. apply in_combine_l in Hin.
    rewrite Forall_forall in H. exact (H s Hin). }
  unfold drawdowns_of.
  induction (combine series (cummax series)) as [| [s m] l IH]; simpl; [split; constructor |].
  inversion Ha as [| ? ? [Hle Hm] Ha']; subst. inversion Hpos as [| ? ? Hs Hpos']; subst.
  simpl in Hle, Hm, Hs.
  destruct (IH Ha' Hpos') as [IH1 IH2]. split.
  - rewrite IH1. unfold fdiv. rewrite Qeq_bool_false by lra. reflexivity.
  - constructor; [| exact IH2]. split.
    + apply Qle_shift_div_l; [exact Hm | lra].
    + apply Qle_shift_div_r; [exact Hm | lra].
Qed.

Lemma series_min_Fin (l : list Q) :
  l <> [] ->
  exists q, series_min (map Fin l) = Fin q /\ In q l /\ Forall (fun x => q <= x) l.
Proof.
  induction l as [| x l IH]; intros Hne; [congruence |].
  destruct l as [| y l].
  - exists x. simpl. split; [reflexivity |]. split; [left; reflexivity |].
    constructor; [lra | constructor].
  - destruct IH as [q [Hq [Hin Hall]]]; [discriminate |].
    change (series_min (map Fin (x :: y :: l)))
      with (fmin (Fin x) (series_min (map Fin (y :: l)))).
    rewrite Hq. simpl. destruct (Qle_bool x q) eqn:E; reflect_comparisons.
    + exists x. split; [reflexivity |]. split; [left; reflexivity |].
      constructor; [lra |]. eapply Forall_impl; [| exact Hall]. intros a Ha. simpl in Ha. lra.
    + exists q. split; [reflexivity |]. split; [right; exact Hin |].
      constructor; [lra | exact Hall].
Qed.

Lemma max_drawdown_range (series : list Q) :
  series <> [] -> Forall (fun x => 0 < x) series ->
  exists q, max_drawdown series = Fin q
            /\ - (1) <= q /\ q <= 0
            /\ In q (drawdowns_of series)
            /\ Forall (fun x => q <= x) (drawdowns_of series).
Proof.
  intros Hne Hpos. unfold max_drawdown.
  destruct (drawdowns_finite series Hpos) as [Hmap Hrange]. rewrite Hmap.
  destruct (series_min_Fin (drawdowns_of series)) as [q [Hq [Hin Hall]]].
  { unfold drawdowns_of. destruct series as [| x xs]; [congruence | discriminate]. }
  exists q. rewrite Forall_forall in Hrange. destruct (Hrange q Hin) as [Hlo Hhi].
  repeat split; assumption.
Qed.

(** C8, as the code has it.  For every price table, whatever its number of
    dates: every ticker gets a volatility that is a number, not NaN, and
    [>= 0], namely the standard deviation of its daily returns times
    [sqrt(252)] or 0 where that is NaN, and 0 for a ticker with fewer than
    two prices; a ticker without price history gets the drawdown 0; and a
    ticker whose prices are all positive gets a drawdown in [-1, 0], the
    least of [(price[t] - running max) / running max] over its dates. *)
Theorem volatility_and_drawdown_ranges (sqrtQ : Q -> Q) (fill_pad : bool)
        (prices_df : DataFrame) :
  sqrt_like sqrtQ ->
  let report := assess_universe sqrtQ fill_pad prices_df in
  (exists vol,
      volatility report = Some vol
      /\ vol = map (fun e => (fst e, Some (match snd e with Some s => s | None => 0 end)))
                   (annualized_vol sqrtQ fill_pad prices_df)
      /\ Forall2 (fun c e =>
                    fst e = fst c
                    /\ exists v, snd e = Some v
                                 /\ 0 <= v
                                 /\ ((length (values_present (snd c)) < 2)%nat -> v == 0))
                 prices_df vol)
  /\ Forall2 (fun c e =>
                let series := values_present (snd c) in
                fst e = fst c
                /\ (series = [] -> snd e = Fin 0)
                /\ (Forall (fun x => 0 < x) series ->
                    exists q, snd e = Fin q
                              /\ - (1) <= q /\ q <= 0
                              /\ (series <> [] ->
                                  In q (drawdowns_of series)
                                  /\ Forall (fun x => q <= x) (drawdowns_of series))))
             prices_df (drawdown report).
Proof.
  intros Hsqrt. cbv zeta. split.
  - eexists. split; [reflexivity |].
    unfold fillna0. rewrite map_map. simpl. split; [reflexivity |].
    unfold annualized_vol, dropna, pct_change. rewrite !map_map. simpl.
    set (M := row_mask _ _).
    apply Forall2_map_self. intros c _. simpl. split; [reflexivity |].
    eexists. split; [reflexivity |].
    destruct (std sqrtQ (take_mask M (pct_from None
                (if fill_pad then ffill (snd c) else snd c)))) as [s |] eqn:S; simpl.
    + pose proof (std_nonneg sqrtQ Hsqrt _ _ S) as Hs.
      assert (H252 : 0 <= sqrtQ (252 # 1)) by (apply (proj1 Hsqrt); discriminate).
      split; [apply Qmult_le_0_compat; assumption |].
      intros Hfew.
      rewrite (std_flat sqrtQ Hsqrt _ _ (returns_flat fill_pad M (snd c) Hfew) S). ring.
    + split; [lra | intros _; reflexivity].
  - unfold assess_universe. simpl.
    apply Forall2_map_self. intros c _. simpl. split; [reflexivity |].
    destruct (values_present (snd c)) as [| x xs] eqn:V; simpl.
    + split; [reflexivity |]. intros _. exists 0.
      split; [reflexivity |]. split; [lra |]. split; [lra | congruence].
    + split; [discriminate |]. intros Hpos.
      destruct (max_drawdown_range (x :: xs)) as [q [Hq [Hlo [Hhi [Hin Hall]]]]];
        [discriminate | exact Hpos |].
      exists q. split; [exact Hq |]. split; [exact Hlo |]. split; [exact Hhi |].
      intros _. split; assumption.
Qed.

Lemma volatility_and_drawdown_ranges_witness :
  Forall2 (fun c e =>
             let series := values_present (snd c) in
             fst e = fst c
             /\ (series = [] -> snd e = Fin 0)
             /\ (Forall (fun x => 0 < x) series ->
                 exists q, snd e = Fin q
                           /\ - (1) <= q /\ q <= 0
                           /\ (series <> [] ->
                               In q (drawdowns_of series)
                               /\ Forall (fun x => q <= x) (drawdowns_of series))))
          demo_prices (drawdown (assess_universe sqrt_approx true demo_prices)).
Proof.
  apply (volatility_and_drawdown_ranges sqrt_approx true demo_prices sqrt_approx_sqrt_like).
Defined.

(** C8, as the claim words it, fails on a table that satisfies the
    PriceTable invariants: a price that turns negative gives a drawdown
    below -1, and a ticker priced at zero throughout gives none at all. *)
Lemma drawdown_outside_range :
  PriceTable odd_prices
  /\ drawdown (assess_universe sqrt_approx true odd_prices)
     = [("NEG"%string, Fin (- (2 # 1))); ("ZERO"%string, NaN)]
  /\ ~ (- (1) <= - (2 # 1)).
Proof.
  split; [split |].
  - apply nodupb_NoDup. reflexivity.
  - intros c1 c2 H1 H2. simpl in H1, H2.
    destruct H1 as [<- | [<- | []]]; destruct H2 as [<- | [<- | []]]; reflexivity.
  - split; [vm_compute; reflexivity |]. intros H. vm_compute in H. apply H. reflexivity.
Qed.

(** ** More on the portfolio agent: the error marker *)

Lemma dict_get_In {V : Type} (d : list (string * V)) (k : string) (v : V) :
  dict_get d k = Some v -> In (k, v) d.
Proof.
  induction d as [| [k' v'] d IH]; simpl; intros H; [discriminate |].
  destruct (dict_get d k) as [v0 |] eqn:E.
  - injection H as <-. right. apply IH. reflexivity.
  - destruct (String.eqb k k') eqn:Ek; [| discriminate].
    apply String.eqb_eq in Ek. injection H as <-. subst k'. left. reflexivity.
Qed.

(** X1.  For a table within the PriceTable invariants (or none) and a sort
    that returns a sorted permutation, the returned portfolio carries an
    error marker exactly when the table is absent or empty or [top_n] is 0;
    with a marker there are no holdings and nothing is allocated, without
    one there is at least one holding. *)
Theorem error_marker_iff
        (sort_values : list (string * Q) -> list (string * Q)) (sqrtQ : Q -> Q)
        (fill_pad : bool) (top_n : nat) (budget : Q) (risk_level : string)
        (prices_df : option DataFrame) (risk_report : RiskReport) (p : Portfolio) :
  sorts sort_values ->
  dict_wf risk_report ->
  (forall df, prices_df = Some df -> PriceTable df) ->
  generate_portfolio sort_values sqrtQ fill_pad top_n budget risk_level prices_df risk_report
  = Ok p ->
  (p_error p <> None <-> table_absent_or_empty prices_df \/ top_n = 0%nat)
  /\ (p_error p <> None -> p_holdings p = [] /\ p_allocated p == 0)
  /\ (p_error p = None -> p_holdings p <> []).
Proof.
  intros Hsort Hd Hpt H.
  pose proof (generate_portfolio_built _ _ _ _ _ _ _ _ _ H) as Hb.
  destruct Hb as [msg -> Hwhy | df ranked pairs remaining -> Hne Hranked Hn Hplan Hall _ _ _ _ Herr].
  - split; [| split].
    + split; [intros _ | intros _; discriminate].
      destruct Hwhy as [-> | [[df [-> Hdf]] | [df [ranked [-> [Hr Hn]]]]]].
      * left. left. reflexivity.
      * left. right. exists df. auto.
      * destruct (df_empty df) eqn:Hne; [left; right; exists df; auto |].
        right. destruct (Hpt df eq_refl) as [Hdf _].
        rewrite (ranked_volatility_Ok sort_values sqrtQ fill_pad df risk_report Hd Hdf) in Hr.
        injection Hr as <-.
        destruct (ranking_facts sort_values Hsort sqrtQ fill_pad df risk_report Hd Hdf Hne)
          as [_ [_ [_ [_ [_ Hpos]]]]].
        unfold ranking in Hpos. lia.
    + intros _. split; reflexivity.
    + intros E. discriminate E.
  - split; [| split].
    + split; [intros E; congruence |].
      intros [[E | [df' [E Hdf']]] | ->]; [discriminate E | | simpl in Hn; congruence].
      injection E as <-. congruence.
    + intros E. congruence.
    + intros _ E. rewrite E in Hall. inversion Hall; subst.
      assert (Hn' : (1 <= Nat.min top_n (length ranked) <= length ranked)%nat) by lia.
      destruct (plan_sound risk_level _ ranked Hn')
        as [chosen [weights [_ [Hpos [Hsum [Hlc Hplan']]]]]].
      rewrite Hplan in Hplan'. injection Hplan' as Hnil.
      destruct chosen as [| c chosen]; [simpl in Hlc; lia |].
      destruct weights as [| w weights]; [| discriminate Hnil].
      simpl in Hsum. discriminate Hsum.
Qed.

Lemma error_marker_iff_witness :
  exists p,
    generate_portfolio stable_sort sqrt_approx true 0 (100 # 1) "low"
                       (Some demo_prices) demo_report = Ok p
    /\ (p_error p <> None <-> table_absent_or_empty (Some demo_prices) \/ 0%nat = 0%nat).
Proof.
  eexists. split; [vm_compute; reflexivity |].
  apply (error_marker_iff stable_sort sqrt_approx true 0 (100 # 1) "low"
           (Some demo_prices) demo_report).
  - exact stable_sort_sorts.
  - exact demo_report_wf.
  - intros df E. injection E as <-. exact demo_prices_PriceTable.
  - vm_compute. reflexivity.
Defined.

(** ** More on the portfolio agent: budgets, shares and amounts *)

Lemma round_half_even_ge (z : Q) (m : Z) : inject_Z m <= z -> (m <= round_half_even z)%Z.
Proof.
  intros H. destruct (Z_le_gt_dec m (round_half_even z)) as [Hle | Hgt]; [exact Hle |].
  exfalso. pose proof (round_half_even_err z) as [Hlo _].
  assert (Hk : inject_Z (round_half_even z) <= inject_Z (m - 1)) by (rewrite <- Zle_Qle; lia).
  unfold Zminus in Hk. rewrite inject_Z_plus in Hk. change (inject_Z (- (1))) with (- (1)) in Hk.
  lra.
Qed.

Lemma round_half_even_le (z : Q) (m : Z) : z <= inject_Z m -> (round_half_even z <= m)%Z.
Proof.
  intros H. destruct (Z_le_gt_dec (round_half_even z) m) as [Hle | Hgt]; [exact Hle |].
  exfalso. pose proof (round_half_even_err z) as [_ Hhi].
  assert (Hk : inject_Z (m + 1) <= inject_Z (round_half_even z)) by (rewrite <- Zle_Qle; lia).
  rewrite inject_Z_plus in Hk. change (inject_Z 1) with 1 in Hk.
  lra.
Qed.

Lemma py_round_nonneg (x : Q) (d : nat) : 0 <= x -> 0 <= py_round x d.
Proof.
  intros H. unfold py_round. pose proof (pow10_pos d) as Hp.
  apply Qle_shift_div_l; [exact Hp |].
  setoid_replace (0 * inject_Z (pow10 d)) with (inject_Z 0) by ring.
  rewrite <- Zle_Qle. apply round_half_even_ge.
  change (inject_Z 0) with 0. apply Qmult_le_0_compat; lra.
Qed.

Lemma py_round_le_1 (x : Q) (d : nat) : x <= 1 -> py_round x d <= 1.
Proof.
  intros H. unfold py_round. pose proof (pow10_pos d) as Hp.
  apply Qle_shift_div_r; [exact Hp |].
  setoid_replace (1 * inject_Z (pow10 d)) with (inject_Z (pow10 d)) by ring.
  rewrite <- Zle_Qle. apply round_half_even_le.
  setoid_replace (inject_Z (pow10 d)) with (1 * inject_Z (pow10 d)) at 2 by ring.
  apply Qmult_le_compat_r; lra.
Qed.

Lemma py_round_0 (x : Q) : x == 0 -> py_round x 2 == 0.
Proof. intros E. rewrite (py_round_comp x 0 2 E). reflexivity. Qed.

Lemma Qfloor_unit (x : Q) : 0 <= x -> x < 1 -> Qfloor x = 0%Z.
Proof.
  intros H0 H1. pose proof (Qfloor_nonneg x H0) as Hlo.
  pose proof (Qfloor_le x) as Hle.
  assert (Hlt : inject_Z (Qfloor x) < inject_Z 1) by (change (inject_Z 1) with 1; lra).
  rewrite <- Zlt_Qlt in Hlt. lia.
Qed.

Lemma Forall2_same_left {A B C : Type} (R1 : A -> B -> Prop) (R2 : A -> C -> Prop)
      (l : list A) (l1 : list B) (l2 : list C) :
  Forall2 R1 l l1 -> Forall2 R2 l l2 ->
  Forall2 (fun b c => exists a, In a l /\ R1 a b /\ R2 a c) l1 l2.
Proof.
  intros H1. revert l2. induction H1 as [| a b l l1 Hab _ IH]; intros l2 H2;
    inversion H2 as [| ? c ? l2' Hac H2']; subst; constructor.
  - exists a. split; [left; reflexivity | split; assumption].
  - eapply Forall2_impl; [| exact (IH _ H2')].
    intros b' c' [a' [Hin HR]]. exists a'. split; [right; exact Hin | exact HR].
Qed.

Lemma weight_le_sum (ws : list Q) (w : Q) :
  Forall (fun x => 0 < x) ws -> In w ws -> w <= np_sum ws.
Proof.
  induction 1 as [| x ws Hx Hws IH]; intros Hin; [destruct Hin |].
  simpl. pose proof (np_sum_nonneg ws Hws) as Hs.
  destruct Hin as [-> | Hin]; [lra | specialize (IH Hin); lra].
Qed.

Lemma pair_weight_le_1 (pairs : list (string * Q)) (tw : string * Q) :
  Forall (fun x => 0 < snd x) pairs -> np_sum (map snd pairs) <= 1 -> In tw pairs ->
  snd tw <= 1.
Proof.
  intros Hpos Hsum Hin.
  assert (Hp : Forall (fun x => 0 < x) (map snd pairs)) by (rewrite Forall_map; exact Hpos).
  pose proof (weight_le_sum _ (snd tw) Hp (in_map snd _ _ Hin)). lra.
Qed.

(** X2.  The tickers, the weights and the prices of the holdings do not
    depend on the budget, and a larger budget never buys fewer shares of
    any holding. *)
Theorem shares_monotone_in_budget
        (sort_values : list (string * Q) -> list (string * Q)) (sqrtQ : Q -> Q)
        (fill_pad : bool) (top_n : nat) (b1 b2 : Q) (risk_level : string)
        (prices_df : option DataFrame) (risk_report : RiskReport) (p1 p2 : Portfolio) :
  generate_portfolio sort_values sqrtQ fill_pad top_n b1 risk_level prices_df risk_report
  = Ok p1 ->
  generate_portfolio sort_values sqrtQ fill_pad top_n b2 risk_level prices_df risk_report
  = Ok p2 ->
  b1 <= b2 ->
  Forall2 (fun h1 h2 =>
             h_ticker h1 = h_ticker h2
             /\ h_weight h1 = h_weight h2
             /\ h_price h1 = h_price h2
             /\ (h_shares h1 <= h_shares h2)%Z)
          (p_holdings p1) (p_holdings p2).
Proof.
  intros H1 H2 Hb.
  destruct (generate_portfolio_planned _ _ _ _ _ _ _ _ _ H1) as [pairs [Hplan [Hpos [_ Hall1]]]].
  destruct (generate_portfolio_planned _ _ _ _ _ _ _ _ _ H2) as [pairs' [Hplan' [_ [_ Hall2]]]].
  rewrite Hplan in Hplan'. injection Hplan' as <-.
  eapply Forall2_impl; [| exact (Forall2_same_left _ _ _ _ _ Hall1 Hall2)].
  intros h1 h2 [tw [Hin [Ha1 Ha2]]]. simpl in Ha1, Ha2.
  rewrite Forall_forall in Hpos. pose proof (Hpos tw Hin) as Hw.
  apply allocate_one_spec in Ha1. apply allocate_one_spec in Ha2.
  destruct Ha1 as [Ht1 [Hw1 [Hp1 [Hpr1 Hun1]]]].
  destruct Ha2 as [Ht2 [Hw2 [Hp2 [Hpr2 Hun2]]]].
  split; [congruence |]. split; [congruence |]. split; [congruence |].
  destruct (h_price h1) as [pr |] eqn:E1.
  - destruct (Qlt_le_dec 0 pr) as [Hlt | Hle].
    + destruct (Hpr1 pr eq_refl Hlt) as [-> _].
      assert (E2 : h_price h2 = Some pr) by congruence.
      destruct (Hpr2 pr E2 Hlt) as [-> _].
      apply Qfloor_resp_le. apply Qdiv_le_compat; [exact Hlt |].
      apply Qmult_le_compat_r; lra.
    + assert (U1 : unpriceable (Some pr)) by (right; exists pr; auto).
      assert (U2 : unpriceable (h_price h2)) by (rewrite <- Hp1 in Hp2; rewrite Hp2; exact U1).
      destruct (Hun1 U1) as [-> _]. destruct (Hun2 U2) as [-> _]. lia.
  - assert (U1 : unpriceable (@None Q)) by (left; reflexivity).
    assert (U2 : unpriceable (h_price h2)) by (rewrite <- Hp1 in Hp2; rewrite Hp2; exact U1).
    destruct (Hun1 U1) as [-> _]. destruct (Hun2 U2) as [-> _]. lia.
Qed.

Lemma shares_monotone_in_budget_witness :
  exists p1 p2,
    generate_portfolio stable_sort sqrt_approx true 5 (100 # 1) "high"
                       (Some demo_prices) demo_report = Ok p1
    /\ generate_portfolio stable_sort sqrt_approx true 5 (250 # 1) "high"
                          (Some demo_prices) demo_report = Ok p2
    /\ Forall2 (fun h1 h2 =>
                  h_ticker h1 = h_ticker h2
                  /\ h_weight h1 = h_weight h2
                  /\ h_price h1 = h_price h2
                  /\ (h_shares h1 <= h_shares h2)%Z)
               (p_holdings p1) (p_holdings p2).
Proof.
  eexists. eexists.
  split; [vm_compute; reflexivity |]. split; [vm_compute; reflexivity |].
  apply (shares_monotone_in_budget stable_sort sqrt_approx true 5 (100 # 1) (250 # 1) "high"
           (Some demo_prices) demo_report).
  - vm_compute. reflexivity.
  - vm_compute. reflexivity.
  - apply Qle_bool_iff. reflexivity.
Defined.

Lemma np_sum_Forall2 (l1 l2 : list Q) : Forall2 Qeq l1 l2 -> np_sum l1 == np_sum l2.
Proof.
  induction 1 as [| x y l1 l2 Hxy _ IH]; simpl; [reflexivity |]. rewrite Hxy, IH. reflexivity.
Qed.

Lemma np_sum_round_err (l : list Q) :
  Qabs (np_sum (map (fun w => py_round w 6) l) - np_sum l)
  <= of_nat (length l) * (1 # 2000000).
Proof.
  induction l as [| w l IH].
  - apply Qabs_Qle_condition. split; unfold Qle; simpl; lia.
  - cbn [map np_sum fold_right length]. fold (np_sum l).
    fold (np_sum (map (fun w => py_round w 6) l)).
    rewrite of_nat_S.
    destruct (py_round_rounded_to w 6) as [_ Hw].
    change ((1 # 2) / inject_Z (pow10 6)) with ((1 # 2) / (1000000 # 1)) in Hw.
    apply Qabs_Qle_condition in Hw. apply Qabs_Qle_condition in IH.
    apply Qabs_Qle_condition.
    assert (E : (1 # 2) / (1000000 # 1) == 1 # 2000000) by reflexivity.
    rewrite E in Hw.
    generalize dependent (of_nat (length l)). intros k IH.
    split; lra.
Qed.

(** X3.  For a non-empty table within the invariants and [top_n >= 1], the
    weight every holding reports lies in [0, 1], and the reported weights
    sum to 1 up to their rounding to six decimals: within a millionth per
    holding. *)
Theorem weights_are_normalized
        (sort_values : list (string * Q) -> list (string * Q)) (sqrtQ : Q -> Q)
        (fill_pad : bool) (top_n : nat) (budget : Q) (risk_level : string)
        (df : DataFrame) (risk_report : RiskReport) (p : Portfolio) :
  sorts sort_values ->
  PriceTable df -> dict_wf risk_report -> df_empty df = false -> (1 <= top_n)%nat ->
  generate_portfolio sort_values sqrtQ fill_pad top_n budget risk_level (Some df) risk_report
  = Ok p ->
  Forall (fun h => 0 <= h_weight h /\ h_weight h <= 1) (p_holdings p)
  /\ Qabs (np_sum (map h_weight (p_holdings p)) - 1)
     <= of_nat (length (p_holdings p)) * (1 # 1000000).
Proof.
  intros Hsort Hpt Hd Hne Htop H.
  destruct (portfolio_of_policy sort_values Hsort sqrtQ fill_pad top_n budget risk_level
              df risk_report p Hpt Hd Hne Htop H)
    as [chosen [weights [final [Hc [Hn [Hplan [Hlf [Hfw [Ht Hw]]]]]]]]].
  destruct (choose_weights_sound risk_level _ _ Hn)
    as [chosen' [weights' [Hc' [_ [_ [Hsum _]]]]]].
  rewrite Hc in Hc'. injection Hc' as <- <-.
  destruct (generate_portfolio_planned _ _ _ _ _ _ _ _ _ H) as [pairs [Hplan' [Hpos [Hle _]]]].
  rewrite Hplan in Hplan'. injection Hplan' as <-.
  assert (Hsnd : map snd (combine chosen final) = final)
    by (apply map_snd_combine; symmetry; exact Hlf).
  assert (Hone : np_sum final == 1) by (rewrite (np_sum_Forall2 _ _ Hfw); exact Hsum).
  assert (Hrange : Forall (fun tw => 0 < snd tw /\ snd tw <= 1) (combine chosen final)).
  { apply Forall_forall. intros tw Hin. split.
    - rewrite Forall_forall in Hpos. exact (Hpos tw Hin).
    - exact (pair_weight_le_1 _ tw Hpos Hle Hin). }
  split.
  - apply (Forall_of_maps h_weight (fun w => py_round w 6)
             (fun w => 0 < w /\ w <= 1) (fun w => 0 <= w /\ w <= 1) _ final Hw).
    + rewrite <- Hsnd. rewrite Forall_map. exact Hrange.
    + intros w [Hw0 Hw1]. split; [apply py_round_nonneg; lra | apply py_round_le_1; exact Hw1].
  - assert (Hlen : length (p_holdings p) = length final).
    { rewrite <- (length_map h_weight), Hw, length_map. reflexivity. }
    rewrite Hw, Hlen.
    pose proof (np_sum_round_err final) as Herr.
    apply Qabs_Qle_condition in Herr. apply Qabs_Qle_condition.
    assert (Hk : 0 <= of_nat (length final)).
    { unfold of_nat. change 0 with (inject_Z 0). rewrite <- Zle_Qle. lia. }
    generalize dependent (of_nat (length final)). intros k Herr Hk.
    generalize dependent (np_sum (map (fun w => py_round w 6) final)). intros r Herr.
    generalize dependent (np_sum final). intros t Hone Herr.
    split; nra.
Qed.

Lemma weights_are_normalized_witness :
  exists p,
    generate_portfolio stable_sort sqrt_approx true 5 (100 # 1) "high"
                       (Some demo_prices) demo_report = Ok p
    /\ Forall (fun h => 0 <= h_weight h /\ h_weight h <= 1) (p_holdings p)
    /\ Qabs (np_sum (map h_weight (p_holdings p)) - 1)
       <= of_nat (length (p_holdings p)) * (1 # 1000000).
Proof.
  eexists. split; [vm_compute; reflexivity |].
  apply (weights_are_normalized stable_sort sqrt_approx true 5 (100 # 1) "high"
           demo_prices demo_report).
  - exact stable_sort_sorts.
  - exact demo_prices_PriceTable.
  - exact demo_report_wf.
  - reflexivity.
  - lia.
  - vm_compute. reflexivity.
Defined.

Lemma allocated_near_cost (budget : Q) (last_prices : Series) (tw : string * Q) (h : Holding) :
  0 <= budget -> 0 < snd tw ->
  allocate_one budget last_prices tw = Ok h ->
  0 <= h_allocated h /\ h_allocated h <= cost h + (1 # 200).
Proof.
  intros Hb Hw H. apply allocate_one_spec in H.
  destruct H as [_ [_ [_ [Hpos Hun]]]]. unfold cost.
  destruct (h_price h) as [pr |] eqn:Hp.
  - destruct (Qlt_le_dec 0 pr) as [Hlt | Hle].
    + destruct (Hpos pr eq_refl Hlt) as [Hs Ha]. rewrite Ha.
      assert (H0 : (0 <= h_shares h)%Z).
      { rewrite Hs. apply Qfloor_nonneg. apply Qle_shift_div_l; [exact Hlt |].
        setoid_replace (0 * pr) with 0 by ring. apply Qmult_le_0_compat; lra. }
      assert (Hc : 0 <= inject_Z (h_shares h) * pr).
      { apply Qmult_le_0_compat; [| lra]. change 0 with (inject_Z 0). rewrite <- Zle_Qle. exact H0. }
      pose proof (py_round_cents_err (inject_Z (h_shares h) * pr)) as [_ Hhi].
      split; [apply py_round_nonneg; exact Hc | lra].
    + destruct Hun as [Hs ->]; [right; exists pr; auto |]. rewrite Hs.
      setoid_replace (inject_Z 0 * pr) with 0 by (change (inject_Z 0) with 0; ring).
      split; [lra | discriminate].
  - destruct Hun as [_ ->]; [left; reflexivity |]. split; [lra | discriminate].
Qed.

Lemma sum_allocated_near_cost (budget : Q) (last_prices : Series)
      (pairs : list (string * Q)) (hs : list Holding) :
  0 <= budget ->
  Forall (fun tw => 0 < snd tw) pairs ->
  Forall2 (fun tw h => allocate_one budget last_prices tw = Ok h) pairs hs ->
  0 <= sum_allocated hs
  /\ sum_allocated hs <= total_cost hs + of_nat (length hs) * (1 # 200).
Proof.
  intros Hb Hpos H. unfold sum_allocated, total_cost.
  induction H as [| tw h pairs hs Hh _ IH].
  - simpl. change (of_nat 0) with 0. split; lra.
  - inversion Hpos as [| ? ? Hw Hpos']; subst.
    destruct (allocated_near_cost _ _ _ _ Hb Hw Hh) as [H0 H1].
    destruct (IH Hpos') as [I0 I1].
    change (length (h :: hs)) with (S (length hs)). rewrite of_nat_S. simpl. split; lra.
Qed.

(** X4.  For a budget [>= 0] the allocated field is never negative and
    exceeds the budget by at most half a cent per holding; the remaining
    field is at most the budget plus half a cent, and at least minus half a
    cent per holding and one more half. *)
Theorem allocated_within_budget_up_to_rounding
        (sort_values : list (string * Q) -> list (string * Q)) (sqrtQ : Q -> Q)
        (fill_pad : bool) (top_n : nat) (budget : Q) (risk_level : string)
        (prices_df : option DataFrame) (risk_report : RiskReport) (p : Portfolio) :
  generate_portfolio sort_values sqrtQ fill_pad top_n budget risk_level prices_df risk_report
  = Ok p ->
  0 <= budget ->
  let slack := of_nat (length (p_holdings p)) * (1 # 200) in
  0 <= p_allocated p
  /\ p_allocated p <= budget + slack
  /\ - slack - (1 # 200) <= p_remaining p
  /\ p_remaining p <= budget + (1 # 200).
Proof.
  intros H Hb. cbv zeta.
  destruct (generate_portfolio_planned _ _ _ _ _ _ _ _ _ H) as [pairs [_ [Hpos [Hsum Hall]]]].
  destruct (sum_allocated_near_cost _ _ _ _ Hb Hpos Hall) as [H0 H1].
  pose proof (total_cost_under_weights _ _ _ _ Hb Hpos Hall) as Hcost.
  assert (Hm : budget * np_sum (map snd pairs) <= budget * 1).
  { rewrite (Qmult_comm budget (np_sum (map snd pairs))), (Qmult_comm budget 1).
    apply Qmult_le_compat_r; assumption. }
  apply generate_portfolio_built in H.
  destruct H as [msg -> _ | df ranked ps remaining _ _ _ _ _ Hall' Hrem _ Ha Hr _].
  - simpl. change (of_nat 0) with 0.
    pose proof (py_round_cents_err budget) as [Hlo Hhi].
    repeat split; lra.
  - pose proof (sum_allocated_cents _ _ _ _ Hall') as Hcents.
    assert (Halloc : p_allocated p == sum_allocated (p_holdings p)).
    { rewrite Ha.
      rewrite (py_round_comp (budget - remaining) (sum_allocated (p_holdings p)))
        by (rewrite Hrem; ring).
      apply py_round_of_cents. exact Hcents. }
    pose proof (py_round_cents_err remaining) as [Hlo Hhi]. rewrite <- Hr in Hlo, Hhi.
    repeat split; lra.
Qed.

Lemma allocated_within_budget_up_to_rounding_witness :
  exists p,
    generate_portfolio stable_sort sqrt_approx true 5 (100 # 1) "moderate"
                       (Some demo_prices) demo_report = Ok p
    /\ 0 <= p_allocated p
    /\ p_allocated p <= (100 # 1) + of_nat (length (p_holdings p)) * (1 # 200).
Proof.
  eexists. split; [vm_compute; reflexivity |].
  destruct (allocated_within_budget_up_to_rounding stable_sort sqrt_approx true 5 (100 # 1)
              "moderate" (Some demo_prices) demo_report _
              ltac:(vm_compute; reflexivity) ltac:(apply Qle_bool_iff; reflexivity))
    as [H0 [H1 _]].
  split; [exact H0 | exact H1].
Defined.

(** X5.  With a budget [>= 0], if the last price of every ticker of the
    table is missing, not positive or above the budget, no share is bought:
    every holding has 0 shares and nothing allocated, the portfolio
    allocates 0 and the whole budget, rounded to cents, remains. *)
Theorem nothing_bought_when_too_expensive
        (sort_values : list (string * Q) -> list (string * Q)) (sqrtQ : Q -> Q)
        (fill_pad : bool) (top_n : nat) (budget : Q) (risk_level : string)
        (df : DataFrame) (risk_report : RiskReport) (p : Portfolio) :
  generate_portfolio sort_values sqrtQ fill_pad top_n budget risk_level (Some df) risk_report
  = Ok p ->
  0 <= budget ->
  Forall (fun c => forall pr, last (snd c) None = Some pr -> pr <= 0 \/ budget < pr) df ->
  Forall (fun h => h_shares h = 0%Z /\ h_allocated h == 0) (p_holdings p)
  /\ p_allocated p == 0
  /\ p_remaining p == py_round budget 2.
Proof.
  intros H Hb Hdear.
  destruct (generate_portfolio_planned _ _ _ _ _ _ _ _ _ H) as [pairs [_ [Hpos [Hsum Hall]]]].
  simpl in Hall.
  assert (Hnone : Forall (fun h => h_shares h = 0%Z /\ h_allocated h == 0) (p_holdings p)).
  { assert (Hle1 : Forall (fun tw => snd tw <= 1) pairs).
    { apply Forall_forall. intros tw Hin. exact (pair_weight_le_1 _ tw Hpos Hsum Hin). }
    clear Hsum H.
    induction Hall as [| tw h pairs hs Hh _ IH]; [constructor |].
    inversion Hpos as [| ? ? Hw Hpos']; subst. inversion Hle1 as [| ? ? Hw1 Hle1']; subst.
    constructor; [| exact (IH Hpos' Hle1')].
    apply allocate_one_spec in Hh. destruct Hh as [_ [_ [Hp [Hpriced Hun]]]].
    destruct (h_price h) as [pr |] eqn:E.
    - assert (Hcase : pr <= 0 \/ budget < pr).
      { unfold price_at in Hp.
        destruct (dict_get (iloc_last df) (fst tw)) as [c |] eqn:G; [| discriminate Hp].
        subst c. apply dict_get_In in G. unfold iloc_last in G.
        apply in_map_iff in G. destruct G as [col [Ecol Hcol]].
        injection Ecol as _ Elast.
        rewrite Forall_forall in Hdear. exact (Hdear col Hcol pr Elast). }
      destruct (Qlt_le_dec 0 pr) as [Hlt | Hle].
      + destruct Hcase as [Hc | Hc]; [lra |].
        destruct (Hpriced pr eq_refl Hlt) as [Hs Ha].
        assert (Hz : h_shares h = 0%Z).
        { rewrite Hs. apply Qfloor_unit.
          - apply Qle_shift_div_l; [exact Hlt |].
            setoid_replace (0 * pr) with 0 by ring. apply Qmult_le_0_compat; lra.
          - apply Qlt_shift_div_r; [exact Hlt |].
            assert (budget * snd tw <= budget * 1).
            { rewrite (Qmult_comm budget (snd tw)), (Qmult_comm budget 1).
              apply Qmult_le_compat_r; assumption. }
            lra. }
        split; [exact Hz |]. rewrite Ha, Hz. apply py_round_0.
        change (inject_Z 0) with 0. ring.
      + destruct Hun as [-> ->]; [right; exists pr; auto |]. split; reflexivity.
    - destruct Hun as [-> ->]; [left; reflexivity |]. split; reflexivity. }
  assert (Hzero : sum_allocated (p_holdings p) == 0).
  { unfold sum_allocated. apply np_sum_zeros. rewrite Forall_map.
    eapply Forall_impl; [| exact Hnone]. intros h [_ Hh]. exact Hh. }
  split; [exact Hnone |].
  apply generate_portfolio_built in H.
  destruct H as [msg -> _ | df' ranked ps remaining _ _ _ _ _ _ Hrem _ Ha Hr _].
  - simpl. split; reflexivity.
  - rewrite Ha, Hr. split.
    + apply py_round_0. rewrite Hrem, Hzero. ring.
    + apply py_round_comp. rewrite Hrem, Hzero. ring.
Qed.

Lemma nothing_bought_when_too_expensive_witness :
  exists p,
    generate_portfolio stable_sort sqrt_approx true 5 (9 # 10) "low"
                       (Some demo_prices) demo_report = Ok p
    /\ Forall (fun h => h_shares h = 0%Z /\ h_allocated h == 0) (p_holdings p)
    /\ p_allocated p == 0
    /\ p_remaining p == py_round (9 # 10) 2.
Proof.
  eexists. split; [vm_compute; reflexivity |].
  apply (nothing_bought_when_too_expensive stable_sort sqrt_approx true 5 (9 # 10) "low"
           demo_prices demo_report).
  - vm_compute. reflexivity.
  - apply Qle_bool_iff. reflexivity.
  - unfold demo_prices.
    apply Forall_cons; [intros pr E; injection E as <-; right; reflexivity |].
    apply Forall_cons; [intros pr E; injection E as <-; right; reflexivity |].
    apply Forall_cons; [intros pr E; injection E as <-; right; reflexivity |].
    apply Forall_nil.
Defined.

(** ** More on the portfolio agent: the high policy and unknown tickers *)

Lemma StronglySorted_skipn {A : Type} (R : A -> A -> Prop) (k : nat) (l : list A) :
  StronglySorted R l -> StronglySorted R (skipn k l).
Proof.
  revert l. induction k as [| k IH]; intros l H; [exact H |].
  destruct l as [| a l]; [exact H |]. inversion H; subst. simpl. apply IH. assumption.
Qed.

Lemma StronglySorted_slice_last {A : Type} (R : A -> A -> Prop) (n : nat) (l : list A) :
  StronglySorted R l -> StronglySorted R (slice_last n l).
Proof.
  intros H. unfold slice_last. destruct (Nat.eqb n 0); [exact H |].
  apply StronglySorted_skipn. exact H.
Qed.

Lemma StronglySorted_map {A B : Type} (R : A -> A -> Prop) (R' : B -> B -> Prop)
      (f : A -> B) (l : list A) :
  (forall a b, In a l -> In b l -> R a b -> R' (f a) (f b)) ->
  StronglySorted R l -> StronglySorted R' (map f l).
Proof.
  intros Hf H. induction H as [| a l Hl IH Ha]; simpl; constructor.
  - apply IH. intros x y Hx Hy. apply Hf; right; assumption.
  - rewrite Forall_map. rewrite Forall_forall in *. intros b Hb.
    apply Hf; [left; reflexivity | right; exact Hb | exact (Ha b Hb)].
Qed.

Lemma StronglySorted_Qeq (l1 l2 : list Q) :
  Forall2 Qeq l1 l2 -> StronglySorted Qle l2 -> StronglySorted Qle l1.
Proof.
  induction 1 as [| x y l1 l2 Hxy Hl IH]; intros H; [constructor |].
  inversion H as [| ? ? Hs Hall]; subst. constructor; [exact (IH Hs) |].
  clear IH Hs H. induction Hl as [| a b l1 l2 Hab _ IHl]; [constructor |].
  inversion Hall as [| ? ? Hyb Hall']; subst.
  constructor; [rewrite Hxy, Hab; exact Hyb | exact (IHl Hall')].
Qed.

(** X6.  With [risk_level = 'high'], when no volatility of the universe
    lies strictly between 0 and [1e-6], the holdings come in ascending
    volatility and their weights never decrease along them: a higher
    volatility never gets a lower weight. *)
Theorem high_weights_follow_volatility
        (sort_values : list (string * Q) -> list (string * Q)) (sqrtQ : Q -> Q)
        (fill_pad : bool) (top_n : nat) (budget : Q)
        (df : DataFrame) (risk_report : RiskReport) (p : Portfolio) :
  sorts sort_values ->
  PriceTable df -> dict_wf risk_report -> df_empty df = false -> (1 <= top_n)%nat ->
  (forall e, In e (universe_vol sqrtQ fill_pad df risk_report) ->
             0 < snd e -> epsilon <= snd e) ->
  generate_portfolio sort_values sqrtQ fill_pad top_n budget "high" (Some df) risk_report
  = Ok p ->
  let top := slice_last (holdings_count sqrtQ fill_pad top_n df risk_report)
                        (ranking sort_values sqrtQ fill_pad df risk_report) in
  StronglySorted by_vol top
  /\ map h_ticker (p_holdings p) = columns top
  /\ exists weights,
      planned_pairs sort_values sqrtQ fill_pad top_n "high" (Some df) risk_report
      = Ok (combine (columns top) weights)
      /\ length weights = length top
      /\ StronglySorted Qle weights.
Proof.
  intros Hsort Hpt Hd Hne Htop Hthr H. cbv zeta.
  destruct (portfolio_of_policy sort_values Hsort sqrtQ fill_pad top_n budget "high"
              df risk_report p Hpt Hd Hne Htop H)
    as [chosen [weights [final [Hc [Hn [Hplan [Hlf [Hfw [Ht _]]]]]]]]].
  destruct Hpt as [Hdf _].
  destruct (ranking_facts sort_values Hsort sqrtQ fill_pad df risk_report Hd Hdf Hne)
    as [Hperm [Hsorted [Hnd _]]].
  rewrite (choose_weights_high_exact _ _ Hnd Hn) in Hc. injection Hc as <- <-.
  set (top := slice_last (holdings_count sqrtQ fill_pad top_n df risk_report)
                         (ranking sort_values sqrtQ fill_pad df risk_report)) in *.
  assert (Hts : StronglySorted by_vol top) by (apply StronglySorted_slice_last; exact Hsorted).
  split; [exact Hts |]. split; [exact Ht |].
  exists final. split; [exact Hplan |].
  split; [rewrite Hlf; unfold columns; apply length_map |].
  apply (StronglySorted_Qeq _ _ Hfw).
  unfold proportional.
  assert (Hvne : substitute_epsilon (map snd top) <> []).
  { intros E. apply (f_equal (@length Q)) in E.
    unfold substitute_epsilon, top in E.
    rewrite !length_map, slice_last_length in E by exact Hn. simpl in E. lia. }
  pose proof (np_sum_pos _ (substitute_epsilon_pos (map snd top)) Hvne) as Hs.
  apply (StronglySorted_map Qle Qle).
  { intros a b _ _ Hab. apply Qdiv_le_compat; assumption. }
  unfold substitute_epsilon. rewrite map_map.
  apply (StronglySorted_map by_vol Qle); [| exact Hts].
  intros a b Ha Hb Hab. unfold by_vol in Hab.
  assert (Hthr' : forall e, In e top -> 0 < snd e -> epsilon <= snd e).
  { intros e He. apply Hthr. apply (Permutation_in _ Hperm).
    unfold top in He. exact (slice_last_incl _ _ _ He). }
  destruct (Qle_bool (snd a) 0) eqn:Ea, (Qle_bool (snd b) 0) eqn:Eb; reflect_comparisons.
  - lra.
  - apply Hthr'; assumption.
  - lra.
  - exact Hab.
Qed.

Lemma high_weights_follow_volatility_witness :
  exists p,
    generate_portfolio stable_sort sqrt_approx true 5 (1000 # 1) "high"
                       (Some two_prices) two_report = Ok p
    /\ map h_ticker (p_holdings p)
       = columns (slice_last (holdings_count sqrt_approx true 5 two_prices two_report)
                             (ranking stable_sort sqrt_approx true two_prices two_report)).
Proof.
  eexists. split; [vm_compute; reflexivity |].
  eapply (high_weights_follow_volatility stable_sort sqrt_approx true 5 (1000 # 1)
            two_prices two_report).
  - exact stable_sort_sorts.
  - exact two_prices_PriceTable.
  - exact two_report_wf.
  - reflexivity.
  - lia.
  - intros e He Hpos. vm_compute in He.
    destruct He as [<- | [<- | []]]; [vm_compute in Hpos; discriminate Hpos | vm_compute; discriminate].
  - vm_compute. reflexivity.
Defined.

(** Below the threshold the order flips: at volatility 0 a ticker is
    weighted as if at [1e-6], ten times what one at [1e-7] gets. *)
Remark tiny_volatility_outweighed :
  exists pairs,
    planned_pairs stable_sort sqrt_approx true 5 "high" (Some two_prices)
      {| volatility := Some [("JNJ"%string, Some 0); ("TSLA"%string, Some (1 # 10000000))];
         drawdown := []; risk_score := [];
         summary := {| avg_volatility := None; max_volatility := None;
                       min_volatility := None |} |}
    = Ok pairs
    /\ Forall2 (fun tw e => fst tw = fst e /\ snd tw == snd e) pairs
               [("JNJ"%string, 10 # 11); ("TSLA"%string, 1 # 11)].
Proof.
  eexists. split; [vm_compute; reflexivity |].
  repeat constructor; reflexivity.
Qed.

Lemma filter_none {A : Type} (f : A -> bool) (l : list A) :
  (forall x, In x l -> f x = false) -> filter f l = [].
Proof.
  induction l as [| a l IH]; intros H; [reflexivity |].
  simpl. rewrite (H a) by (left; reflexivity). apply IH. intros x Hx. apply H. right. exact Hx.
Qed.

Lemma proportional_equal (vols : list Q) (c : Q) :
  0 < c -> Forall (fun v => v == c) vols ->
  Forall (fun w => w == 1 / of_nat (length vols)) (proportional vols).
Proof.
  intros Hc H.
  assert (Hsum : np_sum vols == of_nat (length vols) * c).
  { induction H as [| v vols Hv _ IH]; [simpl; change (of_nat 0) with 0; ring |].
    change (length (v :: vols)) with (S (length vols)). rewrite of_nat_S. simpl.
    rewrite Hv, IH. ring. }
  unfold proportional. rewrite Forall_map. apply Forall_forall. intros v Hv.
  rewrite Forall_forall in H. rewrite (H v Hv), Hsum.
  assert (Hn : 0 < of_nat (length vols)).
  { apply of_nat_pos. destruct vols; [destruct Hv | simpl; lia]. }
  field. split; lra.
Qed.

(** X7.  When the report names volatilities but none of its tickers is a
    column of the table, the universe is the whole table with every
    volatility at 0; the ['high'] policy then weighs the holdings equally,
    [1 / N] each with [N = min(top_n, number of columns)]. *)
Theorem unknown_tickers_fall_back_to_table
        (sort_values : list (string * Q) -> list (string * Q)) (sqrtQ : Q -> Q)
        (fill_pad : bool) (top_n : nat) (budget : Q)
        (df : DataFrame) (risk_report : RiskReport) (d : Series) (p : Portfolio) :
  sorts sort_values ->
  PriceTable df -> dict_wf risk_report -> df_empty df = false -> (1 <= top_n)%nat ->
  volatility risk_report = Some d -> d <> [] ->
  (forall t, In t (columns d) -> ~ In t (columns df)) ->
  generate_portfolio sort_values sqrtQ fill_pad top_n budget "high" (Some df) risk_report
  = Ok p ->
  universe_vol sqrtQ fill_pad df risk_report = map (fun t => (t, 0)) (columns df)
  /\ length (p_holdings p) = Nat.min top_n (length (columns df))
  /\ exists pairs,
      planned_pairs sort_values sqrtQ fill_pad top_n "high" (Some df) risk_report = Ok pairs
      /\ map fst pairs = map h_ticker (p_holdings p)
      /\ Forall (fun tw => snd tw == 1 / of_nat (Nat.min top_n (length (columns df)))) pairs.
Proof.
  intros Hsort Hpt Hd Hne Htop Hvol Hdne Hmiss H.
  assert (Hseries : vol_series sqrtQ fill_pad df risk_report = d).
  { unfold vol_series. rewrite Hvol. destruct d; [congruence | reflexivity]. }
  assert (Hres : resolve_universe df d = columns df).
  { unfold resolve_universe, _sanitize_tickers. rewrite filter_none; [reflexivity |].
    intros t Ht. destruct (mem t (columns df)) eqn:E; [| reflexivity].
    apply mem_In in E. exfalso. exact (Hmiss t Ht E). }
  assert (Huni : universe_vol sqrtQ fill_pad df risk_report = map (fun t => (t, 0)) (columns df)).
  { unfold universe_vol, fillna0. rewrite Hseries, Hres, map_map. apply map_ext_in.
    intros t Ht. simpl. rewrite dict_get_absent; [reflexivity |].
    intros Hin. exact (Hmiss t Hin Ht). }
  split; [exact Huni |].
  destruct (portfolio_of_policy sort_values Hsort sqrtQ fill_pad top_n budget "high"
              df risk_report p Hpt Hd Hne Htop H)
    as [chosen [weights [final [Hc [Hn [Hplan [Hlf [Hfw [Ht _]]]]]]]]].
  destruct Hpt as [Hdf _].
  destruct (ranking_facts sort_values Hsort sqrtQ fill_pad df risk_report Hd Hdf Hne)
    as [Hperm [_ [Hnd _]]].
  rewrite (choose_weights_high_exact _ _ Hnd Hn) in Hc. injection Hc as <- <-.
  assert (Hcount : holdings_count sqrtQ fill_pad top_n df risk_report
                   = Nat.min top_n (length (columns df))).
  { unfold holdings_count. rewrite Hseries, Hres. reflexivity. }
  rewrite Hcount in *.
  set (n := Nat.min top_n (length (columns df))) in *.
  set (top := slice_last n (ranking sort_values sqrtQ fill_pad df risk_report)) in *.
  assert (Hlt : length top = n) by (apply slice_last_length; exact Hn).
  assert (Hlc : length (columns top) = n) by (unfold columns; rewrite length_map; exact Hlt).
  split.
  { rewrite <- (length_map h_ticker), Ht. exact Hlc. }
  exists (combine (columns top) final). split; [exact Hplan |].
  split; [rewrite map_fst_combine by (symmetry; exact Hlf); symmetry; exact Ht |].
  assert (Hzero : Forall (fun v => v == epsilon) (substitute_epsilon (map snd top))).
  { unfold substitute_epsilon. rewrite !Forall_map. apply Forall_forall. intros e He.
    assert (Hin : In e (universe_vol sqrtQ fill_pad df risk_report)).
    { apply (Permutation_in _ Hperm). exact (slice_last_incl _ _ _ He). }
    rewrite Huni in Hin. apply in_map_iff in Hin. destruct Hin as [t [<- _]]. reflexivity. }
  pose proof (proportional_equal _ epsilon eq_refl Hzero) as Heq.
  unfold substitute_epsilon in Heq at 1. rewrite !length_map, Hlt in Heq.
  apply (Forall_combine_snd (fun w => w == 1 / of_nat n)).
  clear - Hfw Heq. induction Hfw as [| x y l1 l2 Hxy _ IH]; [constructor |].
  inversion Heq; subst. constructor; [rewrite Hxy; assumption | apply IH; assumption].
Qed.

Lemma unknown_tickers_fall_back_to_table_witness :
  exists p,
    generate_portfolio stable_sort sqrt_approx true 2 (1000 # 1) "high"
                       (Some demo_prices) foreign_report = Ok p
    /\ length (p_holdings p) = Nat.min 2 (length (columns demo_prices)).
Proof.
  eexists. split; [vm_compute; reflexivity |].
  eapply (unknown_tickers_fall_back_to_table stable_sort sqrt_approx true 2 (1000 # 1)
            demo_prices foreign_report).
  - exact stable_sort_sorts.
  - exact demo_prices_PriceTable.
  - intros d E. injection E as <-. apply nodupb_NoDup. reflexivity.
  - reflexivity.
  - lia.
  - reflexivity.
  - discriminate.
  - intros t Ht Hin. simpl in Ht, Hin.
    destruct Ht as [<- | [<- | []]]; destruct Hin as [E | [E | [E | []]]]; discriminate E.
  - vm_compute. reflexivity.
Defined.

(** ** More on the risk agent: the summary *)






(** ** More on the risk agent: steady and rising prices, extreme scores *)

Lemma cummax_from_sorted (xs : list Q) :
  forall m, StronglySorted Qle (m :: xs) -> cummax_from m xs = xs.
Proof.
  induction xs as [| x xs IH]; intros m H; [reflexivity |].
  inversion H as [| ? ? Hs Hall]; subst. inversion Hall as [| ? ? Hmx _]; subst.
  simpl. unfold cummax_step. apply Qle_bool_iff in Hmx. rewrite Hmx.
  rewrite (IH x Hs). reflexivity.
Qed.

Lemma cummax_sorted (xs : list Q) : StronglySorted Qle xs -> cummax xs = xs.
Proof.
  intros H. destruct xs as [| x xs]; [reflexivity |].
  simpl. rewrite (cummax_from_sorted xs x H). reflexivity.
Qed.

Lemma combine_self_In {A : Type} (l : list A) (a b : A) : In (a, b) (combine l l) -> a = b.
Proof.
  induction l as [| x l IH]; simpl; intros H; [contradiction |].
  destruct H as [H | H]; [congruence | exact (IH H)].
Qed.

(** X9.  A ticker whose prices are positive and never fall has a maximum
    drawdown of 0. *)
Theorem rising_prices_have_no_drawdown (sqrtQ : Q -> Q) (fill_pad : bool)
        (prices_df : DataFrame) :
  Forall2 (fun c e =>
             let series := values_present (snd c) in
             fst e = fst c
             /\ (Forall (fun x => 0 < x) series -> StronglySorted Qle series ->
                 exists q, snd e = Fin q /\ q == 0))
          prices_df (drawdown (assess_universe sqrtQ fill_pad prices_df)).
Proof.
  unfold assess_universe. simpl.
  apply Forall2_map_self. intros c _. simpl. split; [reflexivity |].
  intros Hpos Hsorted.
  destruct (values_present (snd c)) as [| x xs] eqn:V; simpl.
  - exists 0. split; reflexivity.
  - destruct (max_drawdown_range (x :: xs)) as [q [Hq [_ [_ [Hin _]]]]];
      [discriminate | exact Hpos |].
    exists q. split; [exact Hq |].
    unfold drawdowns_of in Hin. rewrite (cummax_sorted _ Hsorted) in Hin.
    apply in_map_iff in Hin. destruct Hin as [[s m] [<- Hsm]].
    pose proof (in_combine_l _ _ _ _ Hsm) as Hl.
    apply combine_self_In in Hsm. subst m. simpl.
    assert (Hs : 0 < s) by (rewrite Forall_forall in Hpos; exact (Hpos s Hl)).
    field. lra.
Qed.

Lemma ffill_from_full (q : Q) (col : list cell) :
  Forall (fun x => x = Some q) col -> forall prev, ffill_from prev col = col.
Proof.
  induction 1 as [| c col Hc _ IH]; intros prev; [reflexivity |].
  subst c. simpl. rewrite IH. reflexivity.
Qed.

Lemma pct_from_constant (q : Q) (col : list cell) :
  Forall (fun x => x = Some q) col ->
  forall prev, prev = None \/ prev = Some q -> Forall flat (pct_from prev col).
Proof.
  induction 1 as [| c col Hc _ IH]; intros prev Hprev; [constructor |].
  subst c. simpl. constructor; [| apply IH; right; reflexivity].
  destruct Hprev as [-> | ->]; [exact I | apply pct_self_flat].
Qed.

(** X10.  A ticker whose price is the same non-missing value on every date
    has volatility 0, whatever the other tickers do. *)
Theorem steady_price_has_no_volatility (sqrtQ : Q -> Q) (fill_pad : bool)
        (prices_df : DataFrame) :
  sqrt_like sqrtQ ->
  exists vol,
    volatility (assess_universe sqrtQ fill_pad prices_df) = Some vol
    /\ Forall2 (fun c e =>
                  fst e = fst c
                  /\ forall q, Forall (fun x => x = Some q) (snd c) ->
                               exists v, snd e = Some v /\ v == 0)
               prices_df vol.
Proof.
  intros Hsqrt. eexists. split; [reflexivity |].
  unfold fillna0, annualized_vol, dropna, pct_change. rewrite !map_map. simpl.
  set (M := row_mask _ _).
  apply Forall2_map_self. intros c _. simpl. split; [reflexivity |].
  intros q Hq.
  match goal with
  | |- context [std sqrtQ ?col] =>
      assert (Hflat : Forall flat col);
        [| destruct (std sqrtQ col) as [s |] eqn:S; cbn [option_map]]
  end.
  - apply take_mask_Forall.
    destruct fill_pad.
    + unfold ffill. rewrite (ffill_from_full q _ Hq).
      apply (pct_from_constant q); [exact Hq | left; reflexivity].
    + apply (pct_from_constant q); [exact Hq | left; reflexivity].
  - exists (s * sqrtQ (252 # 1)). split; [reflexivity |].
    pose proof (std_flat sqrtQ Hsqrt _ _ Hflat S) as Hz. rewrite Hz. ring.
  - exists 0. split; reflexivity.
Qed.

Lemma steady_price_has_no_volatility_witness :
  exists vol,
    volatility (assess_universe sqrt_approx true demo_prices) = Some vol
    /\ Forall2 (fun c e =>
                  fst e = fst c
                  /\ forall q, Forall (fun x => x = Some q) (snd c) ->
                               exists v, snd e = Some v /\ v == 0)
               demo_prices vol.
Proof.
  apply (steady_price_has_no_volatility sqrt_approx true demo_prices sqrt_approx_sqrt_like).
Defined.

Lemma counts_without (e : string * Q) (l : list (string * Q)) :
  ~ In e l ->
  (forall e', In e' l -> snd e' < snd e) ->
  below (snd e) (map snd l) = length l /\ tied (snd e) (map snd l) = 0%nat.
Proof.
  unfold below, tied, count_if. induction l as [| a l IH]; intros Hnot Hlt; [split; reflexivity |].
  destruct IH as [IH1 IH2]; [intros H; apply Hnot; right; exact H
                            | intros e' He'; apply Hlt; right; exact He' |].
  assert (Ha : snd a < snd e) by (apply Hlt; left; reflexivity).
  simpl. rewrite Qeq_bool_false by lra.
  destruct (Qle_bool (snd e) (snd a)) eqn:E; reflect_comparisons; [lra |].
  simpl. rewrite IH1, IH2. split; reflexivity.
Qed.

Lemma counts_of_strict_max (e : string * Q) (l : list (string * Q)) :
  NoDup l -> In e l ->
  (forall e', In e' l -> e' <> e -> snd e' < snd e) ->
  below (snd e) (map snd l) = (length l - 1)%nat /\ tied (snd e) (map snd l) = 1%nat.
Proof.
  induction l as [| a l IH]; intros Hnd Hin Hlt; [destruct Hin |].
  inversion Hnd as [| ? ? Hnotin Hnd']; subst.
  destruct Hin as [-> | Hin].
  - destruct (counts_without e l Hnotin) as [C1 C2].
    { intros e' He'. apply Hlt; [right; exact He' |]. intros ->. contradiction. }
    unfold below, tied, count_if in *. simpl.
    assert (E1 : Qle_bool (snd e) (snd e) = true) by (apply Qle_bool_iff; lra).
    assert (E2 : Qeq_bool (snd e) (snd e) = true) by (apply Qeq_bool_iff; reflexivity).
    rewrite E1, E2. simpl. rewrite C1, C2. split; lia.
  - assert (Hae : a <> e) by (intros ->; contradiction).
    assert (Ha : snd a < snd e) by (apply Hlt; [left; reflexivity | exact Hae]).
    destruct IH as [IH1 IH2]; [exact Hnd' | exact Hin
                              | intros e' He'; apply Hlt; right; exact He' |].
    unfold below, tied, count_if in *. simpl.
    rewrite Qeq_bool_false by lra.
    destruct (Qle_bool (snd e) (snd a)) eqn:E; reflect_comparisons; [lra |].
    simpl. rewrite IH1, IH2.
    destruct l; [destruct Hin | simpl; split; lia].
Qed.

Lemma counts_of_strict_min (e : string * Q) (l : list (string * Q)) :
  NoDup l -> In e l ->
  (forall e', In e' l -> e' <> e -> snd e < snd e') ->
  below (snd e) (map snd l) = 0%nat /\ tied (snd e) (map snd l) = 1%nat.
Proof.
  assert (Hout : forall l', ~ In e l' -> (forall e', In e' l' -> snd e < snd e') ->
                            below (snd e) (map snd l') = 0%nat
                            /\ tied (snd e) (map snd l') = 0%nat).
  { unfold below, tied, count_if. induction l' as [| a l' IH]; intros Hnot Hlt;
      [split; reflexivity |].
    destruct IH as [IH1 IH2]; [intros H; apply Hnot; right; exact H
                              | intros e' He'; apply Hlt; right; exact He' |].
    assert (Ha : snd e < snd a) by (apply Hlt; left; reflexivity).
    simpl. rewrite Qeq_bool_false by lra.
    assert (E : Qle_bool (snd e) (snd a) = true) by (apply Qle_bool_iff; lra).
    rewrite E. simpl. split; assumption. }
  induction l as [| a l IH]; intros Hnd Hin Hlt; [destruct Hin |].
  inversion Hnd as [| ? ? Hnotin Hnd']; subst.
  destruct Hin as [-> | Hin].
  - destruct (Hout l Hnotin) as [C1 C2].
    { intros e' He'. apply Hlt; [right; exact He' |]. intros ->. contradiction. }
    unfold below, tied, count_if in *. simpl.
    assert (E1 : Qle_bool (snd e) (snd e) = true) by (apply Qle_bool_iff; lra).
    assert (E2 : Qeq_bool (snd e) (snd e) = true) by (apply Qeq_bool_iff; reflexivity).
    rewrite E1, E2. simpl. rewrite C1, C2. split; reflexivity.
  - assert (Hae : a <> e) by (intros ->; contradiction).
    assert (Ha : snd e < snd a) by (apply Hlt; [left; reflexivity | exact Hae]).
    destruct IH as [IH1 IH2]; [exact Hnd' | exact Hin
                              | intros e' He'; apply Hlt; right; exact He' |].
    unfold below, tied, count_if in *. simpl.
    rewrite Qeq_bool_false by lra.
    assert (E : Qle_bool (snd e) (snd a) = true) by (apply Qle_bool_iff; lra).
    rewrite E. simpl. split; assumption.
Qed.

(** X11.  In a table with unique tickers, a ticker whose volatility is
    strictly above every other one has the risk score 1, and a ticker whose
    volatility is strictly below every other one has the risk score
    [1 / n], [n] being the number of tickers. *)
Theorem extreme_volatility_scores (sqrtQ : Q -> Q) (fill_pad : bool) (prices_df : DataFrame) :
  NoDup (columns prices_df) ->
  let report := assess_universe sqrtQ fill_pad prices_df in
  let vol := fillna0 (annualized_vol sqrtQ fill_pad prices_df) in
  forall e s,
    In (e, s) (combine vol (risk_score report)) ->
    fst s = fst e
    /\ ((forall e', In e' vol -> e' <> e -> snd e' < snd e) -> snd s == 1)
    /\ ((forall e', In e' vol -> e' <> e -> snd e < snd e') ->
        snd s == 1 / of_nat (length vol)).
Proof.
  intros Hnd. cbv zeta.
  set (vol := fillna0 (annualized_vol sqrtQ fill_pad prices_df)).
  assert (Hscore : risk_score (assess_universe sqrtQ fill_pad prices_df)
                   = map (fun e => (fst e, rank_average (map snd vol) (snd e)
                                           / of_nat (length vol))) vol)
    by reflexivity.
  rewrite Hscore.
  assert (Hcols : columns vol = columns prices_df).
  { unfold vol, fillna0, columns. rewrite map_map. simpl.
    fold (columns (annualized_vol sqrtQ fill_pad prices_df)).
    apply columns_annualized_vol. }
  assert (Hvnd : NoDup vol).
  { apply (NoDup_map_inv fst). fold (columns vol). rewrite Hcols. exact Hnd. }
  intros e s Hin. apply in_combine_map_self in Hin. destruct Hin as [He ->]. simpl.
  assert (Hn : (1 <= length vol)%nat) by (destruct vol; [destruct He | simpl; lia]).
  assert (Hpos : 0 < of_nat (length vol)) by (apply of_nat_pos; lia).
  assert (Hpred : of_nat (length vol - 1) + 1 == of_nat (length vol)).
  { rewrite <- of_nat_S. replace (S (length vol - 1)) with (length vol) by lia. reflexivity. }
  split; [reflexivity |]. split.
  - intros Hmax. destruct (counts_of_strict_max e vol Hvnd He Hmax) as [C1 C2].
    rewrite rank_average_counts, C1, C2. change (of_nat 1) with 1.
    setoid_replace (of_nat (length vol - 1) + (1 + 1) / 2) with (of_nat (length vol))
      by (rewrite <- Hpred; field).
    field. lra.
  - intros Hmin. destruct (counts_of_strict_min e vol Hvnd He Hmin) as [C1 C2].
    rewrite rank_average_counts, C1, C2. change (of_nat 1) with 1. change (of_nat 0) with 0.
    field. lra.
Qed.

Lemma extreme_volatility_scores_witness :
  exists e s,
    In (e, s) (combine (fillna0 (annualized_vol sqrt_approx true demo_prices))
                       (risk_score (assess_universe sqrt_approx true demo_prices)))
    /\ fst e = "TSLA"%string
    /\ snd s == 1.
Proof.
  eexists. eexists.
  assert (Hin : In _ (combine (fillna0 (annualized_vol sqrt_approx true demo_prices))
                              (risk_score (assess_universe sqrt_approx true demo_prices))))
    by (vm_compute; right; right; left; reflexivity).
  split; [exact Hin |]. split; [reflexivity |].
  destruct (extreme_volatility_scores sqrt_approx true demo_prices
              ltac:(apply nodupb_NoDup; reflexivity) _ _ Hin) as [_ [Hmax _]].
  apply Hmax. intros e' He' Hne. vm_compute in He'.
  destruct He' as [<- | [<- | [<- | []]]];
    [vm_compute; reflexivity | vm_compute; reflexivity | exfalso; apply Hne; reflexivity].
Defined.

(** ** The report and its fallback agree *)

Lemma dict_get_map {V W : Type} (g : V -> W) (s : list (string * V)) (t : string) :
  dict_get (map (fun e => (fst e, g (snd e))) s) t = option_map g (dict_get s t).
Proof.
  induction s as [| [k v] s IH]; [reflexivity |].
  simpl. rewrite IH. destruct (dict_get s t); [reflexivity |].
  simpl. destruct (String.eqb t k); reflexivity.
Qed.

Lemma ranked_volatility_of_own_report
      (sort_values : list (string * Q) -> list (string * Q)) (sqrtQ : Q -> Q)
      (fill_pad : bool) (df : DataFrame) (blank : RiskReport) :
  volatility blank = None \/ volatility blank = Some [] ->
  ranked_volatility sort_values sqrtQ fill_pad df (assess_universe sqrtQ fill_pad df)
  = ranked_volatility sort_values sqrtQ fill_pad df blank.
Proof.
  intros Hblank.
  set (A := annualized_vol sqrtQ fill_pad df).
  set (g := (fun c => Some (match c with Some q => q | None => 0 end)) : cell -> cell).
  assert (HV : volatility (assess_universe sqrtQ fill_pad df)
               = Some (map (fun e => (fst e, g (snd e))) A)).
  { unfold assess_universe, fillna0. simpl. rewrite map_map. reflexivity. }
  assert (Hsrc1 : volatility_source sqrtQ fill_pad df (assess_universe sqrtQ fill_pad df)
                  = Ok (map (fun e => (fst e, g (snd e))) A)).
  { unfold volatility_source. rewrite HV. fold A. destruct A; reflexivity. }
  assert (Hsrc2 : volatility_source sqrtQ fill_pad df blank = Ok A).
  { unfold volatility_source. destruct Hblank as [-> | ->]; reflexivity. }
  assert (Hcols : columns (map (fun e => (fst e, g (snd e))) A) = columns A).
  { unfold columns. rewrite map_map. reflexivity. }
  assert (Hres : resolve_universe df (map (fun e => (fst e, g (snd e))) A)
                 = resolve_universe df A).
  { unfold resolve_universe, _sanitize_tickers. rewrite Hcols. reflexivity. }
  unfold ranked_volatility. rewrite Hsrc1, Hsrc2.
  cbn [bind]. rewrite Hres. unfold reindex. rewrite Hcols.
  destruct (list_eq_dec string_dec (columns A) (resolve_universe df A)) as [_ | _].
  - cbn [bind]. do 2 f_equal. unfold fillna0. rewrite map_map. apply map_ext.
    intros [t [q |]]; reflexivity.
  - destruct (nodupb (columns A)); [| reflexivity].
    cbn [bind]. do 2 f_equal. unfold fillna0. rewrite !map_map. apply map_ext.
    intros t. cbn [fst snd]. rewrite dict_get_map.
    destruct (dict_get A t) as [[q |] |]; reflexivity.
Qed.

(** X12.  The portfolio is the same whether the report of the risk agent on
    the table is passed in, or a report without volatilities, for which the
    portfolio agent recomputes them from the table. *)
Theorem fallback_volatility_gives_same_portfolio
        (sort_values : list (string * Q) -> list (string * Q)) (sqrtQ : Q -> Q)
        (fill_pad : bool) (top_n : nat) (budget : Q) (risk_level : string)
        (df : DataFrame) (blank : RiskReport) :
  volatility blank = None \/ volatility blank = Some [] ->
  generate_portfolio sort_values sqrtQ fill_pad top_n budget risk_level (Some df)
                     (assess_universe sqrtQ fill_pad df)
  = generate_portfolio sort_values sqrtQ fill_pad top_n budget risk_level (Some df) blank.
Proof.
  intros Hblank. unfold generate_portfolio.
  rewrite (ranked_volatility_of_own_report sort_values sqrtQ fill_pad df blank Hblank).
  reflexivity.
Qed.

Lemma fallback_volatility_gives_same_portfolio_witness :
  generate_portfolio stable_sort sqrt_approx true 5 (100 # 1) "high" (Some demo_prices)
                     (assess_universe sqrt_approx true demo_prices)
  = generate_portfolio stable_sort sqrt_approx true 5 (100 # 1) "high" (Some demo_prices)
                       blank_report.
Proof.
  apply (fallback_volatility_gives_same_portfolio stable_sort sqrt_approx true 5 (100 # 1)
           "high" demo_prices blank_report).
  right. reflexivity.
Defined.

(** ** The requested universe *)

Lemma upper_char_idem (c : ascii) : upper_char (upper_char c) = upper_char c.
Proof. destruct c as [[] [] [] [] [] [] [] []]; reflexivity. Qed.

Lemma isspace_upper_char (c : ascii) : isspace (upper_char c) = isspace c.
Proof. destruct c as [[] [] [] [] [] [] [] []]; reflexivity. Qed.

Lemma upper_char_comma (c : ascii) : upper_char c = ","%char -> c = ","%char.
Proof. destruct c as [[] [] [] [] [] [] [] []]; vm_compute; congruence. Qed.

Lemma upper_idem (s : string) : upper (upper s) = upper s.
Proof.
  induction s as [| c s IH]; [reflexivity |].
  simpl. rewrite upper_char_idem, IH. reflexivity.
Qed.

Lemma upper_empty (s : string) : upper s = EmptyString -> s = EmptyString.
Proof. destruct s; [reflexivity | discriminate]. Qed.

Lemma truthy_upper (s : string) : truthy (upper s) = truthy s.
Proof. destruct s; reflexivity. Qed.

Lemma truthy_true (s : string) : truthy s = true <-> s <> EmptyString.
Proof.
  unfold truthy. destruct s; simpl; split; intros H; congruence.
Qed.

Lemma lstrip_upper (s : string) : lstrip (upper s) = upper (lstrip s).
Proof.
  induction s as [| c s IH]; [reflexivity |].
  simpl. rewrite isspace_upper_char. destruct (isspace c); [exact IH | reflexivity].
Qed.

Lemma rstrip_upper (s : string) : rstrip (upper s) = upper (rstrip s).
Proof.
  induction s as [| c s IH]; [reflexivity |].
  simpl. rewrite IH, isspace_upper_char.
  destruct (rstrip s) as [| c' kept]; simpl.
  - destruct (isspace c); reflexivity.
  - reflexivity.
Qed.

Lemma strip_upper (s : string) : strip (upper s) = upper (strip s).
Proof. unfold strip. rewrite lstrip_upper, rstrip_upper. reflexivity. Qed.

Lemma lstrip_starts_clean (s : string) : starts_clean (lstrip s).
Proof.
  induction s as [| c s IH]; [exact I |].
  simpl. destruct (isspace c) eqn:E; [exact IH | exact E].
Qed.

Lemma lstrip_of_clean (s : string) : starts_clean s -> lstrip s = s.
Proof.
  destruct s as [| c s]; [reflexivity |].
  simpl. intros ->. reflexivity.
Qed.

Lemma rstrip_starts_clean (s : string) : starts_clean s -> starts_clean (rstrip s).
Proof.
  destruct s as [| c s]; [intros _; exact I |].
  simpl. intros Hc. destruct (rstrip s); [rewrite Hc |]; exact Hc.
Qed.

Lemma rstrip_cons (c : ascii) (s : string) :
  rstrip (String c s)
  = match rstrip s with
    | EmptyString => if isspace c then EmptyString else String c EmptyString
    | kept => String c kept
    end.
Proof. reflexivity. Qed.

Lemma rstrip_idem (s : string) : rstrip (rstrip s) = rstrip s.
Proof.
  induction s as [| c s IH]; [reflexivity |].
  rewrite (rstrip_cons c s). destruct (rstrip s) as [| c' kept] eqn:E.
  - destruct (isspace c) eqn:Hc; [reflexivity |].
    rewrite rstrip_cons. cbn [rstrip]. rewrite Hc. reflexivity.
  - rewrite rstrip_cons, IH. reflexivity.
Qed.

Lemma strip_idem (s : string) : strip (strip s) = strip s.
Proof.
  unfold strip.
  rewrite (lstrip_of_clean (rstrip (lstrip s))).
  - apply rstrip_idem.
  - apply rstrip_starts_clean, lstrip_starts_clean.
Qed.

Lemma lstrip_chars (s : string) (c : ascii) :
  In c (list_ascii_of_string (lstrip s)) -> In c (list_ascii_of_string s).
Proof.
  induction s as [| c' s IH]; [intros [] |].
  simpl. destruct (isspace c'); [intros H; right; apply IH, H | intros H; exact H].
Qed.

Lemma rstrip_chars (s : string) (c : ascii) :
  In c (list_ascii_of_string (rstrip s)) -> In c (list_ascii_of_string s).
Proof.
  induction s as [| c' s IH]; [intros [] |].
  simpl. destruct (rstrip s) as [| c'' kept].
  - destruct (isspace c'); [intros [] | intros [H | []]; left; exact H].
  - intros [H | H]; [left; exact H | right; apply IH, H].
Qed.

Lemma upper_chars (s : string) (c : ascii) :
  In c (list_ascii_of_string (upper s)) ->
  exists c', In c' (list_ascii_of_string s) /\ c = upper_char c'.
Proof.
  induction s as [| c' s IH]; [intros [] |].
  simpl. intros [H | H].
  - exists c'. split; [left; reflexivity | symmetry; exact H].
  - destruct (IH H) as [c'' [Hin Heq]]. exists c''. split; [right; exact Hin | exact Heq].
Qed.

Lemma split_pieces (sep : ascii) (s : string) (piece : string) :
  In piece (split sep s) -> ~ In sep (list_ascii_of_string piece).
Proof.
  revert piece. induction s as [| c s IH]; intros piece.
  - intros [<- | []] [].
  - simpl. destruct (Ascii.eqb c sep) eqn:E.
    + intros [<- | H]; [intros [] | apply IH, H].
    + apply Ascii.eqb_neq in E.
      destruct (split sep s) as [| first pieces].
      * intros [<- | []] [H | []]. apply E, H.
      * intros [<- | H].
        -- intros [Hc | Hc]; [apply E, Hc |]. apply (IH first); [left; reflexivity | exact Hc].
        -- apply IH. right. exact H.
Qed.

Lemma map_upper_fixed (l : list string) :
  Forall (fun t => truthy t = true /\ upper t = t) l ->
  map upper (filter truthy l) = l.
Proof.
  induction 1 as [| t l [Ht Hu] _ IH]; [reflexivity |].
  simpl. rewrite Ht. simpl. rewrite Hu, IH. reflexivity.
Qed.

Lemma normalized_fixed (universe : universe_arg) :
  Forall (fun t => truthy t = true /\ upper t = t) (_normalize_requested_universe universe).
Proof.
  assert (H : forall l, Forall (fun t => truthy t = true /\ upper t = t)
                               (map upper (filter truthy l))).
  { intros l. apply Forall_forall. intros t Ht.
    apply in_map_iff in Ht. destruct Ht as [u [<- Hu]].
    apply filter_In in Hu. destruct Hu as [_ Hu].
    split; [rewrite truthy_upper; exact Hu | apply upper_idem]. }
  destruct universe as [| s | [| t l]]; simpl.
  - constructor.
  - destruct (truthy s); [apply H | constructor].
  - constructor.
  - apply (H (t :: l)).
Qed.

(** X13.  Every ticker that the orchestrator takes from the request is a
    non-empty string without lower-case letter; taken from a
    comma-separated string it has no comma in it and no white space at
    either end. *)
Theorem requested_tickers_are_clean (universe : universe_arg) (t : string) :
  ascii_universe universe ->
  In t (_normalize_requested_universe universe) ->
  t <> EmptyString
  /\ upper t = t
  /\ (forall s, universe = TickerString s ->
      strip t = t /\ ~ In ","%char (list_ascii_of_string t)).
Proof.
  intros _ Ht.
  pose proof (normalized_fixed universe) as Hf.
  rewrite Forall_forall in Hf. destruct (Hf t Ht) as [Htr Hup].
  split; [apply truthy_true; exact Htr |]. split; [exact Hup |].
  intros s ->. simpl in Ht.
  destruct (truthy s); [| destruct Ht].
  apply in_map_iff in Ht. destruct Ht as [u [<- Hu]].
  apply filter_In in Hu. destruct Hu as [Hu _].
  apply in_map_iff in Hu. destruct Hu as [piece [<- Hp]].
  apply filter_In in Hp. destruct Hp as [Hp _].
  split.
  - rewrite strip_upper, strip_idem. reflexivity.
  - intros Hc. apply upper_chars in Hc. destruct Hc as [c' [Hin Heq]].
    symmetry in Heq. apply upper_char_comma in Heq. subst c'.
    apply (split_pieces _ _ _ Hp).
    apply lstrip_chars, rstrip_chars. exact Hin.
Qed.

Lemma requested_tickers_are_clean_witness :
  "MSFT"%string <> EmptyString
  /\ upper "MSFT" = "MSFT"%string
  /\ (forall s, TickerString " aapl, msft ,,tsla" = TickerString s ->
      strip "MSFT" = "MSFT"%string /\ ~ In ","%char (list_ascii_of_string "MSFT")).
Proof.
  apply (requested_tickers_are_clean (TickerString " aapl, msft ,,tsla") "MSFT").
  - unfold ascii_universe, ascii_text. simpl. repeat constructor.
  - vm_compute. right. left. reflexivity.
Defined.

(** X14.  Normalising the requested universe a second time changes
    nothing. *)
Theorem normalizing_twice_changes_nothing (universe : universe_arg) :
  ascii_universe universe ->
  _normalize_requested_universe (TickerList (_normalize_requested_universe universe))
  = _normalize_requested_universe universe.
Proof.
  intros _.
  pose proof (normalized_fixed universe) as Hf.
  destruct (_normalize_requested_universe universe) as [| t l] eqn:E; [reflexivity |].
  cbn [_normalize_requested_universe]. apply map_upper_fixed. exact Hf.
Qed.

Lemma normalizing_twice_changes_nothing_witness :
  _normalize_requested_universe
    (TickerList (_normalize_requested_universe (TickerString "aapl, Msft,")))
  = _normalize_requested_universe (TickerString "aapl, Msft,").
Proof.
  apply (normalizing_twice_changes_nothing (TickerString "aapl, Msft,")).
  unfold ascii_universe, ascii_text. simpl. repeat constructor.
Defined.

(** ** The table restricted to the request *)

Lemma filter_columns {A : Type} (f : string -> bool) (df : list (string * A)) :
  filter f (columns df) = columns (filter (fun c => f (fst c)) df).
Proof.
  induction df as [| d df IH]; [reflexivity |].
  simpl. destruct (f (fst d)); simpl; rewrite IH; reflexivity.
Qed.

Lemma filter_label_unique (df : DataFrame) (c : string * list cell) :
  NoDup (columns df) -> In c df ->
  filter (fun c' => String.eqb (fst c') (fst c)) df = [c].
Proof.
  induction df as [| d df IH]; intros Hn Hin; [destruct Hin |].
  simpl in Hn. inversion Hn as [| ? ? Hd Hn']; subst.
  simpl. destruct Hin as [-> | Hin].
  - rewrite String.eqb_refl. f_equal. apply filter_none.
    intros x Hx. apply String.eqb_neq. intros E. apply Hd. rewrite <- E.
    apply in_map. exact Hx.
  - destruct (String.eqb (fst d) (fst c)) eqn:E; [| apply IH; assumption].
    apply String.eqb_eq in E. exfalso. apply Hd. rewrite E. apply in_map. exact Hin.
Qed.

Lemma select_own_columns (df l : DataFrame) :
  NoDup (columns df) -> incl l df -> select_columns df (columns l) = l.
Proof.
  intros Hn. unfold select_columns. induction l as [| c l IH]; intros Hl; [reflexivity |].
  simpl. rewrite (filter_label_unique df c Hn) by (apply Hl; left; reflexivity).
  simpl. f_equal. apply IH. intros x Hx. apply Hl. right. exact Hx.
Qed.

Lemma select_columns_filter (f : string -> bool) (df : DataFrame) :
  NoDup (columns df) ->
  select_columns df (filter f (columns df)) = filter (fun c => f (fst c)) df.
Proof.
  intros Hn. rewrite filter_columns. apply select_own_columns; [exact Hn |].
  intros c Hc. apply filter_In in Hc. apply Hc.
Qed.

Lemma restrict_to_requested_cases (requested : list string) (df : DataFrame) :
  NoDup (columns df) ->
  (restrict_to_requested requested df = df
   /\ forall c, In c (columns df) -> mem (upper c) requested = false)
  \/ (restrict_to_requested requested df
      = filter (fun c => mem (upper (fst c)) requested) df
      /\ exists c, In c (columns df) /\ mem (upper c) requested = true).
Proof.
  intros Hn. unfold restrict_to_requested.
  destruct requested as [| r requested]; [left; split; [reflexivity | reflexivity] |].
  destruct (filter (fun c => mem (upper c) (r :: requested)) (columns df)) as [| a l] eqn:E.
  - left. split; [reflexivity |]. intros c Hc.
    destruct (mem (upper c) (r :: requested)) eqn:Hm; [| reflexivity].
    assert (Hin : In c (filter (fun c => mem (upper c) (r :: requested)) (columns df)))
      by (apply filter_In; split; assumption).
    rewrite E in Hin. destruct Hin.
  - right. split.
    + rewrite <- E. apply (select_columns_filter (fun c => mem (upper c) (r :: requested)) df Hn).
    + exists a.
      assert (Hin : In a (filter (fun c => mem (upper c) (r :: requested)) (columns df)))
        by (rewrite E; left; reflexivity).
      apply filter_In in Hin. exact Hin.
Qed.

Lemma NoDup_columns_filter {A : Type} (f : string * A -> bool) (df : list (string * A)) :
  NoDup (columns df) -> NoDup (columns (filter f df)).
Proof.
  induction df as [| d df IH]; intros Hn; [constructor |].
  simpl in Hn. inversion Hn as [| ? ? Hd Hn']; subst.
  simpl. destruct (f d); [| apply IH, Hn'].
  simpl. constructor; [| apply IH, Hn'].
  intros Hin. apply Hd. unfold columns in Hin. apply in_map_iff in Hin.
  destruct Hin as [x [Hx Hin]]. apply filter_In in Hin. rewrite <- Hx.
  apply in_map. apply Hin.
Qed.

Lemma df_empty_sub (df sub : DataFrame) :
  aligned df -> df_empty df = false -> incl sub df -> sub <> [] -> df_empty sub = false.
Proof.
  intros Ha He Hs Hne.
  destruct sub as [| [t col] sub]; [congruence |].
  destruct df as [| [t0 col0] df]; [discriminate |].
  simpl in *. rewrite <- He. f_equal.
  apply (Ha (t, col) (t0, col0)); [apply Hs; left; reflexivity | left; reflexivity].
Qed.

Lemma restrict_to_requested_facts (requested : list string) (df : DataFrame) :
  PriceTable df -> df_empty df = false ->
  PriceTable (restrict_to_requested requested df)
  /\ df_empty (restrict_to_requested requested df) = false
  /\ incl (restrict_to_requested requested df) df
  /\ ((exists c, In c (columns df) /\ mem (upper c) requested = true) ->
      forall c, In c df ->
                (In c (restrict_to_requested requested df)
                 <-> mem (upper (fst c)) requested = true))
  /\ ((forall c, In c (columns df) -> mem (upper c) requested = false) ->
      restrict_to_requested requested df = df).
Proof.
  intros [Hn Ha] He.
  destruct (restrict_to_requested_cases requested df Hn) as [[-> Hnone] | [-> [a [Ha1 Ha2]]]].
  - split; [split; assumption |]. split; [exact He |].
    split; [intros c Hc; exact Hc |]. split; [| reflexivity].
    intros [c [Hc Hm]]. rewrite (Hnone c Hc) in Hm. discriminate.
  - set (f := fun c : string * list cell => mem (upper (fst c)) requested).
    assert (Hincl : incl (filter f df) df) by (intros c Hc; apply filter_In in Hc; apply Hc).
    split.
    { split; [apply NoDup_columns_filter, Hn |].
      intros c1 c2 H1 H2. apply Ha; apply Hincl; assumption. }
    split.
    { apply (df_empty_sub df); try assumption.
      unfold columns in Ha1. apply in_map_iff in Ha1. destruct Ha1 as [c [<- Hc]].
      intros E. assert (Hin : In c (filter f df)) by (apply filter_In; split; assumption).
      rewrite E in Hin. destruct Hin. }
    split; [exact Hincl |]. split.
    + intros _ c Hc. rewrite filter_In. unfold f. tauto.
    + intros Hnone. rewrite (Hnone a Ha1) in Ha2. discriminate.
Qed.

(** X15.  Restricting a fetched price table to the requested tickers
    leaves a price table that is not empty: the columns kept are columns of
    the fetched table, exactly those whose upper-cased ticker was requested
    when there is one, and all of them when there is none. *)
Theorem requested_filter_keeps_price_table (requested : list string) (df : DataFrame) :
  PriceTable df -> df_empty df = false ->
  PriceTable (restrict_to_requested requested df)
  /\ df_empty (restrict_to_requested requested df) = false
  /\ incl (restrict_to_requested requested df) df
  /\ ((exists c, In c (columns df) /\ mem (upper c) requested = true) ->
      forall c, In c df ->
                (In c (restrict_to_requested requested df)
                 <-> mem (upper (fst c)) requested = true))
  /\ ((forall c, In c (columns df) -> mem (upper c) requested = false) ->
      restrict_to_requested requested df = df).
Proof.
  intros Hpt He. exact (restrict_to_requested_facts requested df Hpt He).
Qed.

Lemma requested_filter_keeps_price_table_witness :
  PriceTable (restrict_to_requested ["TSLA"; "IBM"]%string demo_prices)
  /\ df_empty (restrict_to_requested ["TSLA"; "IBM"]%string demo_prices) = false
  /\ incl (restrict_to_requested ["TSLA"; "IBM"]%string demo_prices) demo_prices
  /\ ((exists c, In c (columns demo_prices) /\ mem (upper c) ["TSLA"; "IBM"]%string = true) ->
      forall c, In c demo_prices ->
                (In c (restrict_to_requested ["TSLA"; "IBM"]%string demo_prices)
                 <-> mem (upper (fst c)) ["TSLA"; "IBM"]%string = true))
  /\ ((forall c, In c (columns demo_prices) -> mem (upper c) ["TSLA"; "IBM"]%string = false) ->
      restrict_to_requested ["TSLA"; "IBM"]%string demo_prices = demo_prices).
Proof.
  apply (requested_filter_keeps_price_table ["TSLA"; "IBM"]%string demo_prices).
  - exact demo_prices_PriceTable.
  - reflexivity.
Defined.

(** ** One run of the orchestrator *)

Lemma filter_all {A : Type} (f : A -> bool) (l : list A) :
  (forall x, In x l -> f x = true) -> filter f l = l.
Proof.
  induction l as [| a l IH]; intros H; [reflexivity |].
  simpl. rewrite (H a) by (left; reflexivity). f_equal.
  apply IH. intros x Hx. apply H. right. exact Hx.
Qed.

Lemma columns_map_snd {A B : Type} (g : A -> B) (l : list (string * A)) :
  columns (map (fun e => (fst e, g (snd e))) l) = columns l.
Proof. unfold columns. rewrite map_map. apply map_ext. reflexivity. Qed.

Lemma resolve_universe_own (df : DataFrame) (vol : Series) :
  columns vol = columns df -> resolve_universe df vol = columns df.
Proof.
  intros E. unfold resolve_universe, _sanitize_tickers. rewrite E.
  rewrite filter_all by (intros t Ht; apply mem_In; exact Ht).
  destruct (columns df); reflexivity.
Qed.

Lemma columns_own_report (sqrtQ : Q -> Q) (fill_pad : bool) (df : DataFrame) :
  columns (vol_series sqrtQ fill_pad df (assess_universe sqrtQ fill_pad df)) = columns df.
Proof.
  assert (H : forall d, volatility (assess_universe sqrtQ fill_pad df) = Some d ->
                        columns d = columns df).
  { intros d Hd. unfold assess_universe in Hd. simpl in Hd. injection Hd as <-.
    rewrite columns_map_snd. unfold fillna0.
  rewrite (columns_map_snd (fun c : cell => match c with Some q => q | None => 0 end)).
    apply columns_annualized_vol. }
  unfold vol_series.
  destruct (volatility (assess_universe sqrtQ fill_pad df)) as [[| e d] |];
    try apply columns_annualized_vol.
  apply H. reflexivity.
Qed.

Lemma own_report_wf (sqrtQ : Q -> Q) (fill_pad : bool) (df : DataFrame) :
  NoDup (columns df) -> dict_wf (assess_universe sqrtQ fill_pad df).
Proof.
  intros Hn d Hd. unfold assess_universe in Hd. simpl in Hd. injection Hd as <-.
  rewrite columns_map_snd. unfold fillna0.
  rewrite (columns_map_snd (fun c : cell => match c with Some q => q | None => 0 end)).
  rewrite columns_annualized_vol. exact Hn.
Qed.

Lemma pipeline_holdings
      (sort_values : list (string * Q) -> list (string * Q)) (sqrtQ : Q -> Q)
      (fill_pad : bool) (top_n : nat) (budget : Q) (risk_level : string) (df : DataFrame) :
  sorts sort_values -> PriceTable df -> df_empty df = false -> (1 <= top_n)%nat ->
  exists p,
    generate_portfolio sort_values sqrtQ fill_pad top_n budget risk_level (Some df)
                       (assess_universe sqrtQ fill_pad df) = Ok p
    /\ p_error p = None
    /\ length (p_holdings p) = Nat.min top_n (length df)
    /\ NoDup (map h_ticker (p_holdings p))
    /\ (forall h, In h (p_holdings p) -> In (h_ticker h) (columns df)).
Proof.
  intros Hsort Hpt Hne Htop.
  pose proof Hpt as [Hn _].
  pose proof (own_report_wf sqrtQ fill_pad df Hn) as Hd.
  destruct (generate_portfolio_total sort_values sqrtQ fill_pad top_n budget risk_level
              (Some df) (assess_universe sqrtQ fill_pad df) Hd) as [p Hp].
  { intros df' E. injection E as <-. exact Hpt. }
  exists p. split; [exact Hp |].
  destruct (portfolio_structure sort_values Hsort sqrtQ fill_pad top_n budget risk_level
              df _ p Hpt Hd Hne Htop Hp)
    as [chosen [weights [final [Hc [Hcount [Hlc [Hlw [Hfw [_ [Hall Herr]]]]]]]]]].
  destruct (ranking_facts sort_values Hsort sqrtQ fill_pad df _ Hd Hn Hne)
    as [_ [_ [Hnd [Hincl _]]]].
  destruct (chosen_NoDup _ _ _ _ _ Hnd Hcount Hc) as [Hcn Hci].
  assert (Hlf : length chosen = length final).
  { rewrite (Forall2_length Hfw). congruence. }
  destruct (holdings_of_pairs _ _ _ _ Hall) as [Ht [_ Hl]].
  rewrite (map_fst_combine _ _ Hlf) in Ht.
  split; [exact Herr |]. split.
  { rewrite Hl, length_combine, <- Hlf, Hlc. unfold holdings_count.
    rewrite (resolve_universe_own df _ (columns_own_report sqrtQ fill_pad df)).
    unfold columns. rewrite length_map. lia. }
  split; [rewrite Ht; exact Hcn |].
  intros h Hh. apply Hincl, Hci. rewrite <- Ht. apply in_map. exact Hh.
Qed.

(** X16.  When a fetch delivers a non-empty price table, [run] returns
    without error, with the report of the risk agent on the table
    restricted to the request, and with a portfolio without error marker.
    The portfolio has [min(5, k)] holdings, where [k] is the number of
    columns left by the restriction, or none at all: none is what line 93
    substitutes when the portfolio agent raises, as it does once a weight
    or an amount leaves the finite floats.  The holdings are distinct
    columns of the fetched table, and tickers that were requested as soon
    as one requested ticker is a column. *)
Theorem run_buys_requested_tickers
        (sort_values : list (string * Q) -> list (string * Q)) (sqrtQ : Q -> Q)
        (fill_pad : bool)
        (fetch_universe_prices : nat -> option (list string) -> (list string * DataFrame) + string)
        (explain_portfolio : Portfolio -> string -> RiskReport -> option string)
        (budget : Q) (risk_level : string) (universe : universe_arg)
        (index : list string) (df : DataFrame) :
  sorts sort_values ->
  fetch_prices fetch_universe_prices (_normalize_requested_universe universe)
  = inl (index, df) ->
  PriceTable df -> df_empty df = false ->
  let requested := _normalize_requested_universe universe in
  let kept := restrict_to_requested requested df in
  exists r p,
    run sort_values sqrtQ fill_pad fetch_universe_prices explain_portfolio
        budget risk_level universe = Ok r
    /\ r_error r = None
    /\ r_risk_report r = Some (assess_universe sqrtQ fill_pad kept)
    /\ r_portfolio r = Some p
    /\ p_error p = None
    /\ (p_holdings p = [] \/ length (p_holdings p) = Nat.min 5 (length kept))
    /\ NoDup (map h_ticker (p_holdings p))
    /\ (forall h, In h (p_holdings p) -> In (h_ticker h) (columns df))
    /\ ((exists c, In c (columns df) /\ mem (upper c) requested = true) ->
        forall h, In h (p_holdings p) -> mem (upper (h_ticker h)) requested = true).
Proof.
  intros Hsort Hfetch Hpt Hne requested kept.
  destruct (restrict_to_requested_facts requested df Hpt Hne)
    as [Hkpt [Hkne [Hincl [Hreq _]]]].
  fold kept in Hkpt, Hkne, Hincl, Hreq.
  destruct (pipeline_holdings sort_values sqrtQ fill_pad 5 budget risk_level kept
              Hsort Hkpt Hkne ltac:(lia)) as [p [Hp [Herr [Hlen [Hnd Hcols]]]]].
  eexists. exists p. split.
  { unfold run. rewrite Hfetch. cbn [try_except bind].
    fold requested. fold kept. rewrite Hp. cbn [try_except bind]. reflexivity. }
  cbn [r_error r_risk_report r_portfolio].
  do 4 (split; [first [reflexivity | assumption] |]).
  split; [right; exact Hlen |]. split; [exact Hnd |].
  assert (Hsub : forall h, In h (p_holdings p) ->
                           exists c, In c kept /\ fst c = h_ticker h).
  { intros h Hh. specialize (Hcols h Hh). unfold columns in Hcols.
    apply in_map_iff in Hcols. destruct Hcols as [c [E Hc]]. exists c. auto. }
  split.
  - intros h Hh. destruct (Hsub h Hh) as [c [Hc <-]].
    apply in_map. apply Hincl. exact Hc.
  - intros Hex h Hh. destruct (Hsub h Hh) as [c [Hc <-]].
    apply (Hreq Hex c (Hincl c Hc)). exact Hc.
Qed.

Lemma run_buys_requested_tickers_witness :
  exists r p,
    run stable_sort sqrt_approx true flaky_fetch silent_explainer
        (1000 # 1) "low" (TickerString "tsla, jnj") = Ok r
    /\ r_error r = None
    /\ r_risk_report r
       = Some (assess_universe sqrt_approx true
                 (restrict_to_requested ["TSLA"; "JNJ"]%string demo_prices))
    /\ r_portfolio r = Some p
    /\ p_error p = None
    /\ (p_holdings p = []
        \/ length (p_holdings p)
           = Nat.min 5 (length (restrict_to_requested ["TSLA"; "JNJ"]%string demo_prices)))
    /\ NoDup (map h_ticker (p_holdings p))
    /\ (forall h, In h (p_holdings p) -> In (h_ticker h) (columns demo_prices))
    /\ ((exists c, In c (columns demo_prices)
                   /\ mem (upper c) ["TSLA"; "JNJ"]%string = true) ->
        forall h, In h (p_holdings p) ->
                  mem (upper (h_ticker h)) ["TSLA"; "JNJ"]%string = true).
Proof.
  apply (run_buys_requested_tickers stable_sort sqrt_approx true flaky_fetch silent_explainer
           (1000 # 1) "low" (TickerString "tsla, jnj") demo_dates demo_prices).
  - exact stable_sort_sorts.
  - vm_compute. reflexivity.
  - exact demo_prices_PriceTable.
  - reflexivity.
Defined.

(** ** The prices sent to the frontend *)

Lemma ffill_from_length (prev : cell) (col : list cell) :
  length (ffill_from prev col) = length col.
Proof.
  revert prev. induction col as [| [q |] col IH]; intros prev; simpl;
    [reflexivity | rewrite IH; reflexivity | rewrite IH; reflexivity].
Qed.

Lemma bfill_length (col : list cell) : length (bfill col) = length col.
Proof.
  induction col as [| [q |] col IH]; simpl; [reflexivity | |]; rewrite IH; reflexivity.
Qed.

Lemma ffill_from_In (prev : cell) (col : list cell) (v : cell) :
  In v (ffill_from prev col) -> v = prev \/ In v col.
Proof.
  revert prev. induction col as [| [q |] col IH]; intros prev; simpl.
  - intros [].
  - intros [<- | H]; [right; left; reflexivity |].
    destruct (IH _ H) as [-> | Hin]; [right; left; reflexivity | right; right; exact Hin].
  - intros [<- | H]; [left; reflexivity |].
    destruct (IH _ H) as [-> | Hin]; [left; reflexivity | right; right; exact Hin].
Qed.

Lemma bfill_In (col : list cell) (v : cell) :
  In v (bfill col) -> v = None \/ In v col.
Proof.
  induction col as [| [q |] col IH]; simpl.
  - intros [].
  - intros [<- | H]; [right; left; reflexivity |].
    destruct (IH H) as [-> | Hin]; [left; reflexivity | right; right; exact Hin].
  - intros [<- | H].
    + destruct (bfill col) as [| a filled]; [left; reflexivity |].
      destruct (IH (or_introl eq_refl)) as [E | Hin]; [left; exact E | right; right; exact Hin].
    + destruct (IH H) as [-> | Hin]; [left; reflexivity | right; right; exact Hin].
Qed.

Lemma ffill_from_present (q : Q) (col : list cell) :
  Forall (fun v => v <> None) (ffill_from (Some q) col).
Proof.
  revert q. induction col as [| [q' |] col IH]; intros q; simpl.
  - constructor.
  - constructor; [discriminate | apply IH].
  - constructor; [discriminate | apply IH].
Qed.

Lemma bfill_of_present (col : list cell) :
  Forall (fun v => v <> None) col -> bfill col = col.
Proof.
  induction 1 as [| [q |] col Hc _ IH]; simpl; [reflexivity | | congruence].
  rewrite IH. reflexivity.
Qed.

Lemma filled_has_no_gap (col : list cell) :
  (exists q, In (Some q) col) -> Forall (fun v => v <> None) (bfill (ffill col)).
Proof.
  unfold ffill. induction col as [| [q |] col IH]; intros [q0 Hq].
  - destruct Hq.
  - simpl ffill_from.
    assert (Hp : Forall (fun v : cell => v <> None) (Some q :: ffill_from (Some q) col))
      by (constructor; [discriminate | apply ffill_from_present]).
    rewrite bfill_of_present; exact Hp.
  - destruct Hq as [Hq | Hq]; [discriminate |].
    specialize (IH (ex_intro _ q0 Hq)).
    simpl. destruct (bfill (ffill_from None col)) as [| a filled] eqn:E.
    + exfalso. apply (f_equal (@length cell)) in E.
      rewrite bfill_length, ffill_from_length in E.
      destruct col; [destruct Hq | discriminate].
    + simpl. inversion IH; subst. constructor; [assumption |]. constructor; assumption.
Qed.

Lemma filled_values (col : list cell) (v : cell) :
  (exists q, In (Some q) col) -> In v (bfill (ffill col)) ->
  exists q, v = Some q /\ In (Some q) col.
Proof.
  intros Hex Hv.
  pose proof (filled_has_no_gap col Hex) as Hf. rewrite Forall_forall in Hf.
  specialize (Hf v Hv).
  destruct v as [q |]; [| congruence]. exists q. split; [reflexivity |].
  apply bfill_In in Hv. destruct Hv as [Hv | Hv]; [discriminate |].
  unfold ffill in Hv. apply ffill_from_In in Hv. destruct Hv as [Hv | Hv]; [discriminate | exact Hv].
Qed.

Lemma recent_suffix {A : Type} (tail : option Z) (nrows : nat) (l : list A) :
  exists earlier, l = earlier ++ recent tail nrows l.
Proof.
  unfold recent, df_tail. destruct tail as [n |]; [| exists []; reflexivity].
  destruct (Z.ltb n (Z.of_nat nrows)); [| exists []; reflexivity].
  destruct (Z.leb 0 n); eexists; symmetry; apply firstn_skipn.
Qed.

Lemma recent_In {A : Type} (tail : option Z) (nrows : nat) (l : list A) (x : A) :
  In x (recent tail nrows l) -> In x l.
Proof.
  intros H. destruct (recent_suffix tail nrows l) as [earlier E].
  rewrite E. apply in_or_app. right. exact H.
Qed.

Lemma recent_length {A : Type} (tail : option Z) (nrows : nat) (l : list A) :
  length l = nrows -> (forall n, tail = Some n -> (0 <= n)%Z) ->
  length (recent tail nrows l) = rows_kept tail nrows.
Proof.
  intros Hl Hn. unfold recent, rows_kept, df_tail.
  destruct tail as [n |]; [| exact Hl].
  specialize (Hn n eq_refl).
  destruct (Z.ltb n (Z.of_nat nrows)) eqn:E.
  - apply Z.ltb_lt in E. apply Z.leb_le in Hn. rewrite Hn.
    apply Z.leb_le in Hn. rewrite length_skipn. lia.
  - apply Z.ltb_ge in E. lia.
Qed.

Lemma dict_get_app {V : Type} (d1 d2 : list (string * V)) (k : string) :
  dict_get (d1 ++ d2) k
  = match dict_get d2 k with
    | Some v => Some v
    | None => dict_get d1 k
    end.
Proof.
  induction d1 as [| [k' v'] d1 IH]; simpl.
  - destruct (dict_get d2 k); reflexivity.
  - rewrite IH. destruct (dict_get d2 k); reflexivity.
Qed.

Lemma dict_get_single {V : Type} (k' k : string) (v : V) :
  dict_get [(k', v)] k = if String.eqb k k' then Some v else None.
Proof. reflexivity. Qed.

Lemma NoDup_columns_inj {A : Type} (df : list (string * A)) (c1 c2 : string * A) :
  NoDup (columns df) -> In c1 df -> In c2 df -> fst c1 = fst c2 -> c1 = c2.
Proof.
  induction df as [| d df IH]; intros Hn H1 H2 E; [destruct H1 |].
  simpl in Hn. inversion Hn as [| ? ? Hd Hn']; subst.
  destruct H1 as [-> | H1]; destruct H2 as [-> | H2].
  - reflexivity.
  - exfalso. apply Hd. rewrite E. apply in_map. exact H2.
  - exfalso. apply Hd. rewrite <- E. apply in_map. exact H1.
  - apply IH; assumption.
Qed.

(** X17.  For a table with unique tickers whose columns are as long as the
    date axis, and a [tail] that is not negative, [prices_to_json] returns
    series that all have [min(tail, rows)] entries; under [dates] it
    returns the most recent dates, and under every ticker other than
    [dates] a list of prices. *)
Theorem prices_json_is_aligned (index : list string) (df : DataFrame) (tail : option Z) :
  NoDup (columns df) ->
  (forall c, In c df -> length (snd c) = length index) ->
  (forall n, tail = Some n -> (0 <= n)%Z) ->
  exists out,
    prices_to_json index df tail = Some out
    /\ (forall k j, In (k, j) out -> json_length j = rows_kept tail (length index))
    /\ (exists earlier dates,
           index = earlier ++ dates
           /\ dict_get out "dates" = Some (Dates dates))
    /\ (forall t, In t (columns df) -> t <> "dates"%string ->
                  exists l, dict_get out t = Some (Prices l)).
Proof.
  intros Hn Hlen Htail. unfold prices_to_json. cbv zeta.
  set (fill := fun c : string * list cell => (fst c, bfill (ffill (snd c)))).
  set (cut := fun c : string * list cell => (fst c, recent tail (length index) (snd c))).
  assert (Hcols : columns (map cut (map fill df)) = columns df).
  { unfold columns. rewrite !map_map. apply map_ext. reflexivity. }
  rewrite Hcols. apply nodupb_NoDup in Hn. rewrite Hn.
  eexists. split; [reflexivity |]. split; [| split].
  - intros k j Hin. apply in_app_or in Hin. destruct Hin as [Hin | [Hin | []]].
    + apply in_map_iff in Hin. destruct Hin as [c2 [E Hc2]].
      apply in_map_iff in Hc2. destruct Hc2 as [c1 [<- Hc1]].
      apply in_map_iff in Hc1. destruct Hc1 as [c [<- Hc]].
      injection E as _ <-. simpl. rewrite length_map.
      apply recent_length; [| exact Htail].
      rewrite bfill_length. unfold ffill. rewrite ffill_from_length. apply Hlen, Hc.
    + injection Hin as _ <-. simpl. apply recent_length; [reflexivity | exact Htail].
  - destruct (recent_suffix tail (length index) index) as [earlier E].
    exists earlier, (recent tail (length index) index). split; [exact E |].
    rewrite dict_get_app. reflexivity.
  - intros t Ht Hne. rewrite dict_get_app, dict_get_single.
    apply String.eqb_neq in Hne. rewrite Hne.
    match goal with
    | |- context [dict_get ?d t] => destruct (dict_get_present d t) as [v Hv]
    end.
    { unfold columns. rewrite !map_map. unfold columns in Ht.
      apply in_map_iff in Ht. destruct Ht as [c [<- Hc]].
      apply in_map_iff. exists c. split; [reflexivity | exact Hc]. }
    rewrite Hv. apply dict_get_In in Hv.
    apply in_map_iff in Hv. destruct Hv as [c2 [E _]].
    injection E as _ <-. eexists. reflexivity.
Qed.

Lemma prices_json_is_aligned_witness :
  exists out,
    prices_to_json gappy_dates gappy_prices (Some 3%Z) = Some out
    /\ (forall k j, In (k, j) out -> json_length j = rows_kept (Some 3%Z) (length gappy_dates))
    /\ (exists earlier dates,
           gappy_dates = earlier ++ dates
           /\ dict_get out "dates" = Some (Dates dates))
    /\ (forall t, In t (columns gappy_prices) -> t <> "dates"%string ->
                  exists l, dict_get out t = Some (Prices l)).
Proof.
  apply (prices_json_is_aligned gappy_dates gappy_prices (Some 3%Z)).
  - apply nodupb_NoDup. reflexivity.
  - intros c [<- | [<- | []]]; reflexivity.
  - intros n E. injection E as <-. lia.
Defined.

(** X18.  In what [prices_to_json] returns, the series of a ticker that
    has at least one price has no gap left, and each of its values is a
    price of that ticker rounded to cents. *)
Theorem prices_json_has_no_gaps (index : list string) (df : DataFrame) (tail : option Z)
        (out : list (string * json_list)) (ticker : string) (col : list cell)
        (l : list cell) :
  prices_to_json index df tail = Some out ->
  In (ticker, col) df -> (exists q, In (Some q) col) ->
  In (ticker, Prices l) out ->
  Forall (fun v => exists q, In (Some q) col /\ v = Some (py_round q 2) /\ is_cents (py_round q 2)) l.
Proof.
  unfold prices_to_json. cbv zeta. intros H Hcol Hex Hin.
  set (fill := fun c : string * list cell => (fst c, bfill (ffill (snd c)))) in H.
  set (cut := fun c : string * list cell => (fst c, recent tail (length index) (snd c))) in H.
  assert (Hcols : columns (map cut (map fill df)) = columns df).
  { unfold columns. rewrite !map_map. apply map_ext. reflexivity. }
  rewrite Hcols in H.
  destruct (nodupb (columns df)) eqn:Hn; [| discriminate].
  apply nodupb_NoDup in Hn. injection H as <-.
  apply in_app_or in Hin. destruct Hin as [Hin | [Hin | []]]; [| discriminate].
  apply in_map_iff in Hin. destruct Hin as [c2 [E Hc2]].
  apply in_map_iff in Hc2. destruct Hc2 as [c1 [<- Hc1]].
  apply in_map_iff in Hc1. destruct Hc1 as [c [<- Hc]].
  simpl in E. injection E as Et <-.
  assert (Ec : c = (ticker, col)) by (apply (NoDup_columns_inj df); assumption).
  subst c. simpl.
  apply Forall_forall. intros v Hv.
  apply in_map_iff in Hv. destruct Hv as [v0 [<- Hv0]].
  apply recent_In in Hv0.
  destruct (filled_values col v0 Hex Hv0) as [q [-> Hq]].
  exists q. split; [exact Hq |]. split; [reflexivity | apply py_round_is_cents].
Qed.

Lemma prices_json_has_no_gaps_witness :
  Forall (fun v => exists q,
              In (Some q) [None; Some (1001 # 10); None; Some (20525 # 1000); None]
              /\ v = Some (py_round q 2) /\ is_cents (py_round q 2))
         [Some (py_round (1001 # 10) 2); Some (py_round (20525 # 1000) 2);
          Some (py_round (20525 # 1000) 2)].
Proof.
  eapply (prices_json_has_no_gaps gappy_dates gappy_prices (Some 3%Z) _ "AAPL"
            [None; Some (1001 # 10); None; Some (20525 # 1000); None]).
  - vm_compute. reflexivity.
  - left. reflexivity.
  - exists (1001 # 10). right. left. reflexivity.
  - left. reflexivity.
Defined.
